(** * rss-rag: acquisition-to-ingestion pipeline

    A shallow embedding of the parts of [rss_rag] that carry the pipeline's
    contracts, and the properties proved (or refuted) about them:

    - [Errors]       : [rss_rag/errors.py], the retry wrappers;
    - [Database]     : [rss_rag/database.py], the article store;
    - [FeedManager]  : [rss_rag/feed_manager.py], entry normalisation and
                        [fetch_feed];
    - [Ingestion]    : [rss_rag/ingestion.py], submission to the engine;
    - [CostTracker]  : [rss_rag/cost_tracker.py], the cost ledger.

    Python exceptions are modelled by the text [str(e)] of the exception;
    only exceptions deriving from [Exception] are modelled (the handlers in
    the source are all [except Exception]).  Strings are byte strings. *)

From Stdlib Require Import ZArith Bool Ascii String PrimFloat Uint63 Lia.
From stdpp Require Import base option list strings gmap.

Open Scope string_scope.
Open Scope list_scope.
Open Scope Z_scope.

(** ** Python string helpers *)

Module PyStr.

(** [c.lower()] on one byte: only the ASCII capitals move.  The bytes of a
    non-ASCII character stay as they are; no such character lower-cases to
    ASCII letters alone, so the substring tests below are not affected. *)
Definition lower_ascii (c : ascii) : ascii :=
  let n := nat_of_ascii c in
  if ((65 <=? n)%nat && (n <=? 90)%nat)%bool then ascii_of_nat (n + 32) else c.

(** [s.lower()]. *)
Fixpoint lower (s : string) : string :=
  match s with
  | EmptyString => EmptyString
  | String c rest => String (lower_ascii c) (lower rest)
  end.

(** [s.startswith(p)]. *)
Definition startswith (s p : string) : bool := String.prefix p s.

(** [needle in hay]. *)
Fixpoint contains (needle hay : string) : bool :=
  if String.prefix needle hay then true
  else match hay with
       | EmptyString => false
       | String _ rest => contains needle rest
       end.

(** Truthiness of a [str]. *)
Definition truthy (s : string) : bool :=
  match s with EmptyString => false | _ => true end.

(** Truthiness of a [str | None]. *)
Definition truthy_opt (o : option string) : bool :=
  match o with Some s => truthy s | None => false end.

End PyStr.

(** ** errors.py *)

Module Errors.

(** The substrings tested by
    [any(x in error_str for x in ["rate limit", "timeout", "503", "429"])]. *)
Definition retryable_signals : list string :=
  ["rate limit"; "timeout"; "503"; "429"].

(** [error_str = str(e).lower()] followed by the [any(...)] test. *)
Definition is_retryable (e : string) : bool :=
  let error_str := PyStr.lower e in
  existsb (fun x => PyStr.contains x error_str) retryable_signals.
Arguments is_retryable : simpl never.

Definition max_retries : nat := 3.

(** [retry_delay = 1.0]; the delays [retry_delay * (2**attempt)] are whole
    numbers of seconds and are kept as integers. *)
Definition retry_delay : Z := 1.

(** The text of the [raise] that follows the [for] loop,
    [f"Max retries ({max_retries}) exceeded"]. *)
Definition max_retries_message : string := "Max retries (3) exceeded".

(** Which [raise LLMError] statement of the wrapper was executed. *)
Inductive raise_site : Type :=
| InLoop      (* [raise LLMError(str(e)) from e], inside the [except] *)
| AfterLoop.  (* [raise LLMError(f"Max retries ...")], after the [for] *)

(** How a wrapper call ends. *)
Inductive outcome (V : Type) : Type :=
| Returned (v : V)
| RaisedLLMError (site : raise_site) (msg : string).
Arguments Returned {V} v.
Arguments RaisedLLMError {V} site msg.

(** What a wrapper call did: the state the callable was left in, how many
    times the callable was invoked, the delays slept (in order), and the
    way the call ended. *)
Record run (S V : Type) : Type := mk_run {
  final : S;
  calls : nat;
  sleeps : list Z;
  result : outcome V;
}.
Arguments mk_run {S V} _ _ _ _.
Arguments final {S V} _.
Arguments calls {S V} _.
Arguments sleeps {S V} _.
Arguments result {S V} _.

Section Wrapper.
(** The wrapped callable, with the arguments it is called with fixed:
    it reads and updates some state [S] and either returns a value
    ([inl]) or raises an exception whose text is given ([inr]). *)
Context {S V : Type}.
Variable func : S -> S * (V + string).

(** The body of [for attempt in range(max_retries)] of
    [handle_api_error], over the attempts that remain; [n] and [slept]
    accumulate the invocations made and the delays slept so far
    ([slept] in reverse order). *)
Fixpoint wrapper_loop (attempts : list nat) (s : S) (n : nat)
         (slept : list Z) : run S V :=
  match attempts with
  | [] =>
      mk_run s n (rev slept) (RaisedLLMError AfterLoop max_retries_message)
  | attempt :: rest =>
      match func s with
      | (s', inl v) => mk_run s' (Datatypes.S n) (rev slept) (Returned v)
      | (s', inr e) =>
          if (is_retryable e && (attempt <? max_retries - 1)%nat)%bool
          then
            let delay := retry_delay * 2 ^ Z.of_nat attempt in
            wrapper_loop rest s' (Datatypes.S n) (delay :: slept)
          else
            mk_run s' (Datatypes.S n) (rev slept) (RaisedLLMError InLoop e)
      end
  end.

(** The wrapper returned by [handle_api_error(func)], called; the delays are those
    passed to [time.sleep]. *)
Definition handle_api_error (s : S) : run S V :=
  wrapper_loop (seq 0 max_retries) s 0%nat [].

(** The same loop as written a second time in [handle_api_error_async];
    the delays are those passed to [asyncio.sleep]. *)
Fixpoint wrapper_loop_async (attempts : list nat) (s : S) (n : nat)
         (slept : list Z) : run S V :=
  match attempts with
  | [] =>
      mk_run s n (rev slept) (RaisedLLMError AfterLoop max_retries_message)
  | attempt :: rest =>
      match func s with
      | (s', inl v) => mk_run s' (Datatypes.S n) (rev slept) (Returned v)
      | (s', inr e) =>
          if (is_retryable e && (attempt <? max_retries - 1)%nat)%bool
          then
            let delay := retry_delay * 2 ^ Z.of_nat attempt in
            wrapper_loop_async rest s' (Datatypes.S n) (delay :: slept)
          else
            mk_run s' (Datatypes.S n) (rev slept) (RaisedLLMError InLoop e)
      end
  end.

Definition handle_api_error_async (s : S) : run S V :=
  wrapper_loop_async (seq 0 max_retries) s 0%nat [].

End Wrapper.

(** A wrapper call that ended inside the loop: by the [return] of the
    [try], or by the [raise] of the [except] block, which carries the
    text of the exception raised by the invocation made last. *)
Definition ends_inside_loop {S V} (func : S -> S * (V + string))
           (r : run S V) : Prop :=
  match result r with
  | Returned v => exists s_last, func s_last = (final r, inl v)
  | RaisedLLMError site msg =>
      site = InLoop /\ exists s_last, func s_last = (final r, inr msg)
  end.




End Errors.


(** ** database.py *)

Module Database.

(** A row of the [articles] table.  [pub_date] is the stored timestamp
    (an instant, [None] for SQL NULL); the column [fetched_at] is written
    by the database clock and read by none of the functions below, and is
    left out. *)
Record article : Type := mk_article {
  id : Z;
  feed_id : Z;
  title : string;
  content : option string;
  link : string;
  pub_date : option Z;
  lightrag_id : option string;
}.

(** The [articles] table, in rowid order, and the AUTOINCREMENT counter of
    the table (the largest id handed out so far).  The tables [feeds] and
    [reading_history] are not modelled: the functions embedded here touch
    them only in statements of their own. *)
Record db : Type := mk_db {
  articles : list article;
  article_seq : Z;
}.

(** The store after [init_db] on a fresh file. *)
Definition init_db : db := mk_db [] 0.

(** [SELECT 1 FROM articles WHERE link = ? LIMIT 1 ... is not None]. *)
Definition article_exists (conn : db) (l : string) : bool :=
  existsb (fun a => String.eqb (link a) l) (articles conn).

(** [SELECT * FROM articles WHERE link = ?], all rows. *)
Definition with_link (l : string) (rows : list article) : list article :=
  List.filter (fun a => String.eqb (link a) l) rows.

(** [add_article]: the INSERT fails with [IntegrityError] when the UNIQUE
    constraint on [link] is violated, and the function then returns
    [None]; otherwise the row gets the next id, with a NULL
    [lightrag_id]. *)
Definition add_article (conn : db) (feed_id : Z) (title : string)
           (content : option string) (link : string) (pub_date : option Z)
  : db * option Z :=
  if article_exists conn link then (conn, None)
  else
    let lastrowid := article_seq conn + 1 in
    (mk_db (articles conn ++
              [mk_article lastrowid feed_id title content link pub_date None])
           lastrowid,
     Some lastrowid).

(** [SELECT * FROM articles WHERE id = ?], [fetchone]. *)
Definition get_article (conn : db) (article_id : Z) : option article :=
  find (fun a => id a =? article_id) (articles conn).

Definition set_lightrag_id (v : option string) (a : article) : article :=
  mk_article (id a) (feed_id a) (title a) (content a) (link a) (pub_date a) v.

(** [UPDATE articles SET lightrag_id = ? WHERE id = ?]: every row with
    that id is rewritten, whatever it held before; no row, no change. *)
Definition update_article_lightrag_id (conn : db) (article_id : Z)
           (lightrag_id : string) : db :=
  mk_db (map (fun a => if id a =? article_id
                       then set_lightrag_id (Some lightrag_id) a else a)
             (articles conn))
        (article_seq conn).

(** The one-way transition as the specification words it, for one call
    [markSubmitted(article_id, v)]: an identifier already stored for the
    item is still the one stored after the call. *)
Definition spec_write_once (conn : db) (article_id : Z) (v : string) : Prop :=
  forall a old,
    get_article conn article_id = Some a ->
    lightrag_id a = Some old ->
    lightrag_id <$> get_article (update_article_lightrag_id conn article_id v)
                                article_id
    = Some (Some old).

(** The effect of [delete_feed] on the [articles] table:
    [DELETE FROM articles WHERE feed_id = ?]. *)
Definition delete_feed (conn : db) (fid : Z) : db :=
  mk_db (List.filter (fun a => negb (feed_id a =? fid)) (articles conn))
        (article_seq conn).

(** [x < y] in SQLite's order on a nullable column: NULL is below every
    value. *)
Definition sql_ltb (x y : option Z) : bool :=
  match x, y with
  | None, None => false
  | None, Some _ => true
  | Some _, None => false
  | Some a, Some b => a <? b
  end.

(** [ORDER BY pub_date DESC]: rows with NULL dates come last.  SQL leaves
    the order of rows with equal dates open; the model keeps them in
    table order. *)
Fixpoint insert_desc (a : article) (l : list article) : list article :=
  match l with
  | [] => [a]
  | b :: l' =>
      if sql_ltb (pub_date a) (pub_date b) then b :: insert_desc a l'
      else a :: b :: l'
  end.

Definition order_by_pub_date_desc (l : list article) : list article :=
  foldr insert_desc [] l.

(** [LIMIT n] as SQLite reads it: a negative bound is no bound. *)
Definition sql_limit (n : Z) (l : list article) : list article :=
  if n <? 0 then l else take (Z.to_nat n) l.

(** [WHERE lightrag_id IS NULL]. *)
Definition is_pending (a : article) : bool :=
  match lightrag_id a with None => true | Some _ => false end.

(** [get_stats], the counter [total_articles]: the number of rows. *)
Definition total_articles (conn : db) : nat := length (articles conn).

(** The constraints the schema puts on the table: [id] is a primary key
    handed out from the counter, [link] is UNIQUE. *)
Definition well_formed (conn : db) : Prop :=
  NoDup (map id (articles conn)) /\
  NoDup (map link (articles conn)) /\
  Forall (fun a => 0 < id a <= article_seq conn) (articles conn) /\
  0 <= article_seq conn.

(** The id has been handed out, and the rows with that id all hold an
    identifier. *)
Definition marked_at (i : Z) (conn : db) : Prop :=
  i <= article_seq conn /\
  Forall (fun a => id a = i -> is_Some (lightrag_id a)) (articles conn).

(** The operations that write the [articles] table. *)
Inductive op : Type :=
| AddArticle (feed_id : Z) (title : string) (content : option string)
             (link : string) (pub_date : option Z)
| UpdateArticleLightragId (article_id : Z) (lightrag_id : string)
| DeleteFeed (feed_id : Z).

Definition exec (conn : db) (o : op) : db :=
  match o with
  | AddArticle f t c l p => fst (add_article conn f t c l p)
  | UpdateArticleLightragId i v => update_article_lightrag_id conn i v
  | DeleteFeed f => delete_feed conn f
  end.

Definition exec_all (conn : db) (os : list op) : db :=
  fold_left exec os conn.

(** A store with one article, as set up in [tests/test_database.py], and the
    same store after the article was marked with ["lightrag-123"]. *)
Definition one_article : db :=
  fst (add_article init_db 1 "Test Article" (Some "Test content")
                   "https://example.com/article1" None).

Definition one_marked : db :=
  update_article_lightrag_id one_article 1 "lightrag-123".

End Database.

(** ** feed_manager.py *)

Module FeedManager.

(** One element of [entry["content"]]: a dict that may hold the keys
    ["type"] and ["value"]. *)
Record content_item : Type := mk_content_item {
  ctype : option string;
  cvalue : option string;
}.

(** A feed entry, as far as [feed_manager] reads it: each field is the
    value under the key of that name, [None] when the key is absent.
    [published_parsed] and [updated_parsed] hold the parser's time
    tuples. *)
Record entry : Type := mk_entry {
  e_title : option string;
  e_link : option string;
  e_content : option (list content_item);
  e_summary : option string;
  e_description : option string;
  e_published_parsed : option (list Z);
  e_updated_parsed : option (list Z);
}.

(** The empty entry [{}]. *)
Definition empty_entry : entry :=
  mk_entry None None None None None None None.

(** The test of that loop,
    [content.get("type", "").startswith("text/html") or content.get("value")]. *)
Definition qualifies (c : content_item) : bool :=
  (PyStr.startswith (default "" (ctype c)) "text/html"
   || PyStr.truthy_opt (cvalue c))%bool.

(** The [for content in entry["content"]] loop of [extract_content]:
    [Some r] when the loop executes [return content.get("value")] with
    value [r], [None] when it runs to its end. *)
Fixpoint first_content (items : list content_item) : option (option string) :=
  match items with
  | [] => None
  | c :: rest =>
      if qualifies c then Some (cvalue c) else first_content rest
  end.

(** [extract_content(entry)]. *)
Definition extract_content (e : entry) : option string :=
  let after_content :=
    match e_summary e with
    | Some s => Some s
    | None =>
        match e_description e with
        | Some d => Some d
        | None => None
        end
    end in
  match e_content e with
  | Some (c :: cs) =>
      match first_content (c :: cs) with
      | Some r => r
      | None => after_content
      end
  | _ => after_content
  end.

(** Body normalisation as the specification words it: full content, then
    summary, then description, the first non-empty one; [None] when there
    is none. *)
Definition nonempty (o : option string) : option string :=
  match o with
  | Some s => if PyStr.truthy s then Some s else None
  | None => None
  end.

Definition spec_content_value (e : entry) : option string :=
  match e_content e with
  | Some items =>
      head (omap (fun c => nonempty (cvalue c)) items)
  | None => None
  end.

Definition spec_extract_content (e : entry) : option string :=
  match spec_content_value e with
  | Some v => Some v
  | None =>
      match nonempty (e_summary e) with
      | Some s => Some s
      | None => nonempty (e_description e)
      end
  end.

Record Article : Type := mk_Article {
  a_title : string;
  a_content : option string;
  a_link : string;
  a_pub_date : option Z;
  a_feed_url : string;
}.

(** What [feedparser.parse] hands back: [bozo_exception] is the text of
    the exception object when the attribute holds one, [feed_title] is
    [feed.feed.get("title")]. *)
Record parsed_feed : Type := mk_parsed_feed {
  bozo : bool;
  bozo_exception : option string;
  feed_title : option string;
  entries : list entry;
}.

(** [l[:n]] for a Python list and an [int]. *)
Definition py_slice_to {A} (l : list A) (n : Z) : list A :=
  if n <? 0 then take (Z.to_nat (Z.of_nat (length l) + n)) l
  else take (Z.to_nat n) l.

Section Fetch.
(** [datetime.fromtimestamp(mktime(parsed))] of the standard library:
    [None] when it raises [ValueError] or [OverflowError]. *)
Variable datetime_of_struct_time : list Z -> option Z.

(** The parser, applied to the URL: a parsed feed, or the text of the
    exception it raised. *)
Variable parse : string -> parsed_feed + string.

(** [a or b] on time tuples: an empty tuple is falsy. *)
Definition or_parsed (a b : option (list Z)) : option (list Z) :=
  match a with
  | Some (_ :: _) => a
  | _ => b
  end.

(** [parse_pub_date(entry)]. *)
Definition parse_pub_date (e : entry) : option Z :=
  match or_parsed (e_published_parsed e) (e_updated_parsed e) with
  | Some (x :: xs) => datetime_of_struct_time (x :: xs)
  | _ => None
  end.

(** The [for entry in feed.entries[:max_articles]] loop of
    [fetch_feed]. *)
Fixpoint collect_articles (feed_url : string) (es : list entry)
  : list Article :=
  match es with
  | [] => []
  | e :: rest =>
      match e_link e with
      | Some (String c l) =>
          mk_Article (default "Untitled" (e_title e))
                     (extract_content e)
                     (String c l)
                     (parse_pub_date e)
                     feed_url
            :: collect_articles feed_url rest
      | _ => collect_articles feed_url rest
      end
  end.

(** [fetch_feed(feed_url, max_articles)]: the triple
    [(feed_title, articles, error_message)]. *)
Definition fetch_feed (feed_url : string) (max_articles : Z)
  : option string * list Article * option string :=
  match parse feed_url with
  | inr e =>
      (None, [], Some ("Error fetching " +:+ feed_url +:+ ": " +:+ e))
  | inl feed =>
      let proceed :=
        (feed_title feed,
         collect_articles feed_url (py_slice_to (entries feed) max_articles),
         None) in
      match bozo feed, bozo_exception feed with
      | true, Some error_msg =>
          match entries feed with
          | [] => (None, [], Some error_msg)
          | _ :: _ => proceed
          end
      | _, _ => proceed
      end
  end.

End Fetch.

(** An entry whose content element is typed as HTML but empty, with a
    summary; and an entry with an empty summary and a description. *)
Definition empty_html_entry : entry :=
  mk_entry (Some "Post") (Some "https://example.com/post")
           (Some [mk_content_item (Some "text/html") (Some "")])
           (Some "Summary text") None None None.

Definition empty_summary_entry : entry :=
  mk_entry (Some "Post") (Some "https://example.com/post2")
           None (Some "") (Some "Description text") None None.

(** A feed with a parse warning and two valid entries. *)
Definition entry1 : entry :=
  mk_entry (Some "Article 1") (Some "https://example.com/article1")
           None (Some "Content 1") None None None.

Definition entry2 : entry :=
  mk_entry (Some "Article 2") (Some "https://example.com/article2")
           None (Some "Content 2") None None None.

Definition bozo_feed : parsed_feed :=
  mk_parsed_feed true (Some "Parse warning") (Some "Test Feed") [entry1; entry2].

End FeedManager.

(** ** ingestion.py *)

Module Ingestion.
Import Database.

Record IngestionResult : Type := mk_IngestionResult {
  r_article_id : Z;
  r_title : string;
  r_success : bool;
  r_lightrag_id : option string;
  r_error : option string;
}.

(** The line feed of the f-string of [ingest_article_async]. *)
Definition nl : string := String (ascii_of_nat 10) EmptyString.

Section Engine.
(** [hashlib.md5(b).hexdigest()], on the bytes of the link. *)
Variable md5_hexdigest : string -> string.

(** The retrieval engine: its state, and [rag.ainsert(text, ids=...,
    file_paths=...)] awaited on it, which leaves a new state and either
    returns ([None]) or raises an exception with the given text. *)
Context {E : Type}.
Variable ainsert : E -> string -> list string -> list string -> E * option string.

(** [_generate_doc_id(link)]. *)
Definition _generate_doc_id (link : string) : string := md5_hexdigest link.

(** The document text
    [f"Title: {title}\n\nURL: {link}\n\n{content or ''}"]. *)
Definition doc_text (title : string) (content : option string)
           (link : string) : string :=
  "Title: " +:+ title +:+ nl +:+ nl +:+ "URL: " +:+ link +:+ nl +:+ nl +:+
  (if PyStr.truthy_opt content then default "" content else "").

(** [ingest_article_async(rag, article_id, title, content, link)]: the
    engine is called once, directly; any exception it raises is turned
    into a failure result. *)
Definition ingest_article_async (rag : E) (article_id : Z) (title : string)
           (content : option string) (link : string)
  : E * IngestionResult :=
  let doc_id := _generate_doc_id link in
  match ainsert rag (doc_text title content link) [doc_id] [link] with
  | (rag', None) =>
      (rag', mk_IngestionResult article_id title true (Some doc_id) None)
  | (rag', Some e) =>
      (rag', mk_IngestionResult article_id title false None (Some e))
  end.

(** The submission as the specification words it: the engine call goes
    through the retry wrapper of [errors.py]. *)
Definition spec_submit_one (rag : E) (article_id : Z) (title : string)
           (content : option string) (link : string)
  : E * IngestionResult :=
  let doc_id := _generate_doc_id link in
  let call (s : E) : E * (unit + string) :=
    match ainsert s (doc_text title content link) [doc_id] [link] with
    | (s', None) => (s', inl tt)
    | (s', Some e) => (s', inr e)
    end in
  let r := Errors.handle_api_error_async call rag in
  match Errors.result r with
  | Errors.Returned _ =>
      (Errors.final r,
       mk_IngestionResult article_id title true (Some doc_id) None)
  | Errors.RaisedLLMError _ msg =>
      (Errors.final r,
       mk_IngestionResult article_id title false None (Some msg))
  end.

(** The SELECT of [ingest_pending_articles_async]; [if limit:] adds the
    LIMIT clause only for a bound that is neither [None] nor [0]. *)
Definition select_pending (conn : db) (limit : option Z) : list article :=
  let rows := order_by_pub_date_desc (List.filter is_pending (articles conn)) in
  match limit with
  | None => rows
  | Some n => if n =? 0 then rows else sql_limit n rows
  end.

(** The asynchronous generator [ingest_pending_articles_async], between
    two of its [yield]s: the store, the engine, the rows still to
    process and the results yielded so far. *)
Record gen_state : Type := mk_gen_state {
  g_db : db;
  g_rag : E;
  g_todo : list article;
  g_yielded : list IngestionResult;
}.

(** The generator, up to the start of its [for] loop. *)
Definition gen_start (conn : db) (rag : E) (limit : option Z) : gen_state :=
  mk_gen_state conn rag (select_pending conn limit) [].

(** One turn of the [for article in articles] loop, up to and including
    its [yield]; [None] when the rows are used up and the generator
    ends. *)
Definition gen_next (st : gen_state) : option gen_state :=
  match g_todo st with
  | [] => None
  | a :: rest =>
      let '(rag', res) :=
        ingest_article_async (g_rag st) (id a) (title a)
          (Some (if PyStr.truthy_opt (content a) then default "" (content a)
                 else ""))
          (link a) in
      let conn' :=
        if (r_success res && PyStr.truthy_opt (r_lightrag_id res))%bool
        then update_article_lightrag_id (g_db st) (id a)
               (default "" (r_lightrag_id res))
        else g_db st in
      Some (mk_gen_state conn' rag' rest (g_yielded st ++ [res]))
  end.

(** The generator advanced [k] times: the state after its [k]-th
    [yield], or [None] if it ended before. *)
Fixpoint gen_advance (k : nat) (st : gen_state) : option gen_state :=
  match k with
  | O => Some st
  | Datatypes.S k' =>
      match gen_next st with
      | Some st' => gen_advance k' st'
      | None => None
      end
  end.

(** The generator run until it ends ([collect] of
    [ingest_pending_articles]); the fuel is the number of rows. *)
Fixpoint gen_drain (fuel : nat) (st : gen_state) : gen_state :=
  match fuel with
  | O => st
  | Datatypes.S fuel' =>
      match gen_next st with
      | Some st' => gen_drain fuel' st'
      | None => st
      end
  end.

(** [ingest_pending_articles(db_path, limit)], with the store and the
    engine it leaves behind. *)
Definition ingest_pending_articles (conn : db) (rag : E) (limit : option Z)
  : db * E * list IngestionResult :=
  let st0 := gen_start conn rag limit in
  let st := gen_drain (length (g_todo st0)) st0 in
  (g_db st, g_rag st, g_yielded st).

(** The engine call made for a row by the loop of
    [ingest_pending_articles_async]. *)
Definition submit_call (rag : E) (a : article) : E * option string :=
  ainsert rag
    (doc_text (title a)
       (Some (if PyStr.truthy_opt (content a) then default "" (content a)
              else ""))
       (link a))
    [_generate_doc_id (link a)] [link a].

(** The outcomes of the engine calls for a list of rows, one call per row,
    in order, each on the engine as the call before left it. *)
Fixpoint engine_outcomes (rag : E) (rows : list article)
  : list (option string) :=
  match rows with
  | [] => []
  | a :: rest =>
      let '(rag', out) := submit_call rag a in
      out :: engine_outcomes rag' rest
  end.

(** What the loop body does to the store for one result: the article of a
    successful result is marked with the identifier of the result. *)
Definition apply_result (conn : db) (r : IngestionResult) : db :=
  if r_success r
  then update_article_lightrag_id conn (r_article_id r)
         (default "" (r_lightrag_id r))
  else conn.

(** A result that [ingest_article_async] can give for a row: a success
    carrying the document id of the link, or a failure carrying an error
    text. *)
Definition result_for (a : article) (r : IngestionResult) : Prop :=
  r_article_id r = id a /\
  r_title r = title a /\
  ((r_success r = true /\ r_lightrag_id r = Some (_generate_doc_id (link a))
    /\ r_error r = None) \/
   (r_success r = false /\ r_lightrag_id r = None /\ is_Some (r_error r))).

(** [get_pending_count(db_path)]. *)
Definition get_pending_count (conn : db) : nat :=
  length (List.filter is_pending (articles conn)).

(** [get_ingested_count(db_path)]. *)
Definition get_ingested_count (conn : db) : nat :=
  length (List.filter (fun a => negb (is_pending a)) (articles conn)).

End Engine.

(** A stand-in digest for closed examples: 32 hexadecimal digits for every
    input. *)
Definition const_digest (_ : string) : string :=
  "d41d8cd98f00b204e9800998ecf8427e".

(** An engine for closed examples: its state counts the calls made; the
    first call raises a rate-limit error, later calls return. *)
Definition flaky_ainsert (calls : nat) (_ : string) (_ _ : list string)
  : nat * option string :=
  (Datatypes.S calls,
   if (calls <? 1)%nat then Some "Rate limit exceeded" else None).

(** An engine that rejects the documents about one link and accepts the
    others. *)
Definition picky_ainsert (bad : string) (calls : nat) (_ : string)
           (_ file_paths : list string) : nat * option string :=
  (Datatypes.S calls,
   if existsb (String.eqb bad) file_paths then Some "API Error" else None).

(** A store with three pending articles, the second of which the picky
    engine rejects. *)
Definition three_pending : db :=
  exec_all init_db
    [AddArticle 1 "First" (Some "Body 1") "https://example.com/1" (Some 30);
     AddArticle 1 "Second" None "https://example.com/2" (Some 20);
     AddArticle 1 "Third" (Some "Body 3") "https://example.com/3" None].

End Ingestion.

(** ** cost_tracker.py *)

Module CostTracker.

(** Python [float] is IEEE binary64, as is [PrimFloat.float]. *)
Definition float_of_Z (n : Z) : float :=
  if n <? 0 then PrimFloat.opp (PrimFloat.of_uint63 (Uint63.of_Z (- n)))
  else PrimFloat.of_uint63 (Uint63.of_Z n).

(** [a / b] on two [int]s; exact operands below [2^53]. *)
Definition int_truediv (a b : Z) : float :=
  PrimFloat.div (float_of_Z a) (float_of_Z b).

(** The table [PRICING]: per model, the prices of a million input and
    output tokens.  A decimal literal denotes the nearest binary64 value, in
    Python as here. *)
#[local] Set Warnings "-inexact-float".

Definition PRICING : list (string * (float * float)) :=
  [ ("gpt-4o-mini", (0.15, 0.60)%float);
    ("gpt-4o", (2.50, 10.00)%float);
    ("claude-sonnet-4", (3.00, 15.00)%float);
    ("claude-3-5-haiku", (0.80, 4.00)%float);
    ("text-embedding-3-small", (0.02, 0.0)%float);
    ("text-embedding-3-large", (0.13, 0.0)%float) ].

(** The fallback [{"input": 0.01, "output": 0.01}]. *)
Definition default_pricing : float * float := (0.01, 0.01)%float.

(** [PRICING.get(model, default)]. *)
Definition pricing_get (model : string) : float * float :=
  match find (fun kv => String.eqb (fst kv) model) PRICING with
  | Some kv => snd kv
  | None => default_pricing
  end.

Record APICall : Type := mk_APICall {
  timestamp : string;
  operation : string;
  model : string;
  input_tokens : Z;
  output_tokens : Z;
  cost_usd : float;
}.

Record CostSummary : Type := mk_CostSummary {
  total_calls : Z;
  total_input_tokens : Z;
  total_output_tokens : Z;
  total_cost_usd : float;
  by_operation : gmap string float;
  by_model : gmap string float;
}.

(** [CostSummary()]. *)
Definition empty_summary : CostSummary :=
  mk_CostSummary 0 0 0 0%float ∅ ∅.

(** The cost computed by [record_call]. *)
Definition call_cost (model : string) (input_tokens output_tokens : Z) : float :=
  let pricing := pricing_get model in
  PrimFloat.add
    (PrimFloat.mul (int_truediv input_tokens 1000000) (fst pricing))
    (PrimFloat.mul (int_truediv output_tokens 1000000) (snd pricing)).

(** [d[k] = d.get(k, 0) + x]. *)
Definition dict_add (d : gmap string float) (k : string) (x : float)
  : gmap string float :=
  <[k := PrimFloat.add (default 0%float (d !! k)) x]> d.

(** The statements of the loop body of [get_summary] that follow the date
    filter. *)
Definition add_call (summary : CostSummary) (call : APICall) : CostSummary :=
  mk_CostSummary
    (total_calls summary + 1)
    (total_input_tokens summary + input_tokens call)
    (total_output_tokens summary + output_tokens call)
    (PrimFloat.add (total_cost_usd summary) (cost_usd call))
    (dict_add (by_operation summary) (operation call) (cost_usd call))
    (dict_add (by_model summary) (model call) (cost_usd call)).

Section Clock.
(** Naive datetimes are modelled by instants; [isoformat] and
    [fromisoformat] are those of the standard library, the latter
    answering [None] where it raises [ValueError]. *)
Variable isoformat : Z -> string.
Variable fromisoformat : string -> option Z.

(** [record_call(operation, model, input_tokens, output_tokens)] on the
    list [self.calls], with the value of [datetime.now()]: the new list
    and the cost returned.  The copy written by [_save] is not
    modelled. *)
Definition record_call (calls : list APICall) (now : Z)
           (operation model : string) (input_tokens output_tokens : Z)
  : list APICall * float :=
  let cost := call_cost model input_tokens output_tokens in
  ((calls ++ [mk_APICall (isoformat now) operation model
                         input_tokens output_tokens cost])%list,
   cost).

(** The [for call in self.calls] loop of [get_summary]; [inr] carries
    the timestamp on which [fromisoformat] raised. *)
Fixpoint summary_loop (calls : list APICall) (since : option Z)
         (summary : CostSummary) : CostSummary + string :=
  match calls with
  | [] => inl summary
  | call :: rest =>
      match since with
      | Some s =>
          match fromisoformat (timestamp call) with
          | None => inr (timestamp call)
          | Some call_time =>
              if call_time <? s then summary_loop rest since summary
              else summary_loop rest since (add_call summary call)
          end
      | None => summary_loop rest since (add_call summary call)
      end
  end.

(** [get_summary(since)]. *)
Definition get_summary (calls : list APICall) (since : option Z)
  : CostSummary + string :=
  summary_loop calls since empty_summary.

(** The calls a summary with bound [since] is about: those stamped at
    or after it. *)
Definition included (since : option Z) (call : APICall) : bool :=
  match since with
  | None => true
  | Some s =>
      match fromisoformat (timestamp call) with
      | Some call_time => s <=? call_time
      | None => false
      end
  end.

End Clock.

(** The sum of a list of floats, accumulated from [0.0] in list order. *)
Definition float_sum (l : list float) : float :=
  fold_left PrimFloat.add l 0%float.

Definition Z_sum (l : list Z) : Z := fold_left Z.add l 0.

(** A clock format for closed examples: the instant in unary. *)
Definition unary_isoformat (t : Z) : string :=
  string_of_list_ascii (repeat "T"%char (Z.to_nat t)).

Definition unary_fromisoformat (s : string) : option Z :=
  Some (Z.of_nat (String.length s)).

(** The ledger after the two calls of [test_get_summary], recorded at the
    instants 5 and 7. *)
Definition two_calls : list APICall :=
  fst (record_call unary_isoformat
         (fst (record_call unary_isoformat [] 5 "op1" "gpt-4o-mini" 1000 500))
         7 "op2" "gpt-4o-mini" 2000 1000).

End CostTracker.


(** ** Sums *)

Module Sums.

(** The sum of a list of integers. *)
Definition Z_total (l : list Z) : Z := foldr Z.add 0 l.

End Sums.

(** ** hashlib.md5, as used by [_generate_doc_id] *)

Module Md5.

(** The MD5 message digest (RFC 1321) on a byte string, with the digest
    rendered the way [hexdigest()] renders it.  Words are 32-bit values
    held in [Z]. *)

Definition mask32 (x : Z) : Z := x mod 2 ^ 32.

Definition rotl32 (x c : Z) : Z :=
  mask32 (Z.lor (Z.shiftl x c) (Z.shiftr x (32 - c))).

Definition not32 (x : Z) : Z := Z.lxor x 0xffffffff.

(** The per-round shift amounts. *)
Definition shifts : list Z :=
  [7; 12; 17; 22; 7; 12; 17; 22; 7; 12; 17; 22; 7; 12; 17; 22;
   5; 9; 14; 20; 5; 9; 14; 20; 5; 9; 14; 20; 5; 9; 14; 20;
   4; 11; 16; 23; 4; 11; 16; 23; 4; 11; 16; 23; 4; 11; 16; 23;
   6; 10; 15; 21; 6; 10; 15; 21; 6; 10; 15; 21; 6; 10; 15; 21].

(** The constants [floor(2^32 * abs(sin(i + 1)))]. *)
Definition sines : list Z :=
  [0xd76aa478; 0xe8c7b756; 0x242070db; 0xc1bdceee;
   0xf57c0faf; 0x4787c62a; 0xa8304613; 0xfd469501;
   0x698098d8; 0x8b44f7af; 0xffff5bb1; 0x895cd7be;
   0x6b901122; 0xfd987193; 0xa679438e; 0x49b40821;
   0xf61e2562; 0xc040b340; 0x265e5a51; 0xe9b6c7aa;
   0xd62f105d; 0x02441453; 0xd8a1e681; 0xe7d3fbc8;
   0x21e1cde6; 0xc33707d6; 0xf4d50d87; 0x455a14ed;
   0xa9e3e905; 0xfcefa3f8; 0x676f02d9; 0x8d2a4c8a;
   0xfffa3942; 0x8771f681; 0x6d9d6122; 0xfde5380c;
   0xa4beea44; 0x4bdecfa9; 0xf6bb4b60; 0xbebfbc70;
   0x289b7ec6; 0xeaa127fa; 0xd4ef3085; 0x04881d05;
   0xd9d4d039; 0xe6db99e5; 0x1fa27cf8; 0xc4ac5665;
   0xf4292244; 0x432aff97; 0xab9423a7; 0xfc93a039;
   0x655b59c3; 0x8f0ccc92; 0xffeff47d; 0x85845dd1;
   0x6fa87e4f; 0xfe2ce6e0; 0xa3014314; 0x4e0811a1;
   0xf7537e82; 0xbd3af235; 0x2ad7d2bb; 0xeb86d391].

(** The chaining state [(A, B, C, D)]. *)
Record state : Type := mk_state { sA : Z; sB : Z; sC : Z; sD : Z }.

Definition initial : state :=
  mk_state 0x67452301 0xefcdab89 0x98badcfe 0x10325476.

(** The bytes of a string ([link.encode()] on a byte string). *)
Definition bytes_of_string (s : string) : list Z :=
  map (fun c => Z.of_nat (nat_of_ascii c)) (list_ascii_of_string s).

(** [n] as [k] bytes, least significant first. *)
Fixpoint le_bytes (k : nat) (n : Z) : list Z :=
  match k with
  | O => []
  | Datatypes.S k' => n mod 256 :: le_bytes k' (n / 256)
  end.

(** The value of a list of bytes, least significant first. *)
Fixpoint le_value (bs : list Z) : Z :=
  match bs with
  | [] => 0
  | b :: rest => b + 256 * le_value rest
  end.

(** Padding: a [0x80] byte, zero bytes up to 56 modulo 64, and the length
    of the message in bits on 8 bytes. *)
Definition pad (msg : list Z) : list Z :=
  let len := Z.of_nat (length msg) in
  let zeros := Z.to_nat ((55 - len) mod 64) in
  msg ++ [0x80] ++ repeat 0 zeros ++ le_bytes 8 ((8 * len) mod 2 ^ 64).

(** The sixteen words of a 64-byte block. *)
Fixpoint words (n : nat) (block : list Z) : list Z :=
  match n with
  | O => []
  | Datatypes.S n' => le_value (take 4 block) :: words n' (drop 4 block)
  end.

(** Operation [i] of the 64 operations on a block with words [M]. *)
Definition operation (M : list Z) (st : state) (i : nat) : state :=
  let '(mk_state A B C D) := st in
  let i' := Z.of_nat i in
  let '(F, g) :=
    if i' <? 16 then (Z.lor (Z.land B C) (Z.land (not32 B) D), i')
    else if i' <? 32 then
      (Z.lor (Z.land D B) (Z.land (not32 D) C), (5 * i' + 1) mod 16)
    else if i' <? 48 then (Z.lxor (Z.lxor B C) D, (3 * i' + 5) mod 16)
    else (Z.lxor C (Z.lor B (not32 D)), (7 * i') mod 16) in
  let F' := mask32 (F + A + nth i sines 0 + nth (Z.to_nat g) M 0) in
  mk_state D (mask32 (B + rotl32 F' (nth i shifts 0))) B C.

(** One 64-byte block folded into the chaining state. *)
Definition compress (st : state) (block : list Z) : state :=
  let M := words 16 block in
  let st' := fold_left (operation M) (seq 0 64) st in
  mk_state (mask32 (sA st + sA st')) (mask32 (sB st + sB st'))
           (mask32 (sC st + sC st')) (mask32 (sD st + sD st')).

(** The blocks of a padded message, one after the other. *)
Fixpoint blocks (n : nat) (st : state) (data : list Z) : state :=
  match n with
  | O => st
  | Datatypes.S n' => blocks n' (compress st (take 64 data)) (drop 64 data)
  end.

Definition digest_state (msg : list Z) : state :=
  let data := pad msg in
  blocks (length data / 64) initial data.

(** The 16 bytes of the digest. *)
Definition digest (msg : list Z) : list Z :=
  let st := digest_state msg in
  le_bytes 4 (sA st) ++ le_bytes 4 (sB st) ++ le_bytes 4 (sC st)
  ++ le_bytes 4 (sD st).

Definition hex_digit (n : Z) : ascii :=
  nth (Z.to_nat n)
      (list_ascii_of_string "0123456789abcdef") "0"%char.

Definition hex_byte (b : Z) : list ascii := [hex_digit (b / 16); hex_digit (b mod 16)].

(** [hashlib.md5(s).hexdigest()]. *)
Definition hexdigest (s : string) : string :=
  string_of_list_ascii (concat (map hex_byte (digest (bytes_of_string s)))).

(** A lower-case hexadecimal digit. *)
Definition is_hex (c : ascii) : bool :=
  existsb (Ascii.eqb c) (list_ascii_of_string "0123456789abcdef").

End Md5.

(** ** database.py: feeds, reading history, queries *)

Module Store.
Import Database.

(** A row of [feeds].  The columns [fetch_interval] and [created_at] are
    written by their defaults and read by no function; they are left
    out. *)
Record feed : Type := mk_feed {
  f_id : Z;
  f_url : string;
  f_title : option string;
  f_last_fetched : option Z;
  f_active : bool;
}.

(** A row of [reading_history], without its [timestamp] column (written by
    the database clock). *)
Record reading : Type := mk_reading {
  h_id : Z;
  h_article_id : Z;
  h_action : string;
  h_read_duration : option Z;
}.

(** The database behind a connection: the three tables and the
    AUTOINCREMENT counters of [feeds] and [reading_history]; the articles
    are the store of [Database].  Foreign keys are declared in the schema
    but the connections do not switch their enforcement on. *)
Record conn : Type := mk_conn {
  feeds : list feed;
  feed_seq : Z;
  arts : db;
  history : list reading;
  history_seq : Z;
}.

Definition init_db : conn := mk_conn [] 0 Database.init_db [] 0.

Definition with_feeds (c : conn) (fs : list feed) : conn :=
  mk_conn fs (feed_seq c) (arts c) (history c) (history_seq c).

Definition with_arts (c : conn) (d : db) : conn :=
  mk_conn (feeds c) (feed_seq c) d (history c) (history_seq c).

(** [get_feed(conn, feed_id)]. *)
Definition get_feed (c : conn) (feed_id : Z) : option feed :=
  find (fun f => f_id f =? feed_id) (feeds c).

(** [get_feed_by_url(conn, url)]. *)
Definition get_feed_by_url (c : conn) (url : string) : option feed :=
  find (fun f => String.eqb (f_url f) url) (feeds c).

(** [add_feed(conn, url, title)]: the INSERT fails with [IntegrityError]
    when the url is taken, and the id of the feed that holds it is
    returned. *)
Definition add_feed (c : conn) (url : string) (title : option string)
  : conn * Z :=
  match get_feed_by_url c url with
  | Some existing => (c, f_id existing)
  | None =>
      let lastrowid := feed_seq c + 1 in
      (mk_conn (feeds c ++ [mk_feed lastrowid url title None true]) lastrowid
               (arts c) (history c) (history_seq c),
       lastrowid)
  end.

(** [get_all_feeds(conn, active_only)]. *)
Definition get_all_feeds (c : conn) (active_only : bool) : list feed :=
  if active_only then List.filter f_active (feeds c) else feeds c.

(** [UPDATE feeds SET ... WHERE id = ?], for a change [g] of the row. *)
Definition update_feed (c : conn) (feed_id : Z) (g : feed -> feed) : conn :=
  with_feeds c (map (fun f => if f_id f =? feed_id then g f else f) (feeds c)).

(** [update_feed_last_fetched(conn, feed_id)], with the value of
    [CURRENT_TIMESTAMP]. *)
Definition update_feed_last_fetched (c : conn) (feed_id : Z) (now : Z) : conn :=
  update_feed c feed_id
    (fun f => mk_feed (f_id f) (f_url f) (f_title f) (Some now) (f_active f)).

(** [update_feed_title(conn, feed_id, title)]. *)
Definition update_feed_title (c : conn) (feed_id : Z) (title : string) : conn :=
  update_feed c feed_id
    (fun f => mk_feed (f_id f) (f_url f) (Some title) (f_last_fetched f)
                      (f_active f)).

Definition set_active (b : bool) (f : feed) : feed :=
  mk_feed (f_id f) (f_url f) (f_title f) (f_last_fetched f) b.

(** [deactivate_feed(conn, feed_id)] and [activate_feed(conn, feed_id)]. *)
Definition deactivate_feed (c : conn) (feed_id : Z) : conn :=
  update_feed c feed_id (set_active false).

Definition activate_feed (c : conn) (feed_id : Z) : conn :=
  update_feed c feed_id (set_active true).

(** [SELECT id FROM articles WHERE feed_id = ?]. *)
Definition article_ids_of_feed (c : conn) (feed_id : Z) : list Z :=
  map id (List.filter (fun a => Database.feed_id a =? feed_id)
                      (articles (arts c))).

(** [delete_feed(conn, feed_id)]: the reading history of the feed's
    articles, then the articles, then the feed. *)
Definition delete_feed (c : conn) (feed_id : Z) : conn :=
  mk_conn
    (List.filter (fun f => negb (f_id f =? feed_id)) (feeds c))
    (feed_seq c)
    (Database.delete_feed (arts c) feed_id)
    (List.filter
       (fun h => negb (existsb (Z.eqb (h_article_id h))
                               (article_ids_of_feed c feed_id)))
       (history c))
    (history_seq c).

(** The article functions of [Database], on a connection. *)
Definition add_article (c : conn) (feed_id : Z) (title : string)
           (content : option string) (link : string) (pub_date : option Z)
  : conn * option Z :=
  let r := Database.add_article (arts c) feed_id title content link pub_date in
  (with_arts c (fst r), snd r).

Definition update_article_lightrag_id (c : conn) (article_id : Z)
           (lightrag_id : string) : conn :=
  with_arts c (Database.update_article_lightrag_id (arts c) article_id lightrag_id).

Definition article_exists (c : conn) (link : string) : bool :=
  Database.article_exists (arts c) link.

Definition get_article (c : conn) (article_id : Z) : option article :=
  Database.get_article (arts c) article_id.

(** [get_article_by_link(conn, link)]. *)
Definition get_article_by_link (c : conn) (l : string) : option article :=
  find (fun a => String.eqb (link a) l) (articles (arts c)).

(** [get_articles_by_feed(conn, feed_id, limit)]. *)
Definition get_articles_by_feed (c : conn) (feed_id : Z) (limit : Z)
  : list article :=
  sql_limit limit
    (order_by_pub_date_desc
       (List.filter (fun a => Database.feed_id a =? feed_id)
                    (articles (arts c)))).

(** [get_recent_articles(conn, limit)]: the inner join keeps the articles
    whose feed exists and adds the title of that feed. *)
Definition get_recent_articles (c : conn) (limit : Z)
  : list (article * option string) :=
  omap (fun a => match get_feed c (Database.feed_id a) with
                 | Some f => Some (a, f_title f)
                 | None => None
                 end)
       (sql_limit limit
          (order_by_pub_date_desc
             (List.filter
                (fun a => bool_decide (is_Some (get_feed c (Database.feed_id a))))
                (articles (arts c))))).

(** An article has a history row with the action ['read']. *)
Definition was_read (c : conn) (a : article) : bool :=
  existsb (fun h => (h_article_id h =? id a) && String.eqb (h_action h) "read")
          (history c).

(** [get_unread_articles(conn, limit)]: the left join leaves the articles
    without a ['read'] row. *)
Definition get_unread_articles (c : conn) (limit : Z) : list article :=
  sql_limit limit
    (order_by_pub_date_desc
       (List.filter (fun a => negb (was_read c a)) (articles (arts c)))).

(** [get_articles_without_lightrag_id(conn, limit)]. *)
Definition get_articles_without_lightrag_id (c : conn) (limit : Z)
  : list article :=
  sql_limit limit
    (order_by_pub_date_desc (List.filter is_pending (articles (arts c)))).

(** [add_reading_history(conn, article_id, action, read_duration)]. *)
Definition add_reading_history (c : conn) (article_id : Z) (action : string)
           (read_duration : option Z) : conn * Z :=
  let lastrowid := history_seq c + 1 in
  (mk_conn (feeds c) (feed_seq c) (arts c)
           (history c ++ [mk_reading lastrowid article_id action read_duration])
           lastrowid,
   lastrowid).

(** [get_read_article_ids(conn)]: [SELECT DISTINCT article_id ... WHERE
    action = 'read']. *)
Definition get_read_article_ids (c : conn) : list Z :=
  remove_dups
    (map h_article_id
         (List.filter (fun h => String.eqb (h_action h) "read") (history c))).

(** [get_stats(conn)], the dict it builds. *)
Definition get_stats (c : conn) : gmap string Z :=
  let active_feeds := Z.of_nat (length (List.filter f_active (feeds c))) in
  let total_feeds := Z.of_nat (length (feeds c)) in
  let total_articles := Z.of_nat (length (articles (arts c))) in
  let indexed_articles :=
    Z.of_nat (length (List.filter (fun a => negb (is_pending a))
                                  (articles (arts c)))) in
  let read_articles := Z.of_nat (length (get_read_article_ids c)) in
  <["unread_articles" := total_articles - read_articles]>
    (<["read_articles" := read_articles]>
       (<["indexed_articles" := indexed_articles]>
          (<["total_articles" := total_articles]>
             (<["total_feeds" := total_feeds]>
                (<["active_feeds" := active_feeds]> ∅))))).

(** A list of rows in the order of [ORDER BY pub_date DESC]: no row comes
    before a row with a later date, and no undated row before a dated
    one. *)
Definition newest_first (l : list article) : Prop :=
  forall (i j : nat) (a b : article),
    (i < j)%nat -> l !! i = Some a -> l !! j = Some b ->
    sql_ltb (pub_date a) (pub_date b) = false.

(** The constraints of the schema on [feeds]: [id] is a primary key handed
    out from the counter, [url] is UNIQUE; and those on the articles. *)
Definition well_formed (c : conn) : Prop :=
  NoDup (map f_id (feeds c)) /\
  NoDup (map f_url (feeds c)) /\
  Forall (fun f => 0 < f_id f <= feed_seq c) (feeds c) /\
  0 <= feed_seq c /\
  Database.well_formed (arts c).

(** What the declared foreign keys ask for: every article belongs to a
    stored feed, every history row to a stored article. *)
Definition references_ok (c : conn) : Prop :=
  Forall (fun a => is_Some (get_feed c (Database.feed_id a)))
         (articles (arts c)) /\
  Forall (fun h => is_Some (get_article c (h_article_id h))) (history c).

(** One feed with two articles, the first of them read twice. *)
Definition read_twice : conn :=
  let c1 := fst (add_feed init_db "https://example.com/feed" None) in
  let c2 := fst (add_article c1 1 "First" None "https://example.com/1" None) in
  let c3 := fst (add_article c2 1 "Second" None "https://example.com/2" None) in
  let c4 := fst (add_reading_history c3 1 "read" (Some 30)) in
  fst (add_reading_history c4 1 "read" None).

End Store.

(** ** feed_manager.py: storing what was fetched *)

Module FeedPipeline.
Import Database Store FeedManager.

Record FetchResult : Type := mk_FetchResult {
  fr_feed_url : string;
  fr_feed_title : option string;
  fr_articles_found : nat;
  fr_articles_new : nat;
  fr_error : option string;
}.

Section Pipeline.
Variable datetime_of_struct_time : list Z -> option Z.
Variable parse : string -> parsed_feed + string.

(** [str.strip()] of the standard library. *)
Variable strip : string -> string.

(** [parse_feeds_file(feeds_file)]: the file is its lines, or [None] when
    it does not exist. *)
Definition parse_feeds_file (feeds_file : option (list string)) : list string :=
  match feeds_file with
  | None => []
  | Some lines =>
      List.filter (fun line => PyStr.truthy line
                               && negb (PyStr.startswith line "#"))
                  (map strip lines)
  end.

(** The [for article in articles] loop of [fetch_and_store_feed]. *)
Fixpoint store_articles (c : conn) (feed_id : Z) (articles : list Article)
         (new_count : nat) : conn * nat :=
  match articles with
  | [] => (c, new_count)
  | article :: rest =>
      if article_exists c (a_link article)
      then store_articles c feed_id rest new_count
      else
        store_articles
          (fst (add_article c feed_id (a_title article) (a_content article)
                            (a_link article) (a_pub_date article)))
          feed_id rest (Datatypes.S new_count)
  end.

(** [fetch_and_store_feed(db_path, feed_url, max_articles)], with the value
    of [CURRENT_TIMESTAMP] at its end. *)
Definition fetch_and_store_feed (c : conn) (now : Z) (feed_url : string)
           (max_articles : Z) : conn * FetchResult :=
  let '(feed_title, articles, error) :=
    fetch_feed datetime_of_struct_time parse feed_url max_articles in
  if (PyStr.truthy_opt error
      && match articles with [] => true | _ => false end)%bool
  then (c, mk_FetchResult feed_url None 0 0 error)
  else
    let '(c1, feed_id) :=
      match get_feed_by_url c feed_url with
      | Some existing_feed =>
          (if (PyStr.truthy_opt feed_title
               && negb (PyStr.truthy_opt (f_title existing_feed)))%bool
           then update_feed_title c (f_id existing_feed) (default "" feed_title)
           else c,
           f_id existing_feed)
      | None => add_feed c feed_url feed_title
      end in
    let '(c2, new_count) := store_articles c1 feed_id articles 0 in
    (update_feed_last_fetched c2 feed_id now,
     mk_FetchResult feed_url feed_title (length articles) new_count error).

(** The loop [for url in urls] of [import_feeds_from_file]. *)
Fixpoint import_urls (c : conn) (urls : list string) (new_count : nat)
  : conn * nat :=
  match urls with
  | [] => (c, new_count)
  | url :: rest =>
      match get_feed_by_url c url with
      | Some _ => import_urls c rest new_count
      | None => import_urls (fst (add_feed c url None)) rest (Datatypes.S new_count)
      end
  end.

(** [import_feeds_from_file(db_path, feeds_file)]. *)
Definition import_feeds_from_file (c : conn) (feeds_file : option (list string))
  : conn * nat :=
  import_urls c (parse_feeds_file feeds_file) 0.

(** The loop [for feed in feeds] of [fetch_all_feeds], run to its end;
    [clock k] is the value of [CURRENT_TIMESTAMP] in its turn [k]. *)
Fixpoint fetch_each (c : conn) (clock : nat -> Z) (k : nat)
         (feeds : list feed) (max_articles : Z) : conn * list FetchResult :=
  match feeds with
  | [] => (c, [])
  | feed :: rest =>
      let '(c1, result) :=
        fetch_and_store_feed c (clock k) (f_url feed) max_articles in
      let '(c2, results) := fetch_each c1 clock (Datatypes.S k) rest max_articles in
      (c2, result :: results)
  end.

(** [fetch_all_feeds(db_path, feeds_file, max_articles_per_feed)], consumed
    to its end: [feeds_file] is [None] when no path is given. *)
Definition fetch_all_feeds (c : conn) (clock : nat -> Z)
           (feeds_file : option (option (list string))) (max_articles : Z)
  : conn * list FetchResult :=
  let c1 :=
    match feeds_file with
    | Some file => fst (import_urls c (parse_feeds_file file) 0)
    | None => c
    end in
  fetch_each c1 clock 0 (get_all_feeds c1 true) max_articles.

End Pipeline.

(** The feed under which [fetch_and_store_feed] files the articles, and the
    store it files them in: the existing feed, with its title filled in if
    it had none, or a new one. *)
Definition resolve_feed (c : conn) (feed_url : string)
           (feed_title : option string) : conn * Z :=
  match get_feed_by_url c feed_url with
  | Some existing_feed =>
      (if (PyStr.truthy_opt feed_title
           && negb (PyStr.truthy_opt (f_title existing_feed)))%bool
       then update_feed_title c (f_id existing_feed) (default "" feed_title)
       else c,
       f_id existing_feed)
  | None => add_feed c feed_url feed_title
  end.

(** A row that [import_urls] adds: a feed of a url of the file that was not
    stored, without title, never fetched, active. *)
Definition imported (c : conn) (urls : list string) (f : feed) : Prop :=
  In (f_url f) urls /\ get_feed_by_url c (f_url f) = None /\
  f_title f = None /\ f_last_fetched f = None /\ f_active f = true.

(** What a fetch never changes of a feed row: its id, its url and whether
    it is active. *)
Definition feed_identity (f : feed) : Z * string * bool :=
  (f_id f, f_url f, f_active f).

End FeedPipeline.

(** ** Runs of the ingestion loop *)

Module Runs.
Import Database.

(** The rows still to be processed are stored, unmarked, under distinct
    ids. *)
Definition rows_ahead (rows : list article) (conn : db) : Prop :=
  NoDup (map id rows) /\
  NoDup (map id (articles conn)) /\
  Forall (fun a => In a (articles conn) /\ lightrag_id a = None) rows.

(** The number of successes among the results of a run. *)
Definition successes (res : list Ingestion.IngestionResult) : nat :=
  length (List.filter Ingestion.r_success res).

(** An article has a successful result among [res]. *)
Definition succeeded (res : list Ingestion.IngestionResult) (a : article) : bool :=
  existsb (fun r => Ingestion.r_success r && (Ingestion.r_article_id r =? id a))
          res.

End Runs.

(** ** cli.py: the [ingest] command *)

Module Cli.

(** [to_process = min(limit, pending) if limit else pending]. *)
Definition to_process (limit : option Z) (pending : Z) : Z :=
  match limit with
  | None => pending
  | Some n => if n =? 0 then pending else Z.min n pending
  end.

End Cli.

(** ** The breakdown of a summary *)

Module Breakdown.
Import CostTracker.

(** The calls of a list whose operation, or model, is [k]. *)
Definition calls_with (key : APICall -> string) (k : string)
           (l : list APICall) : list APICall :=
  List.filter (fun c => String.eqb (key c) k) l.

(** The cost of these calls, added up in list order from [0.0]; no entry
    when there is no such call. *)
Definition share (key : APICall -> string) (k : string) (l : list APICall)
  : option float :=
  match calls_with key k l with
  | [] => None
  | l' => Some (float_sum (map cost_usd l'))
  end.

(** The loop over the calls, for one of the two dicts. *)
Definition add_each (key : APICall -> string) (l : list APICall)
           (d : gmap string float) : gmap string float :=
  fold_left (fun d c => dict_add d (key c) (cost_usd c)) l d.

End Breakdown.

(** ** cli.py: the [mark-read] command *)

Module Reading.
Import Database Store.

Definition valid_actions : list string :=
  ["opened"; "read"; "starred"; "dismissed"].

(** [mark_read(article_id, action)] on an initialised database: the store
    afterwards, and [false] where the command ends with [typer.Exit(1)]. *)
Definition mark_read (c : conn) (article_id : Z) (action : string)
  : conn * bool :=
  if negb (existsb (String.eqb action) valid_actions) then (c, false)
  else
    match get_article c article_id with
    | None => (c, false)
    | Some _ => (fst (add_reading_history c article_id action None), true)
    end.

End Reading.

(** * Properties *)

(** ** The retry wrappers *)

Section ErrorsFacts.
Import Errors.
Context {S V : Type}.
Variable func : S -> S * (V + string).



(** A loop that still has its last attempt ahead never falls through:
    it ends in a [return], or in the [raise] of the [except] block with
    the text of the exception of the invocation it made last. *)
Lemma wrapper_loop_ends_inside (k : nat) :
  forall a s n slept,
    (a + Datatypes.S k = max_retries)%nat ->
    let r := wrapper_loop func (seq a (Datatypes.S k)) s n slept in
    match result r with
    | Returned v => exists s_last, func s_last = (final r, inl v)
    | RaisedLLMError site msg =>
        site = InLoop /\ exists s_last, func s_last = (final r, inr msg)
    end.
Proof.
  induction k as [|k IH]; intros a s n slept Ha.
  - (* the last attempt: [attempt < max_retries - 1] is false *)
    assert ((a <? max_retries - 1)%nat = false) as Hlast
        by (apply Nat.ltb_ge; unfold max_retries in *; lia).
    cbn [seq wrapper_loop]. rewrite Hlast.
    destruct (func s) as [s' [v|e]] eqn:Hf.
    + cbn. eauto.
    + rewrite andb_false_r. cbn. eauto.
  - change (seq a (Datatypes.S (Datatypes.S k)))
      with (a :: seq (Datatypes.S a) (Datatypes.S k)).
    cbn [wrapper_loop].
    destruct (func s) as [s' [v|e]] eqn:Hf.
    + cbn. eauto.
    + destruct (is_retryable e && _)%bool.
      * apply IH. lia.
      * cbn. eauto.
Qed.


End ErrorsFacts.



(** C10.  In both retry wrappers the [raise] that follows the loop
    ("Max retries exceeded") is never executed: every call ends with the
    value returned by the callable or with the [LLMError] raised inside the
    loop, whose text is that of the exception raised by the last
    invocation. *)
Theorem max_retries_raise_unreachable {S V : Type}
        (func : S -> S * (V + string)) (s : S) :
  Errors.ends_inside_loop func (Errors.handle_api_error func s) /\
  Errors.ends_inside_loop func (Errors.handle_api_error_async func s) /\
  (forall msg, Errors.result (Errors.handle_api_error func s)
               <> Errors.RaisedLLMError Errors.AfterLoop msg) /\
  (forall msg, Errors.result (Errors.handle_api_error_async func s)
               <> Errors.RaisedLLMError Errors.AfterLoop msg).
Proof.
  assert (Errors.ends_inside_loop func (Errors.handle_api_error func s)) as H.
  { unfold Errors.ends_inside_loop, Errors.handle_api_error.
    apply (wrapper_loop_ends_inside func 2 0 s 0%nat []). reflexivity. }
  change (Errors.handle_api_error_async func s)
    with (Errors.handle_api_error func s).
  assert (forall msg, Errors.result (Errors.handle_api_error func s)
                      <> Errors.RaisedLLMError Errors.AfterLoop msg) as H'.
  { intros msg Hr. unfold Errors.ends_inside_loop in H. rewrite Hr in H.
    destruct H as [? _]. discriminate. }
  auto.
Qed.


(** ** The article store *)

Section DatabaseFacts.
Import Database.

Lemma article_exists_true (conn : db) (l : string) :
  article_exists conn l = true <-> In l (map link (articles conn)).
Proof.
  unfold article_exists. rewrite existsb_exists, in_map_iff. split.
  - intros (a & Ha & He). apply String.eqb_eq in He. eauto.
  - intros (a & He & Ha). exists a. split; [exact Ha|]. now apply String.eqb_eq.
Qed.

Lemma article_exists_false (conn : db) (l : string) :
  article_exists conn l = false <-> ~ In l (map link (articles conn)).
Proof.
  rewrite <- article_exists_true.
  destruct (article_exists conn l); split; intros H.
  - discriminate.
  - exfalso. now apply H.
  - intros ?. discriminate.
  - reflexivity.
Qed.

Lemma with_link_absent (l : string) (rows : list article) :
  ~ In l (map link rows) -> with_link l rows = [].
Proof.
  induction rows as [|a rows IH]; intros Hn; cbn; [reflexivity|].
  destruct (String.eqb_spec (link a) l) as [He|He].
  - exfalso. apply Hn. left. exact He.
  - apply IH. intros Hin. apply Hn. right. exact Hin.
Qed.

Lemma add_article_duplicate (conn : db) f t c l p :
  article_exists conn l = true -> add_article conn f t c l p = (conn, None).
Proof. intros H. unfold add_article. now rewrite H. Qed.

Lemma add_article_fresh (conn : db) f t c l p :
  article_exists conn l = false ->
  add_article conn f t c l p
  = (mk_db (articles conn ++ [mk_article (article_seq conn + 1) f t c l p None])
           (article_seq conn + 1),
     Some (article_seq conn + 1)).
Proof. intros H. unfold add_article. now rewrite H. Qed.

Lemma add_article_exists_after (conn : db) f t c l p :
  article_exists (fst (add_article conn f t c l p)) l = true.
Proof.
  unfold add_article. destruct (article_exists conn l) eqn:He; cbn [fst].
  - exact He.
  - apply article_exists_true. cbn. rewrite map_app. apply in_or_app.
    right. now left.
Qed.

Lemma well_formed_init : well_formed init_db.
Proof. repeat split; cbn; try constructor; lia. Qed.

Lemma add_article_well_formed (conn : db) f t c l p :
  well_formed conn -> well_formed (fst (add_article conn f t c l p)).
Proof.
  intros (Hid & Hlk & Hrg & Hsq). unfold add_article.
  destruct (article_exists conn l) eqn:He; cbn [fst]; [repeat split; assumption|].
  apply article_exists_false in He.
  repeat split; cbn [articles article_seq].
  - rewrite map_app. cbn. apply NoDup_app. repeat split.
    + exact Hid.
    + intros x Hx Hx'. apply list_elem_of_In in Hx.
      apply list_elem_of_singleton in Hx'. subst x.
      apply in_map_iff in Hx as (a & Ha & Hin).
      rewrite Forall_forall in Hrg.
      apply list_elem_of_In in Hin. specialize (Hrg a Hin). lia.
    + apply NoDup_singleton.
  - rewrite map_app. cbn. apply NoDup_app. repeat split.
    + exact Hlk.
    + intros x Hx Hx'. apply list_elem_of_In in Hx.
      apply list_elem_of_singleton in Hx'. subst x. contradiction.
    + apply NoDup_singleton.
  - apply Forall_app. split.
    + eapply Forall_impl; [exact Hrg|]. cbn. intros a Ha. lia.
    + constructor; [cbn; lia|constructor].
  - lia.
Qed.

Lemma update_ids (conn : db) i v :
  map id (articles (update_article_lightrag_id conn i v)) = map id (articles conn).
Proof.
  cbn. rewrite map_map. apply map_ext. intros a. now destruct (id a =? i).
Qed.

Lemma update_links (conn : db) i v :
  map link (articles (update_article_lightrag_id conn i v))
  = map link (articles conn).
Proof.
  cbn. rewrite map_map. apply map_ext. intros a. now destruct (id a =? i).
Qed.

Lemma update_well_formed (conn : db) i v :
  well_formed conn -> well_formed (update_article_lightrag_id conn i v).
Proof.
  intros (Hid & Hlk & Hrg & Hsq). unfold well_formed.
  rewrite update_ids, update_links. repeat split; try assumption.
  cbn. apply Forall_map. eapply Forall_impl; [exact Hrg|].
  intros a Ha. now destruct (id a =? i).
Qed.

Lemma NoDup_map_filter {A B} (f : A -> B) (p : A -> bool) (l : list A) :
  NoDup (map f l) -> NoDup (map f (List.filter p l)).
Proof.
  induction l as [|a l IH]; cbn; intros H; [constructor|].
  apply NoDup_cons in H as [Hn H].
  destruct (p a); cbn; [|auto].
  apply NoDup_cons. split; [|auto].
  intros Hin. apply Hn. apply list_elem_of_In in Hin.
  apply list_elem_of_In.
  apply in_map_iff in Hin as (x & Hx & Hin). apply filter_In in Hin as [Hin _].
  apply in_map_iff. eauto.
Qed.

Lemma delete_feed_well_formed (conn : db) fid :
  well_formed conn -> well_formed (delete_feed conn fid).
Proof.
  intros (Hid & Hlk & Hrg & Hsq). repeat split; cbn.
  - now apply NoDup_map_filter.
  - now apply NoDup_map_filter.
  - rewrite Forall_forall in *. intros a Ha. apply Hrg.
    apply list_elem_of_In in Ha. apply filter_In in Ha as [Ha _].
    now apply list_elem_of_In.
  - exact Hsq.
Qed.

Lemma exec_well_formed (conn : db) (o : op) :
  well_formed conn -> well_formed (exec conn o).
Proof.
  destruct o; cbn [exec].
  - apply add_article_well_formed.
  - apply update_well_formed.
  - apply delete_feed_well_formed.
Qed.

Lemma with_link_unique (l : string) (rows : list article) :
  NoDup (map link rows) -> In l (map link rows) ->
  length (with_link l rows) = 1%nat.
Proof.
  induction rows as [|a rows IH]; cbn; intros Hnd Hin; [contradiction|].
  apply NoDup_cons in Hnd as [Hn Hnd].
  destruct (String.eqb_spec (link a) l) as [He|He].
  - cbn. f_equal. change (length (with_link l rows) = 0%nat).
    rewrite with_link_absent; [reflexivity|].
    intros H. apply Hn. apply list_elem_of_In. now rewrite He.
  - destruct Hin as [Hin|Hin]; [contradiction|]. now apply IH.
Qed.

Lemma pending_split (rows : list article) :
  (length (List.filter is_pending rows)
   + length (List.filter (fun a => negb (is_pending a)) rows)
   = length rows)%nat.
Proof.
  induction rows as [|a rows IH]; cbn; [reflexivity|].
  destruct (is_pending a); cbn; lia.
Qed.

Lemma get_article_In (conn : db) i a :
  get_article conn i = Some a -> In a (articles conn) /\ id a = i.
Proof.
  unfold get_article. intros H. apply find_some in H as [Hin He].
  split; [exact Hin|]. now apply Z.eqb_eq.
Qed.

Lemma get_article_update_same (conn : db) i v a :
  get_article conn i = Some a ->
  get_article (update_article_lightrag_id conn i v) i
  = Some (set_lightrag_id (Some v) a).
Proof.
  unfold get_article. cbn. induction (articles conn) as [|b rows IH]; cbn;
    [discriminate|].
  destruct (id b =? i) eqn:Hb; cbn.
  - rewrite Hb. now intros [= ->].
  - rewrite Hb. exact IH.
Qed.

Lemma get_article_update_other (conn : db) i j v :
  j <> i ->
  get_article (update_article_lightrag_id conn i v) j = get_article conn j.
Proof.
  intros Hne. unfold get_article. cbn.
  induction (articles conn) as [|b rows IH]; cbn; [reflexivity|].
  destruct (id b =? i) eqn:Hb; cbn.
  - apply Z.eqb_eq in Hb.
    assert ((id b =? j) = false) as -> by (apply Z.eqb_neq; congruence).
    exact IH.
  - destruct (id b =? j); [reflexivity | exact IH].
Qed.

Lemma marked_at_exec (i : Z) (conn : db) (o : op) :
  marked_at i conn -> marked_at i (exec conn o).
Proof.
  intros [Hle Hall]. destruct o as [f t c l p|j v|f]; cbn [exec].
  - unfold add_article. destruct (article_exists conn l); cbn [fst];
      [split; assumption|].
    split; cbn; [lia|]. apply Forall_app. split; [exact Hall|].
    constructor; [|constructor]. cbn. intros. lia.
  - split; [exact Hle|]. cbn. apply Forall_map.
    eapply Forall_impl; [exact Hall|]. intros a Ha.
    destruct (id a =? j); cbn; eauto.
  - split; [exact Hle|]. cbn. rewrite Forall_forall in *. intros a Ha.
    apply Hall. apply list_elem_of_In in Ha. apply filter_In in Ha as [Ha _].
    now apply list_elem_of_In.
Qed.

Lemma marked_at_exec_all (i : Z) (os : list op) :
  forall conn, marked_at i conn -> marked_at i (exec_all conn os).
Proof.
  induction os as [|o os IH]; intros conn H; cbn; [exact H|].
  apply IH. now apply marked_at_exec.
Qed.

Lemma NoDup_map_In_eq {A B} (f : A -> B) (l : list A) (a b : A) :
  NoDup (map f l) -> In a l -> In b l -> f a = f b -> a = b.
Proof.
  induction l as [|c l IH]; cbn; intros Hnd Ha Hb He; [contradiction|].
  apply NoDup_cons in Hnd as [Hn Hnd].
  destruct Ha as [->|Ha]; destruct Hb as [->|Hb]; auto.
  - exfalso. apply Hn. apply list_elem_of_In. rewrite He. now apply in_map.
  - exfalso. apply Hn. apply list_elem_of_In. rewrite <- He. now apply in_map.
Qed.

Lemma marked_at_of_get (conn : db) i a :
  well_formed conn -> get_article conn i = Some a -> is_Some (lightrag_id a) ->
  marked_at i conn.
Proof.
  intros (Hid & _ & Hrg & _) Hg Hs. apply get_article_In in Hg as [Hin He].
  rewrite Forall_forall in Hrg. split.
  - specialize (Hrg a). rewrite list_elem_of_In in Hrg. specialize (Hrg Hin). lia.
  - rewrite Forall_forall. intros b Hb Hbi. apply list_elem_of_In in Hb.
    rewrite (NoDup_map_In_eq id _ b a Hid Hb Hin); [exact Hs | congruence].
Qed.

End DatabaseFacts.

(** C5.  [add_article] is a dedup gate keyed on the link: on a store that
    already holds the link it returns [None] and leaves the store as it is;
    so after a first insertion of a link, a second insertion of the same
    link (whatever the other fields) returns [None], creates no row, and
    exactly one stored item carries the link. *)
Theorem add_article_dedup (conn : Database.db) (f : Z) (t : string)
        (c : option string) (l : string) (p : option Z)
        (f' : Z) (t' : string) (c' : option string) (p' : option Z) :
  Database.well_formed conn ->
  (Database.article_exists conn l = true ->
   Database.add_article conn f t c l p = (conn, None)) /\
  let conn1 := fst (Database.add_article conn f t c l p) in
  Database.add_article conn1 f' t' c' l p' = (conn1, None) /\
  length (Database.with_link l (Database.articles conn1)) = 1%nat /\
  length (Database.with_link l
            (Database.articles (fst (Database.add_article conn1 f' t' c' l p'))))
  = 1%nat.
Proof.
  intros Hwf. split; [apply add_article_duplicate|].
  intros conn1.
  assert (Database.add_article conn1 f' t' c' l p' = (conn1, None)) as H2
      by apply add_article_duplicate, add_article_exists_after.
  assert (length (Database.with_link l (Database.articles conn1)) = 1%nat) as H1.
  { apply with_link_unique.
    - apply (add_article_well_formed conn f t c l p Hwf).
    - apply article_exists_true, add_article_exists_after. }
  rewrite H2. auto.
Qed.

(** C5 on the empty store: the same link inserted twice. *)
Lemma add_article_dedup_witness :
  Database.add_article Database.one_article 2 "Other title" None
                       "https://example.com/article1" (Some 5)
  = (Database.one_article, None) /\
  length (Database.with_link "https://example.com/article1"
            (Database.articles Database.one_article)) = 1%nat.
Proof.
  destruct (add_article_dedup Database.init_db 1 "Test Article"
              (Some "Test content") "https://example.com/article1" None
              2 "Other title" None (Some 5) well_formed_init)
    as (_ & H2 & H1 & _).
  split; [exact H2 | exact H1].
Defined.

(** C9.  In every store the pending count plus the ingested count is the
    number of stored articles: [get_pending_count] counts the rows whose
    identifier is NULL, [get_ingested_count] those whose identifier is not,
    each row falls in exactly one of the two, and this holds again after
    any sequence of store operations. *)
Theorem pending_ingested_partition (conn : Database.db) :
  (Ingestion.get_pending_count conn + Ingestion.get_ingested_count conn
   = Database.total_articles conn)%nat /\
  Ingestion.get_pending_count conn
  = length (List.filter (fun a => bool_decide (Database.lightrag_id a = None))
                        (Database.articles conn)) /\
  Ingestion.get_ingested_count conn
  = length (List.filter (fun a => bool_decide (is_Some (Database.lightrag_id a)))
                        (Database.articles conn)) /\
  Forall (fun a => xorb (bool_decide (Database.lightrag_id a = None))
                        (bool_decide (is_Some (Database.lightrag_id a))) = true)
         (Database.articles conn) /\
  (forall os : list Database.op,
      (Ingestion.get_pending_count (Database.exec_all conn os)
       + Ingestion.get_ingested_count (Database.exec_all conn os)
       = Database.total_articles (Database.exec_all conn os))%nat).
Proof.
  split; [apply pending_split|].
  split; [|split; [|split]].
  - unfold Ingestion.get_pending_count. f_equal. apply filter_ext.
    intros a. unfold Database.is_pending.
    now destruct (Database.lightrag_id a).
  - unfold Ingestion.get_ingested_count. f_equal. apply filter_ext.
    intros a. unfold Database.is_pending.
    now destruct (Database.lightrag_id a).
  - apply Forall_forall. intros a _. now destruct (Database.lightrag_id a).
  - intros os. apply pending_split.
Qed.

(** C1 (as amended).  [update_article_lightrag_id] overwrites: whatever the
    addressed article held, it holds the given identifier afterwards, and
    the other articles are as before.  No operation of the store sets an
    identifier back to NULL: an article that holds an identifier holds one
    after any sequence of [add_article], [update_article_lightrag_id] and
    [delete_feed], for as long as it is stored. *)
Theorem mark_submitted_overwrites (conn : Database.db) (i : Z) (v : string) :
  Database.well_formed conn ->
  (forall a, Database.get_article conn i = Some a ->
             Database.get_article (Database.update_article_lightrag_id conn i v) i
             = Some (Database.set_lightrag_id (Some v) a)) /\
  (forall j, j <> i ->
             Database.get_article (Database.update_article_lightrag_id conn i v) j
             = Database.get_article conn j) /\
  (forall os a a',
      Database.get_article conn i = Some a ->
      is_Some (Database.lightrag_id a) ->
      Database.get_article (Database.exec_all conn os) i = Some a' ->
      is_Some (Database.lightrag_id a')).
Proof.
  intros Hwf. split; [|split].
  - intros a. apply get_article_update_same.
  - intros j. apply get_article_update_other.
  - intros os a a' Hg Hs Hg'.
    pose proof (marked_at_exec_all i os conn (marked_at_of_get conn i a Hwf Hg Hs))
      as [_ Hall].
    apply get_article_In in Hg' as [Hin He].
    rewrite Forall_forall in Hall. apply (Hall a'); [|exact He].
    now apply list_elem_of_In.
Qed.

(** C1 on the one-article store: the second mark replaces the first, and a
    later deletion and insertion leave the identifier in place. *)
Lemma mark_submitted_overwrites_witness :
  Database.lightrag_id
    <$> Database.get_article
          (Database.update_article_lightrag_id Database.one_marked 1 "lightrag-456") 1
  = Some (Some "lightrag-456") /\
  forall a',
    Database.get_article
      (Database.exec_all Database.one_marked
         [Database.DeleteFeed 7;
          Database.AddArticle 1 "Second" None "https://example.com/article2" None]) 1
    = Some a' ->
    is_Some (Database.lightrag_id a').
Proof.
  assert (Database.well_formed Database.one_marked) as Hwf
      by (apply update_well_formed, add_article_well_formed, well_formed_init).
  destruct (mark_submitted_overwrites Database.one_marked 1 "lightrag-456" Hwf)
    as (Hsame & _ & Hkeep).
  split.
  - erewrite Hsame; reflexivity.
  - intros a'. eapply Hkeep; [reflexivity | eexists; reflexivity].
Defined.

(** C1 as stated fails: marking an article that already holds
    ["lightrag-123"] with a different identifier replaces the stored one,
    silently. *)
Lemma mark_submitted_not_write_once :
  ~ Database.spec_write_once Database.one_marked 1 "lightrag-456".
Proof.
  intros H.
  specialize (H (Database.mk_article 1 1 "Test Article" (Some "Test content")
                   "https://example.com/article1" None (Some "lightrag-123"))
                "lightrag-123" eq_refl eq_refl).
  discriminate H.
Qed.

(** ** Entry normalisation and [fetch_feed] *)

Section FeedManagerFacts.
Import FeedManager.

Lemma first_content_none (items : list content_item) :
  Forall (fun x => qualifies x = false) items -> first_content items = None.
Proof.
  induction 1 as [|x items Hx _ IH]; cbn; [reflexivity|]. now rewrite Hx.
Qed.

Lemma first_content_first (pre post : list content_item) (c : content_item) :
  Forall (fun x => qualifies x = false) pre -> qualifies c = true ->
  first_content (pre ++ c :: post) = Some (cvalue c).
Proof.
  induction 1 as [|x pre Hx _ IH]; cbn; intros Hc.
  - now rewrite Hc.
  - rewrite Hx. now apply IH.
Qed.

(** Where every item picked by the loop has a non-empty value, the loop
    returns the first non-empty value. *)
Lemma first_content_nonempty (items : list content_item) :
  Forall (fun x => qualifies x = true -> PyStr.truthy_opt (cvalue x) = true) items ->
  match first_content items with
  | Some r => r
  | None => None
  end
  = head (omap (fun c => nonempty (cvalue c)) items).
Proof.
  induction 1 as [|x items Hx _ IH]; cbn; [reflexivity|].
  destruct (qualifies x) eqn:Hq.
  - specialize (Hx eq_refl). destruct (cvalue x) as [v|]; [|discriminate].
    cbn in *. now rewrite Hx.
  - unfold qualifies in Hq. apply orb_false_elim in Hq as [_ Hq].
    destruct (cvalue x) as [v|]; cbn in *; [rewrite Hq|]; exact IH.
Qed.

Lemma first_content_some_nonempty (items : list content_item) :
  Forall (fun x => qualifies x = true -> PyStr.truthy_opt (cvalue x) = true) items ->
  forall r, first_content items = Some r -> exists v, r = Some v /\ nonempty r = Some v.
Proof.
  induction 1 as [|x items Hx _ IH]; cbn; intros r Hr; [discriminate|].
  destruct (qualifies x) eqn:Hq; [|now apply IH].
  injection Hr as <-. specialize (Hx eq_refl).
  destruct (cvalue x) as [v|]; [|discriminate]. cbn in *. rewrite Hx. eauto.
Qed.

End FeedManagerFacts.

(** C8 (as amended).  [extract_content] prefers content over summary over
    description by presence: it returns the value of the first content item
    that is typed [text/html] or has a non-empty value, as it is (empty or
    missing included); failing such an item it returns the summary whenever
    the key is there, else the description whenever that key is there, else
    [None].  Where no candidate it can pick is empty, this is "first
    non-empty wins". *)
Theorem extract_content_by_presence (e : FeedManager.entry) :
  (forall pre c post,
      FeedManager.e_content e = Some (pre ++ c :: post) ->
      Forall (fun x => FeedManager.qualifies x = false) pre ->
      FeedManager.qualifies c = true ->
      FeedManager.extract_content e = FeedManager.cvalue c) /\
  ((forall items, FeedManager.e_content e = Some items ->
                  Forall (fun x => FeedManager.qualifies x = false) items) ->
   FeedManager.extract_content e
   = match FeedManager.e_summary e with
     | Some s => Some s
     | None => FeedManager.e_description e
     end) /\
  ((forall items, FeedManager.e_content e = Some items ->
                  Forall (fun x => FeedManager.qualifies x = true ->
                                   PyStr.truthy_opt (FeedManager.cvalue x) = true)
                         items) ->
   FeedManager.e_summary e <> Some "" ->
   (FeedManager.e_summary e = None -> FeedManager.e_description e <> Some "") ->
   FeedManager.extract_content e = FeedManager.spec_extract_content e).
Proof.
  unfold FeedManager.extract_content, FeedManager.spec_extract_content,
    FeedManager.spec_content_value.
  split; [|split].
  - intros pre c post Hc Hpre Hq. rewrite Hc.
    pose proof (first_content_first pre post c Hpre Hq) as Hf.
    destruct (pre ++ c :: post) as [|x xs] eqn:Hl.
    + now destruct pre.
    + now rewrite Hf.
  - intros Hnone. destruct (FeedManager.e_content e) as [[|x xs]|] eqn:Hc.
    + now destruct (FeedManager.e_summary e), (FeedManager.e_description e).
    + rewrite (first_content_none _ (Hnone _ eq_refl)).
      now destruct (FeedManager.e_summary e), (FeedManager.e_description e).
    + now destruct (FeedManager.e_summary e), (FeedManager.e_description e).
  - intros Hitems Hsum Hdesc.
    assert (match FeedManager.e_summary e with
            | Some s => Some s
            | None => match FeedManager.e_description e with
                      | Some d => Some d
                      | None => None
                      end
            end
            = match FeedManager.nonempty (FeedManager.e_summary e) with
              | Some s => Some s
              | None => FeedManager.nonempty (FeedManager.e_description e)
              end) as Hafter.
    { destruct (FeedManager.e_summary e) as [[|ch s]|]; cbn.
      - congruence.
      - reflexivity.
      - destruct (FeedManager.e_description e) as [[|ch d]|]; cbn; try reflexivity.
        now specialize (Hdesc eq_refl). }
    destruct (FeedManager.e_content e) as [[|x xs]|] eqn:Hc.
    + exact Hafter.
    + specialize (Hitems _ eq_refl).
      pose proof (first_content_nonempty _ Hitems) as Hhead.
      destruct (FeedManager.first_content (x :: xs)) as [r|] eqn:Hf.
      * destruct (first_content_some_nonempty _ Hitems r Hf) as (v & -> & Hv).
        now rewrite <- Hhead.
      * rewrite <- Hhead. exact Hafter.
    + exact Hafter.
Qed.

(** C8 (as amended) on three entries: an item typed as HTML with an empty
    value is returned as it is; an empty summary is returned although a
    description follows; an entry with a summary only agrees with "first
    non-empty wins". *)
Lemma extract_content_by_presence_witness :
  FeedManager.extract_content FeedManager.empty_html_entry = Some "" /\
  FeedManager.extract_content FeedManager.empty_summary_entry = Some "" /\
  FeedManager.extract_content FeedManager.entry1
  = FeedManager.spec_extract_content FeedManager.entry1.
Proof.
  split; [|split].
  - destruct (extract_content_by_presence FeedManager.empty_html_entry)
      as (H & _ & _).
    apply (H [] (FeedManager.mk_content_item (Some "text/html") (Some "")) []);
      [reflexivity | constructor | reflexivity].
  - destruct (extract_content_by_presence FeedManager.empty_summary_entry)
      as (_ & H & _).
    apply H. intros items Hc. discriminate Hc.
  - destruct (extract_content_by_presence FeedManager.entry1) as (_ & _ & H).
    apply H; [intros items Hc; discriminate Hc | discriminate | discriminate].
Defined.

(** C8 as stated fails: an empty HTML content item wins over a non-empty
    summary, and an empty summary wins over a non-empty description. *)
Lemma extract_content_not_first_nonempty :
  FeedManager.extract_content FeedManager.empty_html_entry
  <> FeedManager.spec_extract_content FeedManager.empty_html_entry /\
  FeedManager.extract_content FeedManager.empty_summary_entry
  <> FeedManager.spec_extract_content FeedManager.empty_summary_entry.
Proof. split; discriminate. Qed.

(** C2 (what the code does).  For a feed whose parse reports an issue
    ([bozo] set, with an exception) and that still has entries,
    [fetch_feed] returns the articles of the entries with the error
    component [None]: the warning is logged and dropped. *)
Theorem fetch_feed_drops_parse_warning
        (datetime_of_struct_time : list Z -> option Z)
        (parse : string -> FeedManager.parsed_feed + string)
        (feed_url : string) (max_articles : Z)
        (feed : FeedManager.parsed_feed) (error_msg : string)
        (e : FeedManager.entry) (es : list FeedManager.entry) :
  parse feed_url = inl feed ->
  FeedManager.bozo feed = true ->
  FeedManager.bozo_exception feed = Some error_msg ->
  FeedManager.entries feed = e :: es ->
  FeedManager.fetch_feed datetime_of_struct_time parse feed_url max_articles
  = (FeedManager.feed_title feed,
     FeedManager.collect_articles datetime_of_struct_time feed_url
       (FeedManager.py_slice_to (FeedManager.entries feed) max_articles),
     None).
Proof.
  intros Hp Hb He Hes. unfold FeedManager.fetch_feed.
  rewrite Hp, Hb, He, Hes. reflexivity.
Qed.

(** C2 on a feed with a parse warning and two valid entries: both articles
    come back, and the error is [None]. *)
Lemma fetch_feed_drops_parse_warning_witness :
  FeedManager.fetch_feed (fun _ => None) (fun _ => inl FeedManager.bozo_feed)
                         "https://example.com/feed" 50
  = (Some "Test Feed",
     [FeedManager.mk_Article "Article 1" (Some "Content 1")
        "https://example.com/article1" None "https://example.com/feed";
      FeedManager.mk_Article "Article 2" (Some "Content 2")
        "https://example.com/article2" None "https://example.com/feed"],
     None).
Proof.
  apply (fetch_feed_drops_parse_warning (fun _ => None)
           (fun _ => inl FeedManager.bozo_feed) "https://example.com/feed" 50
           FeedManager.bozo_feed "Parse warning"
           FeedManager.entry1 [FeedManager.entry2]);
    reflexivity.
Defined.

(** ** Submission to the engine *)

Section SelectFacts.
Import Database.

Lemma insert_desc_perm (a : article) (l : list article) :
  insert_desc a l ≡ₚ a :: l.
Proof.
  induction l as [|b l IH]; cbn; [reflexivity|].
  destruct (sql_ltb (pub_date a) (pub_date b)); [|reflexivity].
  rewrite IH. apply Permutation_swap.
Qed.

Lemma order_by_pub_date_desc_perm (l : list article) :
  order_by_pub_date_desc l ≡ₚ l.
Proof.
  induction l as [|a l IH]; cbn; [reflexivity|].
  rewrite insert_desc_perm. now rewrite IH.
Qed.

Lemma sql_limit_sublist (n : Z) (l : list article) : sublist (sql_limit n l) l.
Proof.
  unfold sql_limit. destruct (n <? 0); [reflexivity | apply sublist_take].
Qed.

Lemma select_pending_sublist (conn : db) (limit : option Z) :
  sublist (Ingestion.select_pending conn limit)
          (order_by_pub_date_desc (List.filter is_pending (articles conn))).
Proof.
  unfold Ingestion.select_pending. destruct limit as [n|]; [|reflexivity].
  destruct (n =? 0); [reflexivity | apply sql_limit_sublist].
Qed.

Lemma select_pending_In (conn : db) (limit : option Z) (a : article) :
  In a (Ingestion.select_pending conn limit) ->
  In a (articles conn) /\ lightrag_id a = None.
Proof.
  intros H. apply list_elem_of_In in H.
  apply (sublist_subseteq _ _ (select_pending_sublist conn limit)) in H.
  rewrite order_by_pub_date_desc_perm in H.
  apply list_elem_of_In, filter_In in H as [Hin Hp]. split; [exact Hin|].
  unfold is_pending in Hp. now destruct (lightrag_id a).
Qed.

Lemma select_pending_NoDup (conn : db) (limit : option Z) :
  well_formed conn -> NoDup (map id (Ingestion.select_pending conn limit)).
Proof.
  intros (Hid & _).
  apply (sublist_NoDup _ (id <$> order_by_pub_date_desc
                                   (List.filter is_pending (articles conn)))).
  - rewrite order_by_pub_date_desc_perm. now apply NoDup_map_filter.
  - apply fmap_sublist, select_pending_sublist.
Qed.

Lemma get_article_of_In (conn : db) (a : article) :
  NoDup (map id (articles conn)) -> In a (articles conn) ->
  get_article conn (id a) = Some a.
Proof.
  unfold get_article. intros Hnd Hin.
  destruct (find (fun b => id b =? id a) (articles conn)) as [b|] eqn:Hf.
  - apply find_some in Hf as [Hb He]. apply Z.eqb_eq in He.
    f_equal. now apply (NoDup_map_In_eq id (articles conn)).
  - eapply find_none in Hf; [|exact Hin]. cbn in Hf. now rewrite Z.eqb_refl in Hf.
Qed.

End SelectFacts.

Section IngestionFacts.
Import Database Ingestion.
Context {E : Type}.
Variable md5_hexdigest : string -> string.
Variable ainsert : E -> string -> list string -> list string -> E * option string.
Hypothesis digest_nonempty : forall l, md5_hexdigest l <> "".

Local Abbreviation gen_next := (Ingestion.gen_next md5_hexdigest ainsert).
Local Abbreviation gen_advance := (Ingestion.gen_advance md5_hexdigest ainsert).
Local Abbreviation gen_drain := (Ingestion.gen_drain md5_hexdigest ainsert).
Local Abbreviation result_for := (Ingestion.result_for md5_hexdigest).

Lemma digest_truthy (l : string) : PyStr.truthy (md5_hexdigest l) = true.
Proof.
  pose proof (digest_nonempty l) as H.
  destruct (md5_hexdigest l); [contradiction | reflexivity].
Qed.

(** One turn of the loop: the row at the head is submitted, its result is
    yielded, and the store is written exactly when the result is a
    success. *)
Lemma gen_next_turn (st : gen_state) (a : article) (rest : list article) :
  g_todo st = a :: rest ->
  exists st' res,
    gen_next st = Some st' /\
    g_todo st' = rest /\
    g_yielded st' = g_yielded st ++ [res] /\
    result_for a res /\
    g_db st' = apply_result (g_db st) res /\
    (g_rag st', r_error res) = submit_call md5_hexdigest ainsert (g_rag st) a.
Proof.
  intros Htodo.
  unfold Ingestion.gen_next, ingest_article_async, submit_call. rewrite Htodo.
  destruct (ainsert _ _ _ _) as [rag' [e|]].
  - eexists _, _. split; [reflexivity|]. cbn.
    repeat split; try reflexivity. right. repeat split; eauto.
  - eexists _, _. split; [reflexivity|]. cbn.
    unfold _generate_doc_id. rewrite digest_truthy. cbn.
    repeat split; try reflexivity. left. repeat split.
Qed.

Lemma gen_next_end (st : gen_state) : g_todo st = [] -> gen_next st = None.
Proof. intros H. unfold Ingestion.gen_next. now rewrite H. Qed.

(** [k] turns of the loop, from any state with at least [k] rows ahead. *)
Lemma gen_advance_turns (k : nat) :
  forall st,
    (k <= length (g_todo st))%nat ->
    exists st' res,
      gen_advance k st = Some st' /\
      g_todo st' = drop k (g_todo st) /\
      g_yielded st' = g_yielded st ++ res /\
      Forall2 result_for (take k (g_todo st)) res /\
      g_db st' = fold_left apply_result res (g_db st) /\
      map r_error res
      = engine_outcomes md5_hexdigest ainsert (g_rag st) (take k (g_todo st)).
Proof.
  induction k as [|k IH]; intros st Hk.
  - exists st, []. cbn. rewrite app_nil_r. repeat split. constructor.
  - destruct (g_todo st) as [|a rest] eqn:Htodo; [cbn in Hk; lia|].
    destruct (gen_next_turn st a rest Htodo)
      as (st1 & r & Hn & Ht1 & Hy1 & Hr & Hd1 & Hc1).
    destruct (IH st1) as (st' & res & Ha & Ht & Hy & Hres & Hd & Hc).
    { rewrite Ht1. cbn in Hk. lia. }
    exists st', (r :: res). cbn [Ingestion.gen_advance]. rewrite Hn.
    split; [exact Ha|]. rewrite Ht, Ht1, Hy, Hy1, Hd, Hd1, <- app_assoc.
    repeat split.
    + cbn. constructor; [exact Hr|]. now rewrite <- Ht1.
    + cbn [take map engine_outcomes]. rewrite <- Hc1, Hc, Ht1. reflexivity.
Qed.

Lemma gen_drain_advance (k : nat) :
  forall st st',
    gen_advance k st = Some st' -> g_todo st' = [] -> gen_drain k st = st'.
Proof.
  induction k as [|k IH]; intros st st' Ha Hend; cbn in *.
  - congruence.
  - destruct (gen_next st) as [st1|]; [now apply IH | discriminate].
Qed.

(** Marking leaves the articles with other ids alone. *)
Lemma apply_results_other (res : list IngestionResult) (i : Z) :
  forall conn,
    (forall r, In r res -> r_success r = true -> r_article_id r <> i) ->
    get_article (fold_left apply_result res conn) i = get_article conn i.
Proof.
  induction res as [|r res IH]; intros conn Hne; cbn; [reflexivity|].
  rewrite IH by (intros r' Hr'; apply Hne; now right).
  unfold apply_result. destruct (r_success r) eqn:Hs; [|reflexivity].
  apply get_article_update_other. intros Heq.
  apply (Hne r); [now left | exact Hs | now symmetry].
Qed.

(** The article of a successful result carries the identifier of that
    result once the results are applied. *)
Lemma apply_results_success (res : list IngestionResult) (r : IngestionResult)
      (conn : db) (a : article) (v : string) :
  NoDup (map r_article_id res) -> In r res ->
  r_success r = true -> r_lightrag_id r = Some v ->
  get_article conn (r_article_id r) = Some a ->
  get_article (fold_left apply_result res conn) (r_article_id r)
  = Some (set_lightrag_id (Some v) a).
Proof.
  intros Hnd Hin Hs Hv Hg.
  apply in_split in Hin as (pre & post & ->).
  rewrite map_app in Hnd. cbn in Hnd.
  apply NoDup_app in Hnd as (_ & Hpre & Hpost).
  apply NoDup_cons in Hpost as [Hpost _].
  rewrite fold_left_app. cbn [fold_left].
  rewrite apply_results_other.
  - unfold apply_result at 1. rewrite Hs, Hv. cbn [default].
    apply get_article_update_same.
    rewrite apply_results_other; [exact Hg|].
    intros r' Hr' _ He. apply (Hpre (r_article_id r)).
    + apply list_elem_of_In, in_map_iff. eauto.
    + left.
  - intros r' Hr' _ He. apply Hpost. rewrite <- He.
    apply list_elem_of_In, in_map. exact Hr'.
Qed.

Lemma Forall2_In_right {A B} (P : A -> B -> Prop) (l : list A) (l' : list B)
      (y : B) :
  Forall2 P l l' -> In y l' -> exists x, In x l /\ P x y.
Proof.
  induction 1 as [|x y' l l' Hxy _ IH]; cbn; intros Hin; [contradiction|].
  destruct Hin as [->|Hin]; [eauto|].
  destruct (IH Hin) as (x' & Hx' & HP). eauto.
Qed.

End IngestionFacts.

(** C3 (as amended).  [ingest_article_async] calls the engine's insertion
    exactly once, directly: the engine is left as that one call leaves it;
    if the call returns, the result is a success carrying the document id
    of the link; if the call raises, whatever the error, the result is a
    failure carrying the text of that error.  The store is neither an
    argument nor a result of the function. *)
Theorem ingest_article_single_attempt {E : Type}
        (md5_hexdigest : string -> string)
        (ainsert : E -> string -> list string -> list string -> E * option string)
        (rag : E) (article_id : Z) (title : string) (content : option string)
        (link : string) :
  let call := ainsert rag (Ingestion.doc_text title content link)
                      [md5_hexdigest link] [link] in
  let out := Ingestion.ingest_article_async md5_hexdigest ainsert rag
               article_id title content link in
  fst out = fst call /\
  (snd call = None ->
   snd out = Ingestion.mk_IngestionResult article_id title true
               (Some (md5_hexdigest link)) None) /\
  (forall e, snd call = Some e ->
             snd out = Ingestion.mk_IngestionResult article_id title false
                         None (Some e)).
Proof.
  cbv zeta. unfold Ingestion.ingest_article_async, Ingestion._generate_doc_id.
  destruct (ainsert _ _ _ _) as [rag' [e'|]]; cbn; repeat split.
  - discriminate.
  - now intros e [= ->].
  - discriminate.
Qed.

(** C3 (as amended) on the flaky engine: one call, and the rate-limit error
    of that call is the error of the result. *)
Lemma ingest_article_single_attempt_witness :
  Ingestion.ingest_article_async Ingestion.const_digest Ingestion.flaky_ainsert
    0%nat 1 "Test Article" (Some "Test content") "https://example.com/test"
  = (1%nat,
     Ingestion.mk_IngestionResult 1 "Test Article" false None
       (Some "Rate limit exceeded")).
Proof.
  destruct (ingest_article_single_attempt Ingestion.const_digest
              Ingestion.flaky_ainsert 0%nat 1 "Test Article"
              (Some "Test content") "https://example.com/test")
    as (Hfst & _ & Hfail).
  specialize (Hfail "Rate limit exceeded" eq_refl).
  apply injective_projections; [exact Hfst | exact Hfail].
Defined.

(** C3 as stated fails: on an engine whose first insertion raises a
    retryable error and whose second would return, [ingest_article_async]
    reports failure after a single call, where a submission through the
    retry wrapper makes the second call and succeeds. *)
Lemma ingest_article_not_retried :
  let out := Ingestion.ingest_article_async Ingestion.const_digest
               Ingestion.flaky_ainsert 0%nat 1 "Test Article"
               (Some "Test content") "https://example.com/test" in
  let spec := Ingestion.spec_submit_one Ingestion.const_digest
                Ingestion.flaky_ainsert 0%nat 1 "Test Article"
                (Some "Test content") "https://example.com/test" in
  Ingestion.r_error (snd out) = Some "Rate limit exceeded" /\
  Errors.is_retryable "Rate limit exceeded" = true /\
  fst out = 1%nat /\
  Ingestion.r_success (snd out) = false /\
  fst spec = 2%nat /\
  Ingestion.r_success (snd spec) = true /\
  out <> spec.
Proof. cbv zeta. repeat split. discriminate. Qed.

(** C6.  In a run of [ingest_pending_articles_async] over a well-formed
    store, for every [k] up to the number of selected rows, the generator
    yields a [k]-th result, and after it: the results are those of the
    first [k] rows, in order, with the errors of the engine calls made for
    these rows one after the other; the article of each result is marked
    (with the document id of its link) if the result is a success, that
    is if its engine call returned, and is still unmarked if it is a
    failure; every article not among the first [k] rows is as it was.  After the last row the generator ends, and
    [ingest_pending_articles] returns that store and those results. *)
Theorem submit_pending_marks_per_item {E : Type}
        (md5_hexdigest : string -> string)
        (ainsert : E -> string -> list string -> list string -> E * option string)
        (conn : Database.db) (rag : E) (limit : option Z) (k : nat) :
  Database.well_formed conn ->
  (forall l, md5_hexdigest l <> "") ->
  (k <= length (Ingestion.select_pending conn limit))%nat ->
  exists st,
    Ingestion.gen_advance md5_hexdigest ainsert k
      (Ingestion.gen_start conn rag limit) = Some st /\
    length (Ingestion.g_yielded st) = k /\
    map Ingestion.r_article_id (Ingestion.g_yielded st)
    = map Database.id (take k (Ingestion.select_pending conn limit)) /\
    Ingestion.g_todo st = drop k (Ingestion.select_pending conn limit) /\
    map Ingestion.r_error (Ingestion.g_yielded st)
    = Ingestion.engine_outcomes md5_hexdigest ainsert rag
        (take k (Ingestion.select_pending conn limit)) /\
    (forall r, In r (Ingestion.g_yielded st) ->
       exists a,
         In a (Database.articles conn) /\
         Database.id a = Ingestion.r_article_id r /\
         Database.lightrag_id a = None /\
         (Ingestion.r_success r = true ->
          Ingestion.r_error r = None /\
          Database.get_article (Ingestion.g_db st) (Ingestion.r_article_id r)
          = Some (Database.set_lightrag_id
                    (Some (md5_hexdigest (Database.link a))) a)) /\
         (Ingestion.r_success r = false ->
          is_Some (Ingestion.r_error r) /\
          Database.get_article (Ingestion.g_db st) (Ingestion.r_article_id r)
          = Some a)) /\
    (forall a, In a (Database.articles conn) ->
               ~ In (Database.id a)
                    (map Ingestion.r_article_id (Ingestion.g_yielded st)) ->
               Database.get_article (Ingestion.g_db st) (Database.id a) = Some a) /\
    (k = length (Ingestion.select_pending conn limit) ->
     Ingestion.gen_next md5_hexdigest ainsert st = None /\
     Ingestion.ingest_pending_articles md5_hexdigest ainsert conn rag limit
     = (Ingestion.g_db st, Ingestion.g_rag st, Ingestion.g_yielded st)).
Proof.
  intros Hwf Hmd5 Hk.
  set (rows := Ingestion.select_pending conn limit) in *.
  destruct (gen_advance_turns md5_hexdigest ainsert Hmd5 k
              (Ingestion.gen_start conn rag limit) Hk)
    as (st & res & Hadv & Htodo & Hy & Hres & Hdb & Hout).
  cbn [Ingestion.gen_start Ingestion.g_todo Ingestion.g_yielded Ingestion.g_db
       Ingestion.g_rag app] in *.
  fold rows in Htodo, Hres, Hout.
  assert (map Ingestion.r_article_id res = map Database.id (take k rows)) as Hids.
  { clear - Hres. induction Hres as [|a r l l' [Hid _] _ IH]; cbn; congruence. }
  assert (NoDup (map Ingestion.r_article_id res)) as Hnd.
  { rewrite Hids. apply (sublist_NoDup _ (Database.id <$> rows)).
    - apply select_pending_NoDup, Hwf.
    - apply fmap_sublist, sublist_take. }
  assert (forall a, In a (Database.articles conn) ->
                    Database.get_article conn (Database.id a) = Some a) as Hget
      by (intros a; apply get_article_of_In, Hwf).
  exists st. rewrite Hy, Hdb.
  split; [exact Hadv|].
  split; [rewrite <- (length_map Ingestion.r_article_id), Hids, length_map,
            length_take; fold rows; lia|].
  split; [exact Hids|]. split; [exact Htodo|]. split; [exact Hout|].
  split; [|split].
  - intros r Hr.
    destruct (Forall2_In_right _ _ _ r Hres Hr) as (a & Ha & Hid & _ & Hcase).
    apply list_elem_of_In, (sublist_subseteq _ _ (sublist_take rows k)),
      list_elem_of_In, select_pending_In in Ha as [Ha Hnull].
    exists a. split; [exact Ha|]. split; [now symmetry|]. split; [exact Hnull|].
    destruct Hcase as [(Hs & Hl & He) | (Hs & Hl & He)]; rewrite Hs.
    + split; [intros _ | discriminate]. split; [exact He|].
      apply apply_results_success; try assumption.
      rewrite Hid. now apply Hget.
    + split; [discriminate | intros _]. split; [exact He|].
      rewrite apply_results_other; [rewrite Hid; now apply Hget|].
      intros r' Hr' Hs' Hsame.
      rewrite (NoDup_map_In_eq Ingestion.r_article_id res r' r Hnd Hr' Hr Hsame)
        in Hs'.
      congruence.
  - intros a Ha Hnot. rewrite apply_results_other; [now apply Hget|].
    intros r' Hr' _ Hsame. apply Hnot. rewrite <- Hsame. now apply in_map.
  - intros ->.
    assert (Ingestion.g_todo st = []) as Hend
        by (rewrite Htodo; apply drop_all).
    split; [now apply gen_next_end|].
    unfold Ingestion.ingest_pending_articles.
    cbn [Ingestion.gen_start Ingestion.g_todo]. fold rows.
    rewrite (gen_drain_advance md5_hexdigest ainsert _ _ st Hadv Hend).
    now rewrite Hy, Hdb.
Qed.


Lemma exec_all_well_formed (os : list Database.op) :
  forall conn, Database.well_formed conn ->
               Database.well_formed (Database.exec_all conn os).
Proof.
  induction os as [|o os IH]; intros conn H; cbn; [exact H|].
  apply IH. now apply exec_well_formed.
Qed.

(** C6 on the store with three pending articles and an engine that rejects
    the second: after two results the first article is marked, the second
    is not, and the third has not been touched. *)
Lemma submit_pending_marks_per_item_witness :
  exists st,
    Ingestion.gen_advance Ingestion.const_digest
      (Ingestion.picky_ainsert "https://example.com/2") 2
      (Ingestion.gen_start Ingestion.three_pending 0%nat None) = Some st /\
    length (Ingestion.g_yielded st) = 2%nat /\
    map Ingestion.r_article_id (Ingestion.g_yielded st) = [1; 2].
Proof.
  destruct (submit_pending_marks_per_item Ingestion.const_digest
              (Ingestion.picky_ainsert "https://example.com/2")
              Ingestion.three_pending 0%nat None 2)
    as (st & Hadv & Hlen & Hids & _).
  - apply exec_all_well_formed, well_formed_init.
  - intros l. discriminate.
  - cbn. lia.
  - exists st. split; [exact Hadv|]. split; [exact Hlen | exact Hids].
Defined.

(** The complete run on that store. *)
Example ingest_pending_three :
  Ingestion.ingest_pending_articles Ingestion.const_digest
    (Ingestion.picky_ainsert "https://example.com/2")
    Ingestion.three_pending 0%nat None
  = (Database.mk_db
       [Database.mk_article 1 1 "First" (Some "Body 1") "https://example.com/1"
          (Some 30) (Some "d41d8cd98f00b204e9800998ecf8427e");
        Database.mk_article 2 1 "Second" None "https://example.com/2"
          (Some 20) None;
        Database.mk_article 3 1 "Third" (Some "Body 3") "https://example.com/3"
          None (Some "d41d8cd98f00b204e9800998ecf8427e")]
       3,
     3%nat,
     [Ingestion.mk_IngestionResult 1 "First" true
        (Some "d41d8cd98f00b204e9800998ecf8427e") None;
      Ingestion.mk_IngestionResult 2 "Second" false None (Some "API Error");
      Ingestion.mk_IngestionResult 3 "Third" true
        (Some "d41d8cd98f00b204e9800998ecf8427e") None]).
Proof. reflexivity. Qed.

(** ** The cost ledger *)

Section CostTrackerFacts.
Import CostTracker.
Variable fromisoformat : string -> option Z.

Lemma fold_add_call_calls (l : list APICall) :
  forall acc,
    total_calls (fold_left add_call l acc)
    = total_calls acc + Z.of_nat (length l).
Proof.
  induction l as [|c l IH]; intros acc; cbn [fold_left length].
  - lia.
  - rewrite IH. cbn [add_call total_calls]. lia.
Qed.

Lemma fold_add_call_input (l : list APICall) :
  forall acc,
    total_input_tokens (fold_left add_call l acc)
    = fold_left Z.add (map input_tokens l) (total_input_tokens acc).
Proof.
  induction l as [|c l IH]; intros acc; cbn [fold_left map]; [reflexivity|].
  now rewrite IH.
Qed.

Lemma fold_add_call_output (l : list APICall) :
  forall acc,
    total_output_tokens (fold_left add_call l acc)
    = fold_left Z.add (map output_tokens l) (total_output_tokens acc).
Proof.
  induction l as [|c l IH]; intros acc; cbn [fold_left map]; [reflexivity|].
  now rewrite IH.
Qed.

Lemma fold_add_call_cost (l : list APICall) :
  forall acc,
    total_cost_usd (fold_left add_call l acc)
    = fold_left PrimFloat.add (map cost_usd l) (total_cost_usd acc).
Proof.
  induction l as [|c l IH]; intros acc; cbn [fold_left map]; [reflexivity|].
  now rewrite IH.
Qed.

(** The loop of [get_summary] adds up the included calls, provided every
    timestamp it has to read can be read. *)
Lemma summary_loop_fold (calls : list APICall) (since : option Z) :
  (since <> None ->
   Forall (fun c => is_Some (fromisoformat (timestamp c))) calls) ->
  forall acc,
    summary_loop fromisoformat calls since acc
    = inl (fold_left add_call
             (List.filter (included fromisoformat since) calls) acc).
Proof.
  intros Hparse. induction calls as [|c calls IH]; intros acc; [reflexivity|].
  cbn [summary_loop List.filter]. destruct since as [s|].
  - assert (Forall (fun c => is_Some (fromisoformat (timestamp c))) (c :: calls))
      as Hall by (apply Hparse; discriminate).
    apply Forall_cons in Hall as [[t Ht] Hall].
    unfold included at 1. rewrite Ht.
    destruct (Z.ltb_spec t s) as [Hlt|Hge].
    + assert ((s <=? t) = false) as -> by (apply Z.leb_gt; lia).
      apply IH. intros _. exact Hall.
    + assert ((s <=? t) = true) as -> by (apply Z.leb_le; lia).
      cbn [fold_left]. apply IH. intros _. exact Hall.
  - cbn [included fold_left]. apply IH. intros H. now contradiction H.
Qed.

End CostTrackerFacts.

(** C7.  [get_summary] adds up the recorded calls: over the calls it
    includes, [total_calls] is their number, [total_input_tokens] and
    [total_output_tokens] are the sums of their token counts, and
    [total_cost_usd] is the sum of their costs, accumulated from [0.0] in
    the order of recording; without [since] every call is included, with
    [since] exactly the calls stamped at or after it.  [record_call]
    appends one call whose cost depends on its own model and token counts
    only. *)
Theorem get_summary_additive (isoformat : Z -> string)
        (fromisoformat : string -> option Z)
        (calls : list CostTracker.APICall) (since : option Z) :
  (since <> None ->
   Forall (fun c => is_Some (fromisoformat (CostTracker.timestamp c))) calls) ->
  exists summary,
    let inc := List.filter (CostTracker.included fromisoformat since) calls in
    CostTracker.get_summary fromisoformat calls since = inl summary /\
    CostTracker.total_calls summary = Z.of_nat (length inc) /\
    CostTracker.total_input_tokens summary
    = CostTracker.Z_sum (map CostTracker.input_tokens inc) /\
    CostTracker.total_output_tokens summary
    = CostTracker.Z_sum (map CostTracker.output_tokens inc) /\
    CostTracker.total_cost_usd summary
    = CostTracker.float_sum (map CostTracker.cost_usd inc) /\
    (since = None -> inc = calls) /\
    (forall s c, since = Some s ->
       (In c inc <->
        In c calls /\
        exists t, fromisoformat (CostTracker.timestamp c) = Some t /\ s <= t)) /\
    (forall now operation model input_tokens output_tokens,
       CostTracker.record_call isoformat calls now operation model
                               input_tokens output_tokens
       = (calls ++ [CostTracker.mk_APICall (isoformat now) operation model
                      input_tokens output_tokens
                      (CostTracker.call_cost model input_tokens output_tokens)],
          CostTracker.call_cost model input_tokens output_tokens)).
Proof.
  intros Hparse. eexists. cbv zeta.
  split; [apply (summary_loop_fold fromisoformat calls since Hparse)|].
  rewrite fold_add_call_calls, fold_add_call_input, fold_add_call_output,
    fold_add_call_cost.
  cbn [CostTracker.empty_summary CostTracker.total_calls
       CostTracker.total_input_tokens CostTracker.total_output_tokens
       CostTracker.total_cost_usd].
  split; [lia|]. do 3 (split; [reflexivity|]).
  split; [|split].
  - intros ->. clear Hparse. induction calls as [|c calls IH]; cbn; congruence.
  - intros s c ->. rewrite filter_In. cbn [CostTracker.included].
    split.
    + intros [Hin Hinc]. split; [exact Hin|].
      destruct (fromisoformat (CostTracker.timestamp c)) as [t|]; [|discriminate].
      exists t. split; [reflexivity|]. now apply Z.leb_le.
    + intros (Hin & t & Ht & Hle). split; [exact Hin|].
      rewrite Ht. now apply Z.leb_le.
  - reflexivity.
Qed.

(** C7 on the ledger of [test_get_summary]: two calls with 1000/500 and
    2000/1000 tokens give 3000 input and 1500 output tokens and the sum of
    the two costs; with [since = 6] only the call recorded at 7 is
    counted. *)
Lemma get_summary_additive_witness :
  (exists summary,
      CostTracker.get_summary CostTracker.unary_fromisoformat
                              CostTracker.two_calls None = inl summary /\
      CostTracker.total_calls summary = 2 /\
      CostTracker.total_input_tokens summary = 3000 /\
      CostTracker.total_output_tokens summary = 1500 /\
      CostTracker.total_cost_usd summary
      = CostTracker.float_sum [CostTracker.call_cost "gpt-4o-mini" 1000 500;
                               CostTracker.call_cost "gpt-4o-mini" 2000 1000]) /\
  (exists summary,
      CostTracker.get_summary CostTracker.unary_fromisoformat
                              CostTracker.two_calls (Some 6) = inl summary /\
      CostTracker.total_calls summary = 1 /\
      CostTracker.total_input_tokens summary = 2000 /\
      CostTracker.total_output_tokens summary = 1000).
Proof.
  split.
  - destruct (get_summary_additive CostTracker.unary_isoformat
                CostTracker.unary_fromisoformat CostTracker.two_calls None)
      as (summary & Hs & Hn & Hi & Ho & Hc & _).
    + intros H. now contradiction H.
    + exists summary. split; [exact Hs|].
      rewrite Hn, Hi, Ho, Hc. repeat split; reflexivity.
  - destruct (get_summary_additive CostTracker.unary_isoformat
                CostTracker.unary_fromisoformat CostTracker.two_calls (Some 6))
      as (summary & Hs & Hn & Hi & Ho & _).
    + intros _. repeat constructor; eexists; reflexivity.
    + exists summary. split; [exact Hs|].
      rewrite Hn, Hi, Ho. repeat split; reflexivity.
Defined.


(** * Further properties *)

(** ** The retry wrappers, for every callable *)

(** X1.  Whatever the callable does, [handle_api_error] invokes it at least
    once and at most three times, sleeps once between two invocations and
    never after the last, for 1 and then 2 seconds, so for at most 3
    seconds in all; when the first invocation returns, its value is
    returned after that single call. *)
Theorem retry_wrapper_bounds {S V : Type} (func : S -> S * (V + string)) (s : S) :
  let r := Errors.handle_api_error func s in
  (1 <= Errors.calls r <= 3)%nat /\
  Errors.calls r = Datatypes.S (length (Errors.sleeps r)) /\
  (Errors.sleeps r = [] \/ Errors.sleeps r = [1] \/ Errors.sleeps r = [1; 2]) /\
  Sums.Z_total (Errors.sleeps r) <= 3 /\
  (forall s' v, func s = (s', inl v) ->
                r = Errors.mk_run s' 1 [] (Errors.Returned v)).
Proof.
  unfold Errors.handle_api_error, Errors.max_retries.
  cbn [seq Errors.wrapper_loop Nat.ltb Nat.leb Nat.sub].
  unfold Errors.retry_delay.
  destruct (func s) as [s1 [v1|e1]] eqn:H1.
  { cbn. repeat split; try lia; auto. intros s' v [= <- <-]. reflexivity. }
  destruct (Errors.is_retryable e1); cbn [andb].
  2: { cbn. repeat split; try lia; try (intros ? ? [=]); auto. }
  destruct (func s1) as [s2 [v2|e2]] eqn:H2.
  { cbn. repeat split; try lia; try (intros ? ? [=]); auto. }
  destruct (Errors.is_retryable e2); cbn [andb].
  2: { cbn. repeat split; try lia; try (intros ? ? [=]); auto. }
  destruct (func s2) as [s3 [v3|e3]] eqn:H3.
  { cbn. repeat split; try lia; try (intros ? ? [=]); auto. }
  rewrite andb_false_r. cbn. repeat split; try lia; try (intros ? ? [=]); auto.
Qed.

(** ** The classification of errors *)

Section PyStrFacts.
Import PyStr.

Lemma prefix_iff (p s : string) :
  String.prefix p s = true <-> exists post, s = p +:+ post.
Proof.
  revert s. induction p as [|a p IH]; intros s.
  - split; [intros _; now exists s | intros _; now destruct s].
  - destruct s as [|b s]; cbn.
    + split; [discriminate | intros [post H]; discriminate].
    + destruct (ascii_dec a b) as [->|Hne].
      * rewrite IH. split; intros [post H]; exists post.
        -- subst s. reflexivity.
        -- now injection H.
      * split; [discriminate | intros [post H]; injection H as H' _; now subst].
Qed.

Lemma contains_unfold (needle hay : string) :
  contains needle hay
  = if String.prefix needle hay then true
    else match hay with
         | EmptyString => false
         | String _ rest => contains needle rest
         end.
Proof. destruct hay; reflexivity. Qed.

Lemma contains_iff (needle hay : string) :
  contains needle hay = true
  <-> exists pre post, hay = pre +:+ needle +:+ post.
Proof.
  split.
  - induction hay as [|c rest IH]; rewrite contains_unfold;
      destruct (String.prefix needle _) eqn:Hp.
    + apply prefix_iff in Hp as [post ->]. intros _. now exists "", post.
    + discriminate.
    + apply prefix_iff in Hp as [post ->]. intros _. now exists "", post.
    + intros H. destruct (IH H) as (pre & post & ->).
      now exists (String c pre), post.
  - intros (pre & post & ->). induction pre as [|c pre IH];
      rewrite contains_unfold.
    + assert (String.prefix needle ("" +:+ needle +:+ post) = true) as ->;
        [|reflexivity].
      apply prefix_iff. now exists post.
    + change (String c pre +:+ needle +:+ post)
        with (String c (pre +:+ needle +:+ post)).
      destruct (String.prefix needle _); [reflexivity|]. exact IH.
Qed.

Lemma lower_app (a b : string) : lower (a +:+ b) = lower a +:+ lower b.
Proof.
  induction a as [|c a IH]; [reflexivity|].
  change (String (lower_ascii c) (lower (a +:+ b))
          = String (lower_ascii c) (lower a +:+ lower b)).
  now rewrite IH.
Qed.

End PyStrFacts.

(** X2.  An error is retryable exactly when its text, in lower case,
    contains one of "rate limit", "timeout", "503", "429" somewhere; so a
    signal written in any letter case anywhere inside a longer message
    makes the error retryable. *)
Theorem is_retryable_iff (e : string) :
  (Errors.is_retryable e = true <->
   exists sig pre post,
     In sig Errors.retryable_signals /\
     PyStr.lower e = pre +:+ sig +:+ post) /\
  (forall sig pre t post,
      In sig Errors.retryable_signals -> PyStr.lower t = sig ->
      Errors.is_retryable (pre +:+ t +:+ post) = true).
Proof.
  assert (forall x, Errors.is_retryable x = true <->
                    exists sig pre post,
                      In sig Errors.retryable_signals /\
                      PyStr.lower x = pre +:+ sig +:+ post) as Hiff.
  { intros x. unfold Errors.is_retryable. rewrite existsb_exists. split.
    - intros (sig & Hin & Hc). apply contains_iff in Hc as (pre & post & Hc).
      eauto.
    - intros (sig & pre & post & Hin & Hc). exists sig. split; [exact Hin|].
      apply contains_iff. eauto. }
  split; [apply Hiff|].
  intros sig pre t post Hin Ht. apply Hiff.
  exists sig, (PyStr.lower pre), (PyStr.lower post).
  split; [exact Hin|]. now rewrite !lower_app, Ht.
Qed.

(** ** The document identifier *)

Section Md5Facts.
Import Md5.

Lemma le_bytes_length (k : nat) : forall n, length (le_bytes k n) = k.
Proof. induction k as [|k IH]; intros n; cbn; [reflexivity | now rewrite IH]. Qed.

Lemma le_bytes_range (k : nat) :
  forall n, Forall (fun b => 0 <= b < 256) (le_bytes k n).
Proof.
  induction k as [|k IH]; intros n; cbn; constructor; [|apply IH].
  apply Z.mod_pos_bound. lia.
Qed.

Lemma digest_length (msg : list Z) : length (digest msg) = 16%nat.
Proof. unfold digest. now rewrite !length_app, !le_bytes_length. Qed.

Lemma digest_range (msg : list Z) : Forall (fun b => 0 <= b < 256) (digest msg).
Proof. unfold digest. rewrite !Forall_app. repeat split; apply le_bytes_range. Qed.

Lemma hex_digit_is_hex (n : Z) : 0 <= n < 16 -> is_hex (hex_digit n) = true.
Proof.
  intros H. rewrite <- (Z2Nat.id n) by lia.
  assert (Z.to_nat n < 16)%nat as Hk by lia.
  revert Hk. generalize (Z.to_nat n). intros k Hk.
  do 16 (destruct k as [|k]; [reflexivity|]). lia.
Qed.

Lemma hex_bytes_length (bs : list Z) :
  length (concat (map hex_byte bs)) = (2 * length bs)%nat.
Proof. induction bs as [|b bs IH]; cbn; [reflexivity | rewrite IH; lia]. Qed.

Lemma hex_bytes_are_hex (bs : list Z) :
  Forall (fun b => 0 <= b < 256) bs ->
  Forall (fun c => is_hex c = true) (concat (map hex_byte bs)).
Proof.
  induction 1 as [|b bs Hb _ IH]; cbn; [constructor|].
  constructor; [|constructor; [|exact IH]]; apply hex_digit_is_hex.
  - split; [apply Z.div_pos; lia | apply Z.div_lt_upper_bound; lia].
  - apply Z.mod_pos_bound. lia.
Qed.

Lemma string_of_list_ascii_length (l : list ascii) :
  String.length (string_of_list_ascii l) = length l.
Proof. induction l as [|c l IH]; cbn; [reflexivity | now rewrite IH]. Qed.

End Md5Facts.

(** The digests of the RFC 1321 test suite and of two messages that fill
    a block exactly and almost, as [hashlib] gives them. *)
Example md5_test_vectors :
  Md5.hexdigest "" = "d41d8cd98f00b204e9800998ecf8427e" /\
  Md5.hexdigest "a" = "0cc175b9c0f1b6a831c399e269772661" /\
  Md5.hexdigest "abc" = "900150983cd24fb0d6963f7d28e17f72" /\
  Md5.hexdigest "message digest" = "f96b697d7cb7938d525a2f31aaf161d0" /\
  Md5.hexdigest "abcdefghijklmnopqrstuvwxyz" = "c3fcd3d76192e4007dfb496cca67e13b" /\
  Md5.hexdigest "ABCDEFGHIJKLMNOPQRSTUVWXYZabcdefghijklmnopqrstuvwxyz0123456789"
  = "d174ab98d277d9f5a5611c2c9f419d9f" /\
  Md5.hexdigest
    "12345678901234567890123456789012345678901234567890123456789012345678901234567890"
  = "57edf4a22be3c955ac49da2e2107b67a" /\
  Md5.hexdigest "aaaaaaaaaaaaaaaaaaaaaaaaaaaaaaaaaaaaaaaaaaaaaaaaaaaaaaa"
  = "ef1772b6dff9a122358552954ad0df65" /\
  Md5.hexdigest "aaaaaaaaaaaaaaaaaaaaaaaaaaaaaaaaaaaaaaaaaaaaaaaaaaaaaaaa"
  = "3b0c8ac703f828b04c6c197006d17218" /\
  Md5.hexdigest "https://x.com/a" = "f51edb1a34cb9c0a376a0f9334226b44".
Proof. vm_compute. repeat split. Qed.

Lemma hexdigest_length (s : string) : String.length (Md5.hexdigest s) = 32%nat.
Proof.
  unfold Md5.hexdigest.
  now rewrite string_of_list_ascii_length, hex_bytes_length, digest_length.
Qed.

Lemma hexdigest_nonempty (s : string) : Md5.hexdigest s <> "".
Proof.
  intros H. pose proof (hexdigest_length s) as Hlen. rewrite H in Hlen.
  discriminate.
Qed.

(** X3.  For every link the document identifier is a string of exactly 32
    lower-case hexadecimal digits; in particular it is never empty, so the
    test [result.success and result.lightrag_id] of the ingestion loop
    depends on [result.success] alone. *)
Theorem doc_id_is_32_hex_digits (link : string) :
  let doc_id := Ingestion._generate_doc_id Md5.hexdigest link in
  String.length doc_id = 32%nat /\
  Forall (fun c => Md5.is_hex c = true) (list_ascii_of_string doc_id) /\
  doc_id <> "" /\
  PyStr.truthy_opt (Some doc_id) = true.
Proof.
  cbv zeta. unfold Ingestion._generate_doc_id.
  split; [apply hexdigest_length|]. split; [|split].
  - unfold Md5.hexdigest. rewrite list_ascii_of_string_of_list_ascii.
    apply hex_bytes_are_hex, digest_range.
  - apply hexdigest_nonempty.
  - cbn. pose proof (hexdigest_nonempty link).
    destruct (Md5.hexdigest link); [contradiction | reflexivity].
Qed.

(** ** Runs of the ingestion loop *)

Section RunFacts.
Import Database Ingestion Runs.
Context {E : Type}.
Variable md5_hexdigest : string -> string.
Variable ainsert : E -> string -> list string -> list string -> E * option string.
Hypothesis digest_nonempty : forall l, md5_hexdigest l <> "".

Local Abbreviation result_for := (Ingestion.result_for md5_hexdigest).

(** A complete run applies the results of the selected rows, in order. *)
Lemma run_results (conn : db) (rag : E) (limit : option Z) :
  exists rag' res,
    ingest_pending_articles md5_hexdigest ainsert conn rag limit
    = (fold_left apply_result res conn, rag', res) /\
    Forall2 result_for (select_pending conn limit) res.
Proof.
  destruct (gen_advance_turns md5_hexdigest ainsert digest_nonempty
              (length (select_pending conn limit)) (gen_start conn rag limit))
    as (st & res & Hadv & Htodo & Hy & Hres & Hdb & _); [reflexivity|].
  cbn [gen_start g_todo g_yielded g_db app] in *.
  rewrite firstn_all in Hres. rewrite drop_all in Htodo.
  exists (g_rag st), res. split; [|exact Hres].
  unfold ingest_pending_articles. cbn [gen_start g_todo].
  rewrite (gen_drain_advance md5_hexdigest ainsert _ _ st Hadv Htodo).
  now rewrite Hy, Hdb.
Qed.

Lemma rows_ahead_select (conn : db) (limit : option Z) :
  well_formed conn -> rows_ahead (select_pending conn limit) conn.
Proof.
  intros Hwf. split; [now apply select_pending_NoDup|].
  split; [apply Hwf|]. apply Forall_forall. intros a Ha.
  apply list_elem_of_In in Ha. now apply select_pending_In in Ha.
Qed.

Lemma update_keeps_other (conn : db) (i : Z) (v : string) (a : article) :
  In a (articles conn) -> id a <> i ->
  In a (articles (update_article_lightrag_id conn i v)).
Proof.
  intros Hin Hne. cbn. apply in_map_iff. exists a.
  split; [|exact Hin]. destruct (Z.eqb_spec (id a) i); [contradiction | reflexivity].
Qed.

Lemma rows_ahead_step (a0 : article) (rows : list article) (conn : db)
      (r : IngestionResult) :
  rows_ahead (a0 :: rows) conn -> result_for a0 r ->
  rows_ahead rows (apply_result conn r).
Proof.
  intros (Hrows & Hids & Hall) (Hid & _ & _).
  cbn in Hrows. apply NoDup_cons in Hrows as [Hnotin Hrows].
  apply Forall_cons in Hall as [_ Hall].
  split; [exact Hrows|]. unfold apply_result.
  destruct (r_success r); [|split; assumption].
  split; [now rewrite update_ids|].
  rewrite Forall_forall in *. intros a Ha. destruct (Hall a Ha) as [Hin Hnull].
  split; [|exact Hnull]. apply update_keeps_other; [exact Hin|].
  rewrite Hid. intros Heq. apply Hnotin. rewrite <- Heq.
  apply list_elem_of_In, in_map, list_elem_of_In, Ha.
Qed.

(** Marking an unmarked article takes one article from the pending ones. *)
Lemma update_pending_count (rows : list article) (a : article) (v : string) :
  NoDup (map id rows) -> In a rows -> lightrag_id a = None ->
  Datatypes.S
    (length (List.filter is_pending
               (map (fun b => if id b =? id a then set_lightrag_id (Some v) b
                              else b) rows)))
  = length (List.filter is_pending rows).
Proof.
  induction rows as [|b rows IH]; cbn [map List.filter]; intros Hnd Hin Hnull;
    [contradiction|].
  apply NoDup_cons in Hnd as [Hb Hnd].
  destruct Hin as [->|Hin].
  - rewrite Z.eqb_refl.
    change (is_pending (set_lightrag_id (Some v) a)) with false.
    assert (is_pending a = true) as -> by (unfold is_pending; now rewrite Hnull).
    cbn [length]. do 3 f_equal.
    rewrite <- (map_id rows) at 2. apply map_ext_in. intros c Hc.
    destruct (Z.eqb_spec (id c) (id a)) as [He|]; [|reflexivity].
    exfalso. apply Hb. rewrite <- He. apply list_elem_of_In, in_map, Hc.
  - destruct (Z.eqb_spec (id b) (id a)) as [He|Hne].
    + exfalso. apply Hb. rewrite He. apply list_elem_of_In, in_map, Hin.
    + specialize (IH Hnd Hin Hnull).
      destruct (is_pending b); cbn [length]; lia.
Qed.

(** Applying the results of a run takes as many articles from the pending
    ones as there are successes. *)
Lemma apply_results_pending_count (rows : list article)
      (res : list IngestionResult) :
  Forall2 result_for rows res ->
  forall conn,
    rows_ahead rows conn ->
    (get_pending_count (fold_left apply_result res conn) + successes res
     = get_pending_count conn)%nat.
Proof.
  induction 1 as [|a0 r rows res Hr _ IH]; intros conn Hahead;
    cbn [fold_left]; [cbn; lia|].
  pose proof (IH _ (rows_ahead_step a0 rows conn r Hahead Hr)) as Hrest.
  assert (get_pending_count (apply_result conn r)
          + (if r_success r then 1 else 0)
          = get_pending_count conn)%nat as Hstep.
  { destruct Hahead as (_ & Hids & Hall).
    apply Forall_cons in Hall as [[Hin Hnull] _].
    destruct Hr as (Hid & _ & _).
    unfold apply_result. destruct (r_success r); [|lia].
    pose proof (update_pending_count (articles conn) a0
                  (default "" (r_lightrag_id r)) Hids Hin Hnull) as Hcount.
    unfold get_pending_count, update_article_lightrag_id.
    cbn [articles]. rewrite Hid. lia. }
  unfold successes in *. cbn [List.filter].
  destruct (r_success r); cbn [length]; lia.
Qed.

Lemma result_ids (rows : list article) (res : list IngestionResult) :
  Forall2 result_for rows res -> map r_article_id res = map id rows.
Proof. induction 1 as [|a r rows res [Hid _] _ IH]; cbn; congruence. Qed.

Lemma succeeded_absent (res : list IngestionResult) (a : article) :
  ~ In (id a) (map r_article_id res) -> succeeded res a = false.
Proof.
  unfold succeeded.
  induction res as [|r res IH]; cbn [existsb map In]; intros Hn; [reflexivity|].
  rewrite IH by tauto.
  destruct (Z.eqb_spec (r_article_id r) (id a)); [tauto|].
  now rewrite andb_false_r.
Qed.

(** The store after the results of a run: the articles with a successful
    result carry the document id of their link, the others are as they
    were. *)
Lemma apply_results_map (rows : list article) (res : list IngestionResult) :
  Forall2 result_for rows res ->
  forall conn,
    rows_ahead rows conn ->
    articles (fold_left apply_result res conn)
    = map (fun a => if succeeded res a
                    then set_lightrag_id (Some (md5_hexdigest (link a))) a
                    else a)
          (articles conn).
Proof.
  induction 1 as [|a0 r rows res Hr Hrest IH]; intros conn Hahead;
    cbn [fold_left].
  - cbn. now rewrite map_id.
  - rewrite (IH _ (rows_ahead_step a0 rows conn r Hahead Hr)).
    destruct Hahead as (Hrows & Hids & Hall).
    apply Forall_cons in Hall as [[Hin0 Hnull0] _].
    cbn in Hrows. apply NoDup_cons in Hrows as [Hnotin _].
    rewrite <- (result_ids rows res Hrest) in Hnotin.
    destruct Hr as (Hid & _ & Hcase).
    unfold apply_result, succeeded. cbn [existsb]. fold (succeeded res).
    destruct Hcase as [(Hs & Hl & _) | (Hs & _ & _)]; rewrite Hs.
    + rewrite Hl. cbn [default articles update_article_lightrag_id].
      rewrite map_map. apply map_ext_in. intros b Hb. rewrite Hid.
      rewrite (Z.eqb_sym (id a0) (id b)).
      destruct (Z.eqb_spec (id b) (id a0)) as [He|Hne]; cbn [andb orb].
      * assert (b = a0) as -> by now apply (NoDup_map_In_eq id (articles conn)).
        assert (succeeded res a0 = false) as Hfalse.
        { apply succeeded_absent. intros H. apply Hnotin.
          now apply list_elem_of_In. }
        unfold succeeded in Hfalse. cbn [Database.id set_lightrag_id].
        rewrite Hfalse. reflexivity.
      * reflexivity.
    + cbn [andb orb]. reflexivity.
Qed.

Lemma select_pending_all (conn : db) (a : article) :
  In a (select_pending conn None) <-> In a (articles conn) /\ lightrag_id a = None.
Proof.
  unfold select_pending. rewrite <- !list_elem_of_In.
  rewrite order_by_pub_date_desc_perm, list_elem_of_In, filter_In.
  rewrite list_elem_of_In. unfold is_pending.
  destruct (lightrag_id a); split; intros [? ?]; split; congruence.
Qed.

End RunFacts.

Lemma select_pending_length (conn : Database.db) (limit : option Z) :
  length (Ingestion.select_pending conn limit)
  = match limit with
    | None => Ingestion.get_pending_count conn
    | Some n =>
        if (n <=? 0) then Ingestion.get_pending_count conn
        else Nat.min (Z.to_nat n) (Ingestion.get_pending_count conn)
    end.
Proof.
  unfold Ingestion.select_pending, Ingestion.get_pending_count.
  pose proof (Permutation_length
                (order_by_pub_date_desc_perm
                   (List.filter Database.is_pending (Database.articles conn))))
    as Hlen.
  destruct limit as [n|]; [|exact Hlen].
  destruct (Z.eqb_spec n 0) as [->|Hne]; [exact Hlen|].
  unfold Database.sql_limit.
  destruct (Z.ltb_spec n 0) as [Hlt|Hge]; destruct (Z.leb_spec n 0) as [Hle|Hgt];
    try lia.
  now rewrite length_take, Hlen.
Qed.

(** X4.  A run of [ingest_pending_articles] over a well-formed store moves
    exactly its successes from pending to ingested: afterwards the pending
    count is lower, and the ingested count higher, by the number of
    successful results; no article is added or removed, and the store is
    still well-formed. *)
Theorem ingest_run_accounting {E : Type}
        (ainsert : E -> string -> list string -> list string -> E * option string)
        (conn : Database.db) (rag : E) (limit : option Z) :
  Database.well_formed conn ->
  let run := Ingestion.ingest_pending_articles Md5.hexdigest ainsert conn rag
               limit in
  let conn1 := fst (fst run) in
  let ok := Runs.successes (snd run) in
  (Ingestion.get_pending_count conn1 + ok = Ingestion.get_pending_count conn)%nat /\
  (Ingestion.get_ingested_count conn1 = Ingestion.get_ingested_count conn + ok)%nat /\
  Database.total_articles conn1 = Database.total_articles conn /\
  Database.well_formed conn1.
Proof.
  intros Hwf.
  destruct (run_results Md5.hexdigest ainsert hexdigest_nonempty conn rag limit)
    as (rag' & res & -> & Hres).
  cbn [fst snd].
  pose proof (apply_results_pending_count Md5.hexdigest
                (Ingestion.select_pending conn limit) res Hres conn
                (rows_ahead_select conn limit Hwf)) as Hpending.
  assert (Database.total_articles (fold_left Ingestion.apply_result res conn)
          = Database.total_articles conn) as Htotal.
  { unfold Database.total_articles.
    rewrite (apply_results_map Md5.hexdigest _ res Hres conn
               (rows_ahead_select conn limit Hwf)).
    apply length_map. }
  assert (Database.well_formed (fold_left Ingestion.apply_result res conn)) as Hwf1.
  { clear Hres Hpending Htotal. revert conn Hwf.
    induction res as [|r res IH]; intros conn Hwf; cbn [fold_left]; [exact Hwf|].
    apply IH. unfold Ingestion.apply_result.
    destruct (Ingestion.r_success r); [now apply update_well_formed | exact Hwf]. }
  split; [exact Hpending|]. split; [|split; [exact Htotal | exact Hwf1]].
  pose proof (pending_split (Database.articles
                               (fold_left Ingestion.apply_result res conn))) as H1.
  pose proof (pending_split (Database.articles conn)) as H0.
  unfold Database.total_articles in Htotal.
  unfold Ingestion.get_pending_count, Ingestion.get_ingested_count in *. lia.
Qed.

(** X4 on the store with three pending articles: two successes, one
    article left pending. *)
Lemma ingest_run_accounting_witness :
  let run := Ingestion.ingest_pending_articles Md5.hexdigest
               (Ingestion.picky_ainsert "https://example.com/2")
               Ingestion.three_pending 0%nat None in
  Runs.successes (snd run) = 2%nat /\
  (Ingestion.get_pending_count (fst (fst run)) + 2 = 3)%nat.
Proof.
  cbv zeta. split; [vm_compute; reflexivity|].
  destruct (ingest_run_accounting
              (Ingestion.picky_ainsert "https://example.com/2")
              Ingestion.three_pending 0%nat None
              (exec_all_well_formed _ _ well_formed_init))
    as (H & _).
  exact H.
Defined.

(** X5.  A second run never selects an article that the first run marked:
    whatever its limit, the rows it selects were pending before the first
    run and had no successful result in it; and every article that was
    pending and had no successful result (it failed, or the limit kept it
    out) is selected again by an unlimited second run. *)
Theorem rerun_selects_unmarked {E : Type}
        (ainsert : E -> string -> list string -> list string -> E * option string)
        (conn : Database.db) (rag : E) (limit limit' : option Z) :
  Database.well_formed conn ->
  let run := Ingestion.ingest_pending_articles Md5.hexdigest ainsert conn rag
               limit in
  let conn1 := fst (fst run) in
  (forall a, In a (Ingestion.select_pending conn1 limit') ->
             In a (Ingestion.select_pending conn None) /\
             Runs.succeeded (snd run) a = false) /\
  (forall a, In a (Ingestion.select_pending conn None) ->
             Runs.succeeded (snd run) a = false ->
             In a (Ingestion.select_pending conn1 None)).
Proof.
  intros Hwf.
  destruct (run_results Md5.hexdigest ainsert hexdigest_nonempty conn rag limit)
    as (rag' & res & -> & Hres).
  cbn [fst snd].
  pose proof (apply_results_map Md5.hexdigest _ res Hres conn
                (rows_ahead_select conn limit Hwf)) as Hmap.
  split.
  - intros a Ha. apply select_pending_In in Ha as [Hin Hnull].
    rewrite Hmap in Hin. apply in_map_iff in Hin as (b & Hb & Hin).
    destruct (Runs.succeeded res b) eqn:Hsucc.
    + subst a. discriminate Hnull.
    + subst b. split; [|exact Hsucc]. now apply select_pending_all.
  - intros a Ha Hsucc. apply select_pending_all in Ha as [Hin Hnull].
    apply select_pending_all. split; [|exact Hnull].
    rewrite Hmap. apply in_map_iff. exists a. now rewrite Hsucc.
Qed.

(** X5 on the store with three pending articles: the second run selects
    the rejected article, and nothing else. *)
Lemma rerun_selects_unmarked_witness :
  let run := Ingestion.ingest_pending_articles Md5.hexdigest
               (Ingestion.picky_ainsert "https://example.com/2")
               Ingestion.three_pending 0%nat None in
  Forall (fun a => Runs.succeeded (snd run) a = false)
         (Ingestion.select_pending (fst (fst run)) None).
Proof.
  cbv zeta. apply Forall_forall. intros a Ha%list_elem_of_In.
  destruct (rerun_selects_unmarked
              (Ingestion.picky_ainsert "https://example.com/2")
              Ingestion.three_pending 0%nat None None
              (exec_all_well_formed _ _ well_formed_init))
    as (H & _).
  exact (proj2 (H a Ha)).
Defined.

(** X6.  For a limit that is absent or not negative, the number of articles
    the [ingest] command announces ([to_process]) is the number of results
    [ingest_pending_articles] yields; a limit of 0 counts as no limit in
    both.  For a negative limit the command announces the limit, and the
    loop processes every pending article. *)
Theorem ingest_announced_count {E : Type}
        (ainsert : E -> string -> list string -> list string -> E * option string)
        (conn : Database.db) (rag : E) (limit : option Z) :
  let results := snd (Ingestion.ingest_pending_articles Md5.hexdigest ainsert
                        conn rag limit) in
  let pending := Z.of_nat (Ingestion.get_pending_count conn) in
  ((forall n, limit = Some n -> 0 <= n) ->
   Z.of_nat (length results) = Cli.to_process limit pending) /\
  (forall n, limit = Some n -> n < 0 ->
             Z.of_nat (length results) = pending /\
             Cli.to_process limit pending = n).
Proof.
  cbv zeta.
  destruct (run_results Md5.hexdigest ainsert hexdigest_nonempty conn rag limit)
    as (rag' & res & -> & Hres).
  cbn [snd]. rewrite <- (Forall2_length _ _ _ Hres), select_pending_length.
  unfold Cli.to_process. split.
  - intros Hlimit. destruct limit as [n|]; [|reflexivity].
    specialize (Hlimit n eq_refl).
    destruct (Z.leb_spec n 0), (Z.eqb_spec n 0); try lia.
  - intros n -> Hneg.
    destruct (Z.leb_spec n 0), (Z.eqb_spec n 0); try lia.
Qed.

(** X6 on the store with three pending articles and a limit of 2. *)
Lemma ingest_announced_count_witness :
  Z.of_nat (length (snd (Ingestion.ingest_pending_articles Md5.hexdigest
                           (Ingestion.picky_ainsert "https://example.com/2")
                           Ingestion.three_pending 0%nat (Some 2))))
  = 2.
Proof.
  destruct (ingest_announced_count
              (Ingestion.picky_ainsert "https://example.com/2")
              Ingestion.three_pending 0%nat (Some 2))
    as (H & _).
  rewrite H; [reflexivity|]. intros n [= <-]. lia.
Defined.

(** ** Ordered queries *)

Section OrderFacts.
Import Database Store.

Lemma sql_ltb_asym (x y : option Z) : sql_ltb x y = true -> sql_ltb y x = false.
Proof.
  destruct x as [x|], y as [y|]; cbn; try congruence.
  intros H. apply Z.ltb_lt in H. apply Z.ltb_ge. lia.
Qed.

Lemma sql_geb_trans (x y z : option Z) :
  sql_ltb x y = false -> sql_ltb y z = false -> sql_ltb x z = false.
Proof.
  destruct x as [x|], y as [y|], z as [z|]; cbn; try congruence.
  rewrite !Z.ltb_ge. lia.
Qed.

Lemma newest_first_cons (a : article) (l : list article) :
  newest_first (a :: l)
  <-> Forall (fun b => sql_ltb (pub_date a) (pub_date b) = false) l
      /\ newest_first l.
Proof.
  split.
  - intros H. split.
    + apply Forall_forall. intros b Hb.
      apply list_elem_of_lookup in Hb as [j Hj].
      apply (H 0%nat (Datatypes.S j) a b); [lia | reflexivity | exact Hj].
    + intros i j x y Hij Hx Hy.
      apply (H (Datatypes.S i) (Datatypes.S j) x y); [lia | exact Hx | exact Hy].
  - intros [Hall Hl] i j x y Hij Hx Hy.
    destruct j as [|j]; [lia|]. cbn in Hy. destruct i as [|i]; cbn in Hx.
    + injection Hx as <-. rewrite Forall_forall in Hall. apply Hall.
      apply list_elem_of_lookup. eauto.
    + apply (Hl i j x y); [lia | exact Hx | exact Hy].
Qed.

Lemma newest_first_nil : newest_first [].
Proof. intros i j a b _ H. discriminate H. Qed.

Lemma insert_desc_newest_first (a : article) (l : list article) :
  newest_first l -> newest_first (insert_desc a l).
Proof.
  induction l as [|b l IH]; cbn [insert_desc]; intros Hl.
  - apply newest_first_cons. split; [constructor | apply newest_first_nil].
  - apply newest_first_cons in Hl as [Hall Hl].
    destruct (sql_ltb (pub_date a) (pub_date b)) eqn:Hab.
    + apply newest_first_cons. split; [|now apply IH].
      rewrite insert_desc_perm. constructor; [now apply sql_ltb_asym | exact Hall].
    + apply newest_first_cons. split.
      * constructor; [exact Hab|]. eapply Forall_impl; [exact Hall|].
        intros c Hc. cbn in *. now apply (sql_geb_trans _ (pub_date b)).
      * apply newest_first_cons. split; assumption.
Qed.

Lemma order_by_newest_first (l : list article) :
  newest_first (order_by_pub_date_desc l).
Proof.
  induction l as [|a l IH]; cbn; [apply newest_first_nil|].
  now apply insert_desc_newest_first.
Qed.

Lemma sql_limit_newest_first (n : Z) (l : list article) :
  newest_first l -> newest_first (sql_limit n l).
Proof.
  unfold sql_limit. destruct (n <? 0); [auto|].
  intros Hl i j a b Hij Ha Hb.
  apply lookup_take_Some in Ha as [Ha _]. apply lookup_take_Some in Hb as [Hb _].
  now apply (Hl i j a b).
Qed.

Lemma sql_limit_length (n : Z) (l : list article) :
  0 <= n -> Z.of_nat (length (sql_limit n l)) <= n.
Proof.
  intros Hn. unfold sql_limit. destruct (Z.ltb_spec n 0); [lia|].
  rewrite length_take. lia.
Qed.

Lemma sql_limit_all (n : Z) (l : list article) :
  n < 0 \/ Z.of_nat (length l) <= n -> sql_limit n l = l.
Proof.
  intros Hn. unfold sql_limit. destruct (Z.ltb_spec n 0); [reflexivity|].
  apply take_ge. lia.
Qed.

End OrderFacts.

(** X7.  The ingestion loop processes the pending articles newest first:
    in the rows it selects no article comes before one with a later
    publication date, and undated articles come after all dated ones;
    without a limit the rows are exactly the stored articles with a NULL
    identifier, each once; with a limit, no article left out is newer than
    one selected. *)
Theorem pending_processed_newest_first (conn : Database.db) (limit : option Z) :
  Store.newest_first (Ingestion.select_pending conn limit) /\
  Ingestion.select_pending conn None
  ≡ₚ List.filter Database.is_pending (Database.articles conn) /\
  (forall a b, In a (Ingestion.select_pending conn limit) ->
               In b (Ingestion.select_pending conn None) ->
               ~ In b (Ingestion.select_pending conn limit) ->
               Database.sql_ltb (Database.pub_date a) (Database.pub_date b)
               = false).
Proof.
  assert (Store.newest_first (Ingestion.select_pending conn None)) as Hall
      by apply order_by_newest_first.
  split; [|split].
  - unfold Ingestion.select_pending. destruct limit as [n|]; [|exact Hall].
    destruct (n =? 0); [exact Hall|].
    apply sql_limit_newest_first, order_by_newest_first.
  - apply order_by_pub_date_desc_perm.
  - intros a b Ha Hb Hnb.
    unfold Ingestion.select_pending in *. destruct limit as [n|]; [|contradiction].
    destruct (n =? 0); [contradiction|].
    unfold Database.sql_limit in *. destruct (n <? 0); [contradiction|].
    set (l := Database.order_by_pub_date_desc _) in *.
    apply list_elem_of_In, list_elem_of_lookup in Ha as [i Hi].
    apply list_elem_of_In, list_elem_of_lookup in Hb as [j Hj].
    apply lookup_take_Some in Hi as [Hi Hlt].
    apply (Hall i j a b); [|exact Hi | exact Hj].
    destruct (Nat.lt_ge_cases i j) as [|Hge]; [assumption|].
    exfalso. apply Hnb. apply list_elem_of_In, list_elem_of_lookup. exists j.
    apply lookup_take_Some. split; [exact Hj | lia].
Qed.

(** X8.  [get_articles_by_feed] returns articles of the given feed only,
    newest first, at most [limit] of them when the limit is not negative,
    and all of them (each once) when the limit is negative or not smaller
    than their number. *)
Theorem get_articles_by_feed_spec (c : Store.conn) (feed_id limit : Z) :
  let rows := Store.get_articles_by_feed c feed_id limit in
  let all := List.filter (fun a => Database.feed_id a =? feed_id)
                         (Database.articles (Store.arts c)) in
  Store.newest_first rows /\
  (forall a, In a rows ->
             In a (Database.articles (Store.arts c)) /\
             Database.feed_id a = feed_id) /\
  (0 <= limit -> Z.of_nat (length rows) <= limit) /\
  (limit < 0 \/ Z.of_nat (length all) <= limit -> rows ≡ₚ all).
Proof.
  cbv zeta. unfold Store.get_articles_by_feed.
  split; [apply sql_limit_newest_first, order_by_newest_first|].
  split; [|split].
  - intros a Ha. apply list_elem_of_In in Ha.
    apply (sublist_subseteq _ _ (sql_limit_sublist _ _)) in Ha.
    rewrite order_by_pub_date_desc_perm in Ha.
    apply list_elem_of_In, filter_In in Ha as [Hin He].
    split; [exact Hin | now apply Z.eqb_eq].
  - apply sql_limit_length.
  - intros Hl. rewrite sql_limit_all; [apply order_by_pub_date_desc_perm|].
    now rewrite (Permutation_length (order_by_pub_date_desc_perm _)).
Qed.

(** X8 on a store with two articles of feed 1: a limit of 1 gives one
    row. *)
Lemma get_articles_by_feed_spec_witness :
  Z.of_nat (length (Store.get_articles_by_feed
                      (Store.with_arts Store.init_db Ingestion.three_pending)
                      1 1)) <= 1.
Proof.
  destruct (get_articles_by_feed_spec
              (Store.with_arts Store.init_db Ingestion.three_pending) 1 1)
    as (_ & _ & H & _).
  apply H. lia.
Defined.

(** X9.  A limit of 0 means "no limit" to the ingestion loop and "no row"
    to [get_articles_without_lightrag_id]: for any other limit the two
    select the same rows, for 0 the loop selects every pending article and
    the query none. *)
Theorem limit_zero_differs (c : Store.conn) (limit : Z) :
  (limit <> 0 ->
   Ingestion.select_pending (Store.arts c) (Some limit)
   = Store.get_articles_without_lightrag_id c limit) /\
  Store.get_articles_without_lightrag_id c 0 = [] /\
  Ingestion.select_pending (Store.arts c) (Some 0)
  = Ingestion.select_pending (Store.arts c) None /\
  length (Ingestion.select_pending (Store.arts c) (Some 0))
  = Ingestion.get_pending_count (Store.arts c).
Proof.
  split; [|split; [|split]].
  - intros Hne. unfold Ingestion.select_pending,
      Store.get_articles_without_lightrag_id.
    now destruct (Z.eqb_spec limit 0).
  - reflexivity.
  - reflexivity.
  - apply (select_pending_length (Store.arts c) (Some 0)).
Qed.

(** X9 on the store with three pending articles, with a limit of 2. *)
Lemma limit_zero_differs_witness :
  Ingestion.select_pending Ingestion.three_pending (Some 2)
  = Store.get_articles_without_lightrag_id
      (Store.with_arts Store.init_db Ingestion.three_pending) 2.
Proof.
  destruct (limit_zero_differs
              (Store.with_arts Store.init_db Ingestion.three_pending) 2)
    as (H & _).
  apply H. lia.
Defined.

(** ** Feeds and reading history *)

Section StoreFacts.
Import Database Store.

Lemma get_feed_by_url_Some (c : conn) (u : string) (f : feed) :
  get_feed_by_url c u = Some f -> In f (feeds c) /\ f_url f = u.
Proof.
  unfold get_feed_by_url. intros H. apply find_some in H as [Hin He].
  split; [exact Hin | now apply String.eqb_eq].
Qed.

Lemma get_feed_by_url_None (c : conn) (u : string) :
  get_feed_by_url c u = None -> ~ In u (map f_url (feeds c)).
Proof.
  unfold get_feed_by_url. intros H Hin.
  apply in_map_iff in Hin as (f & He & Hin).
  apply (find_none _ _ H) in Hin. cbn in Hin. rewrite He in Hin.
  now rewrite String.eqb_refl in Hin.
Qed.

Lemma get_feed_Some (c : conn) (i : Z) (f : feed) :
  get_feed c i = Some f -> In f (feeds c) /\ f_id f = i.
Proof.
  unfold get_feed. intros H. apply find_some in H as [Hin He].
  split; [exact Hin | now apply Z.eqb_eq].
Qed.

Lemma get_feed_of_In (c : conn) (f : feed) :
  NoDup (map f_id (feeds c)) -> In f (feeds c) -> get_feed c (f_id f) = Some f.
Proof.
  unfold get_feed. intros Hnd Hin.
  destruct (find (fun g => f_id g =? f_id f) (feeds c)) as [g|] eqn:Hf.
  - apply find_some in Hf as [Hg He]. apply Z.eqb_eq in He.
    f_equal. now apply (NoDup_map_In_eq f_id (feeds c)).
  - eapply find_none in Hf; [|exact Hin]. cbn in Hf. now rewrite Z.eqb_refl in Hf.
Qed.

Lemma add_feed_existing (c : conn) (u : string) (t : option string) (f : feed) :
  get_feed_by_url c u = Some f -> add_feed c u t = (c, f_id f).
Proof. intros H. unfold add_feed. now rewrite H. Qed.

Lemma add_feed_fresh (c : conn) (u : string) (t : option string) :
  get_feed_by_url c u = None ->
  add_feed c u t
  = (mk_conn (feeds c ++ [mk_feed (feed_seq c + 1) u t None true])
             (feed_seq c + 1) (arts c) (history c) (history_seq c),
     feed_seq c + 1).
Proof. intros H. unfold add_feed. now rewrite H. Qed.

Lemma find_app_r {A} (p : A -> bool) (l l' : list A) :
  find p l = None -> find p (l ++ l') = find p l'.
Proof.
  induction l as [|x l IH]; cbn; [reflexivity|].
  destruct (p x); [discriminate | exact IH].
Qed.

Lemma find_app_l {A} (p : A -> bool) (l l' : list A) (x : A) :
  find p l = Some x -> find p (l ++ l') = Some x.
Proof.
  induction l as [|y l IH]; cbn; [discriminate|].
  destruct (p y); [auto | exact IH].
Qed.

Lemma add_feed_well_formed (c : conn) (u : string) (t : option string) :
  well_formed c -> well_formed (fst (add_feed c u t)).
Proof.
  intros (Hid & Hurl & Hrg & Hsq & Harts). unfold add_feed.
  destruct (get_feed_by_url c u) as [f|] eqn:Hf; cbn [fst];
    [exact (conj Hid (conj Hurl (conj Hrg (conj Hsq Harts))))|].
  apply get_feed_by_url_None in Hf.
  split; [|split; [|split; [|split]]]; cbn [feeds feed_seq arts].
  - rewrite map_app. cbn. apply NoDup_app. repeat split.
    + exact Hid.
    + intros x Hx Hx'. apply list_elem_of_In in Hx.
      apply list_elem_of_singleton in Hx'. subst x.
      apply in_map_iff in Hx as (f & Hf' & Hin).
      rewrite Forall_forall in Hrg.
      apply list_elem_of_In in Hin. specialize (Hrg f Hin). lia.
    + apply NoDup_singleton.
  - rewrite map_app. cbn. apply NoDup_app. repeat split.
    + exact Hurl.
    + intros x Hx Hx'. apply list_elem_of_In in Hx.
      apply list_elem_of_singleton in Hx'. subst x. contradiction.
    + apply NoDup_singleton.
  - apply Forall_app. split.
    + eapply Forall_impl; [exact Hrg|]. cbn. intros f Hf'. lia.
    + constructor; [cbn; lia|constructor].
  - lia.
  - exact Harts.
Qed.

Lemma update_feed_ids (c : conn) (i : Z) (g : feed -> feed) :
  (forall f, f_id (g f) = f_id f) ->
  map f_id (feeds (update_feed c i g)) = map f_id (feeds c).
Proof.
  intros Hg. cbn. rewrite map_map. apply map_ext. intros f.
  destruct (f_id f =? i); [apply Hg | reflexivity].
Qed.

Lemma update_feed_urls (c : conn) (i : Z) (g : feed -> feed) :
  (forall f, f_url (g f) = f_url f) ->
  map f_url (feeds (update_feed c i g)) = map f_url (feeds c).
Proof.
  intros Hg. cbn. rewrite map_map. apply map_ext. intros f.
  destruct (f_id f =? i); [apply Hg | reflexivity].
Qed.

Lemma update_feed_well_formed (c : conn) (i : Z) (g : feed -> feed) :
  (forall f, f_id (g f) = f_id f) -> (forall f, f_url (g f) = f_url f) ->
  well_formed c -> well_formed (update_feed c i g).
Proof.
  intros Hgi Hgu (Hid & Hurl & Hrg & Hsq & Harts). unfold well_formed.
  rewrite update_feed_ids, update_feed_urls by assumption.
  split; [exact Hid|]. split; [exact Hurl|]. split; [|split; assumption].
  cbn. apply Forall_map. eapply Forall_impl; [exact Hrg|].
  intros f Hf. cbn. destruct (f_id f =? i); [rewrite Hgi|]; exact Hf.
Qed.

Lemma get_feed_update_same (c : conn) (i : Z) (g : feed -> feed) (f : feed) :
  (forall f, f_id (g f) = f_id f) ->
  get_feed c i = Some f -> get_feed (update_feed c i g) i = Some (g f).
Proof.
  intros Hg. unfold get_feed. cbn.
  induction (feeds c) as [|x l IH]; cbn; [discriminate|].
  destruct (f_id x =? i) eqn:Hx; cbn.
  - rewrite Hg, Hx. now intros [= ->].
  - rewrite Hx. exact IH.
Qed.

Lemma get_feed_update_other (c : conn) (i j : Z) (g : feed -> feed) :
  (forall f, f_id (g f) = f_id f) -> j <> i ->
  get_feed (update_feed c i g) j = get_feed c j.
Proof.
  intros Hg Hne. unfold get_feed. cbn.
  induction (feeds c) as [|x l IH]; cbn; [reflexivity|].
  destruct (f_id x =? i) eqn:Hx; cbn.
  - apply Z.eqb_eq in Hx. rewrite Hg.
    assert ((f_id x =? j) = false) as -> by (apply Z.eqb_neq; congruence).
    exact IH.
  - destruct (f_id x =? j); [reflexivity | exact IH].
Qed.

Lemma get_feed_by_url_update (c : conn) (i : Z) (g : feed -> feed) (u : string) :
  (forall f, f_url (g f) = f_url f) ->
  get_feed_by_url (update_feed c i g) u
  = option_map (fun f => if f_id f =? i then g f else f) (get_feed_by_url c u).
Proof.
  intros Hg. unfold get_feed_by_url. cbn.
  induction (feeds c) as [|x l IH]; cbn [map find]; [reflexivity|].
  assert (f_url (if f_id x =? i then g x else x) = f_url x) as ->
      by (destruct (f_id x =? i); [apply Hg | reflexivity]).
  destruct (String.eqb (f_url x) u); [reflexivity | exact IH].
Qed.

End StoreFacts.

Lemma store_well_formed_init : Store.well_formed Store.init_db.
Proof.
  split; [constructor|]. split; [constructor|]. split; [constructor|].
  split; [cbn; lia | apply well_formed_init].
Qed.

(** X10.  [add_feed] is get-or-create on the url: on a well-formed store it
    returns the id under which the url is stored afterwards; when the url
    was already there the store is left as it is (the title given is
    ignored) and the existing id is returned; when it was not, one active
    feed with the given title and a fresh id, greater than every id in
    use, is added; a second call with the same url, whatever the title,
    returns the same id and changes nothing. *)
Theorem add_feed_get_or_create (c : Store.conn) (url : string)
        (title title' : option string) :
  Store.well_formed c ->
  let c1 := fst (Store.add_feed c url title) in
  let i := snd (Store.add_feed c url title) in
  Store.well_formed c1 /\
  (exists f, Store.get_feed_by_url c1 url = Some f /\
             Store.get_feed c1 i = Some f /\ Store.f_id f = i) /\
  (forall f0, Store.get_feed_by_url c url = Some f0 ->
              c1 = c /\ i = Store.f_id f0) /\
  (Store.get_feed_by_url c url = None ->
   Store.get_feed c1 i = Some (Store.mk_feed i url title None true) /\
   Store.feeds c1 = Store.feeds c ++ [Store.mk_feed i url title None true] /\
   Forall (fun f => Store.f_id f < i) (Store.feeds c)) /\
  Store.add_feed c1 url title' = (c1, i) /\
  Store.arts c1 = Store.arts c /\ Store.history c1 = Store.history c.
Proof.
  intros Hwf. cbv zeta.
  pose proof (add_feed_well_formed c url title Hwf) as Hwf1.
  destruct (Store.get_feed_by_url c url) as [f0|] eqn:Hf.
  - rewrite (add_feed_existing c url title f0 Hf). cbn [fst snd] in *.
    destruct (get_feed_by_url_Some c url f0 Hf) as [Hin _].
    split; [exact Hwf|]. split.
    { exists f0. repeat split; [exact Hf|]. apply get_feed_of_In; [apply Hwf | exact Hin]. }
    split; [intros f [= <-]; auto|]. split; [discriminate|].
    split; [exact (add_feed_existing c url title' f0 Hf) | auto].
  - rewrite (add_feed_fresh c url title Hf) in *. cbn [fst snd] in *.
    set (f := Store.mk_feed (Store.feed_seq c + 1) url title None true) in *.
    assert (Store.get_feed_by_url
              (Store.mk_conn (Store.feeds c ++ [f]) (Store.feed_seq c + 1)
                 (Store.arts c) (Store.history c) (Store.history_seq c)) url
            = Some f) as Hget.
    { unfold Store.get_feed_by_url. cbn [Store.feeds].
      rewrite find_app_r by exact Hf. cbn. now rewrite String.eqb_refl. }
    assert (Store.get_feed
              (Store.mk_conn (Store.feeds c ++ [f]) (Store.feed_seq c + 1)
                 (Store.arts c) (Store.history c) (Store.history_seq c))
              (Store.feed_seq c + 1)
            = Some f) as Hgeti.
    { apply (get_feed_of_In _ f); [apply Hwf1|].
      cbn. apply in_or_app. right. now left. }
    split; [exact Hwf1|]. split; [exists f; auto|].
    split; [discriminate|]. split.
    { intros _. split; [exact Hgeti|]. split; [reflexivity|].
      destruct Hwf as (_ & _ & Hrg & _). eapply Forall_impl; [exact Hrg|].
      cbn. intros g Hg. lia. }
    split; [exact (add_feed_existing _ url title' f Hget) | auto].
Qed.

(** X10 on the empty store: the same url added twice. *)
Lemma add_feed_get_or_create_witness :
  Store.add_feed
    (fst (Store.add_feed Store.init_db "https://example.com/feed" (Some "Test Feed")))
    "https://example.com/feed" None
  = (fst (Store.add_feed Store.init_db "https://example.com/feed" (Some "Test Feed")),
     1).
Proof.
  destruct (add_feed_get_or_create Store.init_db "https://example.com/feed"
              (Some "Test Feed") None)
    as (_ & _ & _ & _ & H & _).
  - apply store_well_formed_init.
  - exact H.
Defined.

Lemma update_feed_absent (c : Store.conn) (i : Z) (g : Store.feed -> Store.feed) :
  Store.get_feed c i = None -> Store.update_feed c i g = c.
Proof.
  intros Hnone. unfold Store.update_feed, Store.with_feeds.
  destruct c as [fs sq a h hs]. cbn in *. f_equal.
  rewrite <- (map_id fs) at 2. apply map_ext_in. intros f Hf.
  unfold Store.get_feed in Hnone. cbn in Hnone.
  apply (find_none _ _ Hnone) in Hf. cbn in Hf. now rewrite Hf.
Qed.

(** X11.  [deactivate_feed] hides a feed from the bulk fetch and from
    nothing else: the active feeds afterwards are the active feeds before
    without that feed, the list of all feeds keeps its ids, the articles
    are untouched; [activate_feed] brings the feed back, restoring the very
    store if the feed was active; on an id that is not stored both leave
    the store as it is, without an error. *)
Theorem deactivate_feed_hides (c : Store.conn) (i : Z) :
  Store.well_formed c ->
  let c' := Store.deactivate_feed c i in
  (forall g, In g (Store.get_all_feeds c' true) <->
             In g (Store.get_all_feeds c true) /\ Store.f_id g <> i) /\
  map Store.f_id (Store.get_all_feeds c' false)
  = map Store.f_id (Store.get_all_feeds c false) /\
  Store.arts c' = Store.arts c /\
  (forall f, Store.get_feed c i = Some f ->
             Store.get_feed c' i = Some (Store.set_active false f) /\
             In (Store.set_active true f)
                (Store.get_all_feeds (Store.activate_feed c' i) true) /\
             (Store.f_active f = true -> Store.activate_feed c' i = c)) /\
  (Store.get_feed c i = None ->
   c' = c /\ Store.activate_feed c i = c).
Proof.
  intros Hwf. cbv zeta. split; [|split; [|split; [|split]]].
  - intros g. unfold Store.get_all_feeds, Store.deactivate_feed. cbn.
    rewrite !filter_In, in_map_iff. split.
    + intros [(x & Hx & Hin) Hact]. destruct (Z.eqb_spec (Store.f_id x) i).
      * subst g. discriminate Hact.
      * subst g. auto.
    + intros [[Hin Hact] Hne]. split; [|exact Hact]. exists g.
      split; [|exact Hin]. now destruct (Z.eqb_spec (Store.f_id g) i).
  - apply update_feed_ids. reflexivity.
  - reflexivity.
  - intros f Hf.
    assert (Store.get_feed (Store.deactivate_feed c i) i
            = Some (Store.set_active false f)) as Hd
        by (apply get_feed_update_same; [reflexivity | exact Hf]).
    split; [exact Hd|]. split.
    + assert (Store.get_feed (Store.activate_feed (Store.deactivate_feed c i) i) i
              = Some (Store.set_active true (Store.set_active false f))) as Ha
          by (apply get_feed_update_same; [reflexivity | exact Hd]).
      apply get_feed_Some in Ha as [Hin _].
      unfold Store.get_all_feeds. apply filter_In. split; [exact Hin | reflexivity].
    + intros Hact. destruct (get_feed_Some c i f Hf) as [Hin Hid].
      unfold Store.activate_feed, Store.deactivate_feed, Store.update_feed,
        Store.with_feeds.
      destruct c as [fs sq a h hs]. cbn in *. f_equal.
      rewrite map_map. rewrite <- (map_id fs) at 2. apply map_ext_in.
      intros g Hg. destruct (Z.eqb_spec (Store.f_id g) i) as [He|Hne]; cbn.
      * rewrite He, Z.eqb_refl.
        assert (g = f) as ->.
        { apply (NoDup_map_In_eq Store.f_id fs); [apply Hwf | assumption..|congruence]. }
        destruct f as [fi fu ft fl fa]. cbn in *. now subst fa.
      * now destruct (Z.eqb_spec (Store.f_id g) i).
  - intros Hnone. split; now apply update_feed_absent.
Qed.

(** X11 on a store with one feed. *)
Lemma deactivate_feed_hides_witness :
  Store.get_all_feeds
    (Store.deactivate_feed
       (fst (Store.add_feed Store.init_db "https://example.com/feed" None)) 1)
    true
  = [] /\
  Store.activate_feed
    (Store.deactivate_feed
       (fst (Store.add_feed Store.init_db "https://example.com/feed" None)) 1) 1
  = fst (Store.add_feed Store.init_db "https://example.com/feed" None).
Proof.
  split; [reflexivity|].
  destruct (deactivate_feed_hides
              (fst (Store.add_feed Store.init_db "https://example.com/feed" None)) 1)
    as (_ & _ & _ & H & _).
  - apply add_feed_well_formed, store_well_formed_init.
  - apply (H (Store.mk_feed 1 "https://example.com/feed" None None true));
      reflexivity.
Defined.

Section DeleteFacts.
Import Database Store.

Lemma find_filter_keep {A} (q p : A -> bool) (l : list A) (a : A) :
  find q l = Some a -> p a = true -> find q (List.filter p l) = Some a.
Proof.
  induction l as [|x l IH]; cbn; [discriminate|].
  destruct (q x) eqn:Hq.
  - intros [= ->] Hp. rewrite Hp. cbn. now rewrite Hq.
  - intros Hf Hp. destruct (p x); cbn; [rewrite Hq|]; auto.
Qed.

Lemma find_filter_none {A} (q p : A -> bool) (l : list A) :
  (forall x, q x = true -> p x = false) -> find q (List.filter p l) = None.
Proof.
  intros H. induction l as [|x l IH]; cbn; [reflexivity|].
  destruct (p x) eqn:Hp; [|exact IH]. cbn.
  destruct (q x) eqn:Hq; [|exact IH]. rewrite (H x Hq) in Hp. discriminate.
Qed.

Lemma in_article_ids_of_feed (c : conn) (fid j : Z) :
  existsb (Z.eqb j) (article_ids_of_feed c fid) = true
  <-> exists a, In a (articles (arts c)) /\ feed_id a = fid /\ id a = j.
Proof.
  rewrite existsb_exists. unfold article_ids_of_feed. split.
  - intros (x & Hx & He). apply Z.eqb_eq in He. subst x.
    apply in_map_iff in Hx as (a & Ha & Hin). apply filter_In in Hin as [Hin Hf].
    exists a. repeat split; [exact Hin | now apply Z.eqb_eq | exact Ha].
  - intros (a & Hin & Hf & Ha). exists j. split; [|apply Z.eqb_refl].
    apply in_map_iff. exists a. split; [exact Ha|]. apply filter_In.
    split; [exact Hin | now apply Z.eqb_eq].
Qed.

End DeleteFacts.

(** X12.  [delete_feed] cascades: afterwards the feed is gone, so are
    exactly the articles of that feed and exactly the history rows of those
    articles, and everything else is as before; a store in which every
    article has its feed and every history row its article is still such a
    store, and a well-formed store is still well-formed. *)
Theorem delete_feed_cascades (c : Store.conn) (fid : Z) :
  let c' := Store.delete_feed c fid in
  Store.get_feed c' fid = None /\
  (forall g, In g (Store.feeds c') <->
             In g (Store.feeds c) /\ Store.f_id g <> fid) /\
  (forall a, In a (Database.articles (Store.arts c')) <->
             In a (Database.articles (Store.arts c)) /\
             Database.feed_id a <> fid) /\
  (forall h, In h (Store.history c') <->
             In h (Store.history c) /\
             ~ exists a, In a (Database.articles (Store.arts c)) /\
                         Database.feed_id a = fid /\
                         Database.id a = Store.h_article_id h) /\
  (Store.references_ok c -> Store.references_ok c') /\
  (Store.well_formed c -> Store.well_formed c').
Proof.
  cbv zeta.
  assert (forall g, In g (Store.feeds (Store.delete_feed c fid)) <->
                    In g (Store.feeds c) /\ Store.f_id g <> fid) as Hfeeds.
  { intros g. cbn. rewrite filter_In, negb_true_iff, Z.eqb_neq. tauto. }
  assert (forall a, In a (Database.articles (Store.arts (Store.delete_feed c fid)))
                    <-> In a (Database.articles (Store.arts c)) /\
                        Database.feed_id a <> fid) as Harts.
  { intros a. cbn. rewrite filter_In, negb_true_iff, Z.eqb_neq. tauto. }
  assert (forall h, In h (Store.history (Store.delete_feed c fid)) <->
                    In h (Store.history c) /\
                    ~ exists a, In a (Database.articles (Store.arts c)) /\
                                Database.feed_id a = fid /\
                                Database.id a = Store.h_article_id h) as Hhist.
  { intros h. cbn. rewrite filter_In, negb_true_iff.
    rewrite <- (in_article_ids_of_feed c fid (Store.h_article_id h)).
    destruct (existsb _ _); split; intros [? ?]; split; congruence. }
  split; [|split; [exact Hfeeds|split; [exact Harts|split; [exact Hhist|split]]]].
  - unfold Store.get_feed. cbn. apply find_filter_none.
    intros x Hx. now rewrite Hx.
  - intros [Ha Hh]. split.
    + apply Forall_forall. intros a Hin. apply list_elem_of_In, Harts in Hin as [Hin Hne].
      rewrite Forall_forall in Ha. apply list_elem_of_In, Ha in Hin as [f Hf].
      exists f. unfold Store.get_feed in *. cbn.
      apply find_filter_keep; [exact Hf|].
      apply find_some in Hf as [_ He]. apply Z.eqb_eq in He.
      apply negb_true_iff, Z.eqb_neq. congruence.
    + apply Forall_forall. intros h Hin.
      apply list_elem_of_In, Hhist in Hin as [Hin Hno].
      rewrite Forall_forall in Hh. apply list_elem_of_In, Hh in Hin as [a Hget].
      exists a. unfold Store.get_article, Database.get_article in *. cbn.
      apply find_filter_keep; [exact Hget|].
      apply find_some in Hget as [Hin He]. apply Z.eqb_eq in He.
      apply negb_true_iff, Z.eqb_neq. intros Hf. apply Hno. eauto.
  - intros (Hid & Hurl & Hrg & Hsq & Hwa).
    split; [now apply NoDup_map_filter|]. split; [now apply NoDup_map_filter|].
    split; [|split; [exact Hsq | now apply delete_feed_well_formed]].
    cbn. rewrite Forall_forall in *. intros g Hg. apply Hrg.
    apply list_elem_of_In in Hg. apply filter_In in Hg as [Hg _].
    now apply list_elem_of_In.
Qed.

Section StatsFacts.
Import Database Store.

Lemma was_read_iff (c : conn) (a : article) :
  was_read c a = true
  <-> exists h, In h (history c) /\ h_article_id h = id a /\ h_action h = "read".
Proof.
  unfold was_read. rewrite existsb_exists. split.
  - intros (h & Hin & Hb). apply andb_true_iff in Hb as [Hi Ha].
    exists h. repeat split; [exact Hin | now apply Z.eqb_eq | now apply String.eqb_eq].
  - intros (h & Hin & Hi & Ha). exists h. split; [exact Hin|].
    apply andb_true_iff. split; [now apply Z.eqb_eq | now apply String.eqb_eq].
Qed.

Lemma read_ids_iff (c : conn) (i : Z) :
  In i (get_read_article_ids c)
  <-> exists h, In h (history c) /\ h_article_id h = i /\ h_action h = "read".
Proof.
  unfold get_read_article_ids.
  rewrite <- list_elem_of_In, elem_of_remove_dups, list_elem_of_In, in_map_iff.
  split.
  - intros (h & Hi & Hin). apply filter_In in Hin as [Hin Ha].
    exists h. repeat split; [exact Hin | exact Hi | now apply String.eqb_eq].
  - intros (h & Hin & Hi & Ha). exists h. split; [exact Hi|].
    apply filter_In. split; [exact Hin | now apply String.eqb_eq].
Qed.

(** In a store that honours its keys, the articles that were read are as
    many as the distinct article ids of the ['read'] rows. *)
Lemma read_articles_count (c : conn) :
  well_formed c -> references_ok c ->
  length (List.filter (was_read c) (articles (arts c)))
  = length (get_read_article_ids c).
Proof.
  intros (_ & _ & _ & _ & Hwa) [_ Hh].
  rewrite <- (length_map id).
  apply Permutation_length, NoDup_Permutation.
  - apply NoDup_map_filter, Hwa.
  - apply NoDup_remove_dups.
  - intros i. rewrite !list_elem_of_In, read_ids_iff, in_map_iff. split.
    + intros (a & Hi & Hin). apply filter_In in Hin as [_ Hr].
      apply was_read_iff in Hr as (h & Hin & Hhi & Ha).
      exists h. repeat split; [exact Hin | congruence | exact Ha].
    + intros (h & Hin & Hhi & Ha).
      rewrite Forall_forall in Hh.
      destruct (Hh h (proj2 (list_elem_of_In _ _) Hin)) as [a Hget].
      apply get_article_In in Hget as [Hain Hid].
      exists a. split; [congruence|]. apply filter_In. split; [exact Hain|].
      apply was_read_iff. exists h. repeat split; [exact Hin | congruence | exact Ha].
Qed.

Lemma filter_split_length {A} (p : A -> bool) (l : list A) :
  (length (List.filter p l) + length (List.filter (fun x => negb (p x)) l)
   = length l)%nat.
Proof.
  induction l as [|x l IH]; cbn; [reflexivity|].
  destruct (p x); cbn; lia.
Qed.

End StatsFacts.

(** X13.  In a well-formed store whose history rows all belong to stored
    articles, the counter [unread_articles] of [get_stats] (total minus
    read) is the number of articles [get_unread_articles] returns without
    a limit, hence not negative, and [read_articles] is the number of
    articles with a ['read'] row; [indexed_articles] is the ingested count.
    The dict has no key ["ingested_articles"], the one the [stats] command
    looks up. *)
Theorem get_stats_counts (c : Store.conn) :
  Store.well_formed c -> Store.references_ok c ->
  let stats := Store.get_stats c in
  stats !! "unread_articles"
  = Some (Z.of_nat (length (Store.get_unread_articles c (-1)))) /\
  stats !! "read_articles"
  = Some (Z.of_nat (length (List.filter (Store.was_read c)
                                        (Database.articles (Store.arts c))))) /\
  stats !! "total_articles"
  = Some (Z.of_nat (Database.total_articles (Store.arts c))) /\
  stats !! "indexed_articles"
  = Some (Z.of_nat (Ingestion.get_ingested_count (Store.arts c))) /\
  stats !! "ingested_articles" = None.
Proof.
  intros Hwf Href. cbv zeta. unfold Store.get_stats.
  pose proof (read_articles_count c Hwf Href) as Hread.
  pose proof (filter_split_length (Store.was_read c)
                (Database.articles (Store.arts c))) as Hsplit.
  split; [|split; [|split; [|split]]].
  - rewrite lookup_insert_eq. f_equal.
    unfold Store.get_unread_articles.
    rewrite sql_limit_all by (left; lia).
    rewrite (Permutation_length (order_by_pub_date_desc_perm _)). lia.
  - rewrite lookup_insert_ne by discriminate.
    rewrite lookup_insert_eq. now rewrite Hread.
  - do 3 (rewrite lookup_insert_ne by discriminate).
    now rewrite lookup_insert_eq.
  - do 2 (rewrite lookup_insert_ne by discriminate).
    now rewrite lookup_insert_eq.
  - do 6 (rewrite lookup_insert_ne by discriminate). apply lookup_empty.
Qed.

(** X13 on a store where one of two articles was read twice: one article
    counts as read and one as unread. *)
Lemma get_stats_counts_witness :
  Store.get_stats Store.read_twice !! "unread_articles" = Some 1 /\
  Store.get_stats Store.read_twice !! "read_articles" = Some 1.
Proof.
  assert (Store.well_formed Store.read_twice) as Hwf.
  { repeat apply conj; vm_compute; repeat constructor; try discriminate;
      rewrite ?elem_of_cons, ?elem_of_nil; intuition discriminate. }
  assert (Store.references_ok Store.read_twice) as Href.
  { split; repeat constructor; eexists; reflexivity. }
  destruct (get_stats_counts Store.read_twice Hwf Href) as (Hu & Hr & _).
  split; [exact Hu | exact Hr].
Defined.

(** ** Storing what was fetched *)

Section PipelineFacts.
Import Database Store FeedManager FeedPipeline.

Lemma store_add_article_fresh (c : conn) fid t ct l p :
  article_exists c l = false ->
  fst (Store.add_article c fid t ct l p)
  = with_arts c
      (mk_db (articles (arts c)
              ++ [mk_article (article_seq (arts c) + 1) fid t ct l p None])
             (article_seq (arts c) + 1)).
Proof.
  intros H. unfold Store.add_article, article_exists in *.
  now rewrite (add_article_fresh (arts c) fid t ct l p H).
Qed.

(** The loop that stores the fetched articles appends rows to the articles
    table and touches nothing else; it counts the rows it appends; every
    row it appends belongs to the feed and is unmarked; afterwards every
    fetched link is stored. *)
Lemma store_articles_spec (fid : Z) (fetched : list Article) :
  forall (c : conn) (n : nat),
    exists added,
      let c' := fst (store_articles c fid fetched n) in
      snd (store_articles c fid fetched n) = (n + length added)%nat /\
      articles (arts c') = articles (arts c) ++ added /\
      (feeds c' = feeds c /\ feed_seq c' = feed_seq c /\
       history c' = history c /\ history_seq c' = history_seq c) /\
      Forall (fun a => feed_id a = fid /\ lightrag_id a = None) added /\
      (length added <= length fetched)%nat /\
      Forall (fun x => article_exists c' (a_link x) = true) fetched /\
      (Database.well_formed (arts c) -> Database.well_formed (arts c')).
Proof.
  induction fetched as [|x fetched IH]; intros c n; cbn [store_articles].
  - exists []. cbn [fst snd length]. rewrite app_nil_r.
    split; [lia|]. split; [reflexivity|]. split; [tauto|].
    split; [constructor|]. split; [lia|]. split; [constructor | tauto].
  - destruct (article_exists c (a_link x)) eqn:Hex.
    + destruct (IH c n) as (added & Hn & Hc & Hsame & Hadded & Hlen & Hall & Hwf).
      exists added. cbn [length]. cbv zeta in *.
      split; [exact Hn|]. split; [exact Hc|]. split; [exact Hsame|].
      split; [exact Hadded|]. split; [lia|]. split; [|exact Hwf].
      constructor; [|exact Hall].
      unfold article_exists in *.
      apply article_exists_true. rewrite Hc, map_app. apply in_or_app. left.
      now apply article_exists_true.
    + rewrite (store_add_article_fresh c fid _ _ _ _ Hex).
      set (row := mk_article (article_seq (arts c) + 1) fid (a_title x)
                             (a_content x) (a_link x) (a_pub_date x) None).
      set (c1 := with_arts c (mk_db (articles (arts c) ++ [row])
                                    (article_seq (arts c) + 1))).
      destruct (IH c1 (Datatypes.S n))
        as (added & Hn & Hc & Hsame & Hadded & Hlen & Hall & Hwf).
      exists (row :: added). cbn [length]. cbv zeta in *.
      split; [rewrite Hn; lia|]. split.
      { rewrite Hc. unfold c1, with_arts. cbn. now rewrite <- app_assoc. }
      split; [exact Hsame|].
      split; [constructor; [now split | exact Hadded]|].
      split; [lia|]. split.
      { constructor; [|exact Hall].
        unfold article_exists. apply article_exists_true.
        rewrite Hc. unfold c1. cbn. rewrite !map_app. apply in_or_app. left.
        apply in_or_app. right. now left. }
      intros Hw. apply Hwf. unfold c1. cbn [arts with_arts].
      pose proof (add_article_well_formed (arts c) fid (a_title x) (a_content x)
                    (a_link x) (a_pub_date x) Hw) as Hw1.
      unfold article_exists in Hex.
      now rewrite (add_article_fresh (arts c) _ _ _ _ _ Hex) in Hw1.
Qed.

(** When every fetched link is stored already, the loop changes nothing. *)
Lemma store_articles_known (fid : Z) (fetched : list Article) (c : conn) (n : nat) :
  Forall (fun x => article_exists c (a_link x) = true) fetched ->
  store_articles c fid fetched n = (c, n).
Proof.
  induction 1 as [|x fetched Hx _ IH]; cbn [store_articles]; [reflexivity|].
  now rewrite Hx.
Qed.

End PipelineFacts.

Section FetchStoreFacts.
Import Database Store FeedManager FeedPipeline.
Variable datetime_of_struct_time : list Z -> option Z.
Variable parse : string -> parsed_feed + string.

Local Abbreviation fetch_feed := (FeedManager.fetch_feed datetime_of_struct_time parse).
Local Abbreviation fetch_and_store_feed :=
  (FeedPipeline.fetch_and_store_feed datetime_of_struct_time parse).

Lemma find_is_Some {A} (key : A -> Z) (l : list A) (j : Z) :
  is_Some (find (fun x => key x =? j) l) <-> In j (map key l).
Proof.
  induction l as [|x l IH]; cbn.
  - split; [intros [? H]; discriminate | contradiction].
  - destruct (Z.eqb_spec (key x) j) as [He|Hne].
    + split; [auto | eauto].
    + rewrite IH. tauto.
Qed.

Lemma fetch_and_store_failure (c : conn) (now : Z) (url : string) (max : Z)
      (t : option string) (e : option string) :
  fetch_feed url max = (t, [], e) -> PyStr.truthy_opt e = true ->
  fetch_and_store_feed c now url max = (c, mk_FetchResult url None 0 0 e).
Proof.
  intros Hf He. unfold FeedPipeline.fetch_and_store_feed. now rewrite Hf, He.
Qed.

Lemma fetch_and_store_proceeds (c : conn) (now : Z) (url : string) (max : Z)
      (t : option string) (fetched : list Article) (e : option string) :
  fetch_feed url max = (t, fetched, e) ->
  (PyStr.truthy_opt e && match fetched with [] => true | _ => false end)%bool
  = false ->
  fetch_and_store_feed c now url max
  = (update_feed_last_fetched
       (fst (store_articles (fst (resolve_feed c url t))
                            (snd (resolve_feed c url t)) fetched 0))
       (snd (resolve_feed c url t)) now,
     mk_FetchResult url t (length fetched)
       (snd (store_articles (fst (resolve_feed c url t))
                            (snd (resolve_feed c url t)) fetched 0))
       e).
Proof.
  intros Hf He. unfold FeedPipeline.fetch_and_store_feed. rewrite Hf, He.
  unfold resolve_feed.
  destruct (get_feed_by_url c url) as [f|]; cbn [fst snd].
  - now destruct (store_articles _ _ _ _).
  - destruct (add_feed c url t) as [c1 fid]. cbn [fst snd].
    now destruct (store_articles _ _ _ _).
Qed.

Lemma resolve_feed_spec (c : conn) (url : string) (t : option string) :
  Store.well_formed c ->
  let c1 := fst (resolve_feed c url t) in
  let fid := snd (resolve_feed c url t) in
  Store.well_formed c1 /\
  arts c1 = arts c /\ history c1 = history c /\
  In fid (map f_id (feeds c1)) /\
  (forall j, In j (map f_id (feeds c)) -> In j (map f_id (feeds c1))) /\
  exists f, get_feed_by_url c1 url = Some f /\ f_id f = fid /\
            (PyStr.truthy_opt t = true -> PyStr.truthy_opt (f_title f) = true).
Proof.
  intros Hwf. unfold resolve_feed.
  destruct (get_feed_by_url c url) as [f0|] eqn:Hf; cbn [fst snd].
  - destruct (get_feed_by_url_Some c url f0 Hf) as [Hin Hu].
    destruct (PyStr.truthy_opt t && negb (PyStr.truthy_opt (f_title f0)))%bool
      eqn:Htest.
    + split; [now apply update_feed_well_formed|].
      split; [reflexivity|]. split; [reflexivity|].
      unfold update_feed_title. rewrite update_feed_ids by reflexivity.
      split; [now apply in_map|]. split; [auto|].
      rewrite get_feed_by_url_update by reflexivity. rewrite Hf. cbn.
      rewrite Z.eqb_refl. eexists. split; [reflexivity|]. split; [reflexivity|].
      cbn. now destruct t.
    + split; [exact Hwf|]. split; [reflexivity|]. split; [reflexivity|].
      split; [now apply in_map|]. split; [auto|].
      exists f0. split; [exact Hf|]. split; [reflexivity|].
      intros Ht. rewrite Ht in Htest. cbn in Htest.
      now apply negb_false_iff in Htest.
  - pose proof (add_feed_well_formed c url t Hwf) as Hwf1.
    rewrite (add_feed_fresh c url t Hf) in *. cbn [fst snd] in *.
    split; [exact Hwf1|]. split; [reflexivity|]. split; [reflexivity|].
    cbn [feeds]. rewrite map_app. split; [apply in_or_app; right; now left|].
    split; [intros j Hj; apply in_or_app; now left|].
    exists (mk_feed (feed_seq c + 1) url t None true).
    split; [|split; [reflexivity | auto]].
    unfold get_feed_by_url. cbn [feeds]. rewrite find_app_r by exact Hf.
    cbn. now rewrite String.eqb_refl.
Qed.

End FetchStoreFacts.

(** X14.  [fetch_and_store_feed] on a well-formed store: [articles_found]
    is the number of articles fetched and [articles_new], never greater,
    is the number of rows appended to the articles table, all of them
    unmarked; no stored row is changed or removed; afterwards every
    fetched link is stored; the store is still well-formed (no link
    twice), and if every article had its feed and every history row its
    article, that still holds. *)
Theorem fetch_and_store_accounting
        (datetime_of_struct_time : list Z -> option Z)
        (parse : string -> FeedManager.parsed_feed + string)
        (c : Store.conn) (now : Z) (feed_url : string) (max_articles : Z) :
  Store.well_formed c ->
  let fetched :=
    snd (fst (FeedManager.fetch_feed datetime_of_struct_time parse feed_url
                                     max_articles)) in
  let r := FeedPipeline.fetch_and_store_feed datetime_of_struct_time parse c now
             feed_url max_articles in
  let c' := fst r in
  Store.well_formed c' /\
  FeedPipeline.fr_articles_found (snd r) = length fetched /\
  (FeedPipeline.fr_articles_new (snd r) <= FeedPipeline.fr_articles_found (snd r))%nat /\
  (exists added,
      Database.articles (Store.arts c')
      = Database.articles (Store.arts c) ++ added /\
      length added = FeedPipeline.fr_articles_new (snd r) /\
      Forall (fun a => Database.lightrag_id a = None) added) /\
  Forall (fun x => Store.article_exists c' (FeedManager.a_link x) = true) fetched /\
  Store.history c' = Store.history c /\
  (Store.references_ok c -> Store.references_ok c').
Proof.
  intros Hwf. cbv zeta.
  destruct (FeedManager.fetch_feed datetime_of_struct_time parse feed_url
                                   max_articles) as [[t fetched] e] eqn:Hfetch.
  cbn [fst snd].
  destruct (PyStr.truthy_opt e && match fetched with [] => true | _ => false end)%bool
    eqn:Htest.
  - apply andb_true_iff in Htest as [He Hnil].
    destruct fetched; [|discriminate].
    rewrite (fetch_and_store_failure _ _ c now feed_url max_articles t e Hfetch He).
    cbn [fst snd FeedPipeline.fr_articles_found FeedPipeline.fr_articles_new length].
    split; [exact Hwf|]. split; [reflexivity|]. split; [lia|].
    split; [exists []; rewrite app_nil_r; repeat split; constructor|].
    split; [constructor|]. split; [reflexivity | auto].
  - rewrite (fetch_and_store_proceeds _ _ c now feed_url max_articles t fetched e
               Hfetch Htest).
    cbn [fst snd FeedPipeline.fr_articles_found FeedPipeline.fr_articles_new].
    destruct (resolve_feed_spec c feed_url t Hwf)
      as (Hwf1 & Harts1 & Hhist1 & Hfid & Hids & _).
    set (c1 := fst (FeedPipeline.resolve_feed c feed_url t)) in *.
    set (fid := snd (FeedPipeline.resolve_feed c feed_url t)) in *.
    destruct (store_articles_spec fid fetched c1 0)
      as (added & Hn & Hrows & (Hf2 & Hs2 & Hh2 & Hhs2) & Hadded & Hlen & Hall & Hwa).
    cbv zeta in *.
    set (c2 := fst (FeedPipeline.store_articles c1 fid fetched 0)) in *.
    assert (Store.well_formed c2) as Hwf2.
    { destruct Hwf1 as (H1 & H2 & H3 & H4 & H5).
      unfold Store.well_formed. rewrite Hf2, Hs2.
      exact (conj H1 (conj H2 (conj H3 (conj H4 (Hwa H5))))). }
    split; [now apply update_feed_well_formed|].
    split; [reflexivity|]. split; [rewrite Hn; lia|].
    split.
    { exists added. cbn [Store.arts Store.update_feed_last_fetched
                         Store.update_feed Store.with_feeds].
      rewrite Hrows, Harts1, Hn. repeat split.
      eapply Forall_impl; [exact Hadded|]. now intros a [_ H]. }
    split; [exact Hall|]. split; [cbn; congruence|].
    intros [Ha Hh]. split.
    + apply Forall_forall. intros a Hin. apply list_elem_of_In in Hin.
      cbn [Store.arts Store.update_feed_last_fetched Store.update_feed
           Store.with_feeds] in Hin.
      apply (find_is_Some Store.f_id).
      unfold Store.update_feed_last_fetched.
      rewrite update_feed_ids by reflexivity. rewrite Hf2.
      rewrite Hrows, Harts1 in Hin. apply in_app_or in Hin as [Hin|Hin].
      * apply Hids. apply (find_is_Some Store.f_id).
        rewrite Forall_forall in Ha. apply Ha. now apply list_elem_of_In.
      * rewrite Forall_forall in Hadded.
        destruct (Hadded a (proj2 (list_elem_of_In _ _) Hin)) as [-> _].
        exact Hfid.
    + apply Forall_forall. intros h Hin. apply list_elem_of_In in Hin.
      cbn [Store.history Store.update_feed_last_fetched Store.update_feed
           Store.with_feeds] in Hin.
      rewrite Hh2, Hhist1 in Hin.
      apply (find_is_Some Database.id).
      cbn [Store.arts Store.update_feed_last_fetched Store.update_feed
           Store.with_feeds].
      rewrite Hrows, Harts1, map_app. apply in_or_app. left.
      apply (find_is_Some Database.id).
      rewrite Forall_forall in Hh. apply Hh. now apply list_elem_of_In.
Qed.

(** X14 on the empty store and a feed with two entries. *)
Lemma fetch_and_store_accounting_witness :
  let r := FeedPipeline.fetch_and_store_feed (fun _ => None)
             (fun _ => inl FeedManager.bozo_feed) Store.init_db 100
             "https://example.com/feed" 50 in
  Store.well_formed (fst r) /\ FeedPipeline.fr_articles_found (snd r) = 2%nat.
Proof.
  cbv zeta.
  destruct (fetch_and_store_accounting (fun _ => None)
              (fun _ => inl FeedManager.bozo_feed) Store.init_db 100
              "https://example.com/feed" 50 store_well_formed_init)
    as (Hwf & Hfound & _).
  split; [exact Hwf | exact Hfound].
Defined.

(** X15.  Fetching the same feed again, with the feed unchanged, stores
    nothing new: the second [fetch_and_store_feed] reports the same
    [articles_found] and [articles_new = 0], and leaves the articles, the
    history and, but for the time of the last fetch, the feeds as the
    first call left them. *)
Theorem fetch_and_store_twice
        (datetime_of_struct_time : list Z -> option Z)
        (parse : string -> FeedManager.parsed_feed + string)
        (c : Store.conn) (now now' : Z) (feed_url : string) (max_articles : Z) :
  Store.well_formed c ->
  let r1 := FeedPipeline.fetch_and_store_feed datetime_of_struct_time parse c now
              feed_url max_articles in
  let r2 := FeedPipeline.fetch_and_store_feed datetime_of_struct_time parse
              (fst r1) now' feed_url max_articles in
  FeedPipeline.fr_articles_new (snd r2) = 0%nat /\
  FeedPipeline.fr_articles_found (snd r2) = FeedPipeline.fr_articles_found (snd r1) /\
  Store.arts (fst r2) = Store.arts (fst r1) /\
  Store.history (fst r2) = Store.history (fst r1) /\
  map (fun f => (Store.f_id f, Store.f_url f, Store.f_title f, Store.f_active f))
      (Store.feeds (fst r2))
  = map (fun f => (Store.f_id f, Store.f_url f, Store.f_title f, Store.f_active f))
        (Store.feeds (fst r1)).
Proof.
  intros Hwf. cbv zeta.
  destruct (FeedManager.fetch_feed datetime_of_struct_time parse feed_url
                                   max_articles) as [[t fetched] e] eqn:Hfetch.
  destruct (PyStr.truthy_opt e && match fetched with [] => true | _ => false end)%bool
    eqn:Htest.
  - apply andb_true_iff in Htest as [He Hnil].
    destruct fetched; [|discriminate].
    rewrite (fetch_and_store_failure _ _ c now feed_url max_articles t e Hfetch He).
    cbn [fst snd].
    rewrite (fetch_and_store_failure _ _ c now' feed_url max_articles t e Hfetch He).
    repeat split.
  - rewrite (fetch_and_store_proceeds _ _ c now feed_url max_articles t fetched e
               Hfetch Htest).
    cbn [fst snd FeedPipeline.fr_articles_found FeedPipeline.fr_articles_new].
    destruct (resolve_feed_spec c feed_url t Hwf)
      as (Hwf1 & _ & _ & _ & _ & f & Hget1 & Hfid & Htitle).
    set (c1 := fst (FeedPipeline.resolve_feed c feed_url t)) in *.
    set (fid := snd (FeedPipeline.resolve_feed c feed_url t)) in *.
    destruct (store_articles_spec fid fetched c1 0)
      as (added & _ & _ & (Hf2 & _) & _ & _ & Hall & _).
    cbv zeta in *.
    set (c2 := fst (FeedPipeline.store_articles c1 fid fetched 0)) in *.
    set (c' := Store.update_feed_last_fetched c2 fid now).
    assert (Store.get_feed_by_url c' feed_url
            = Some (Store.mk_feed (Store.f_id f) (Store.f_url f) (Store.f_title f)
                                  (Some now) (Store.f_active f))) as Hget'.
    { unfold c', Store.update_feed_last_fetched.
      rewrite get_feed_by_url_update by reflexivity.
      unfold Store.get_feed_by_url in *. rewrite Hf2, Hget1. cbn.
      now rewrite Hfid, Z.eqb_refl. }
    assert (FeedPipeline.resolve_feed c' feed_url t = (c', fid)) as Hres.
    { unfold FeedPipeline.resolve_feed. rewrite Hget'. cbn [Store.f_title Store.f_id].
      rewrite Hfid. destruct (PyStr.truthy_opt t) eqn:Ht; [|reflexivity].
      now rewrite (Htitle eq_refl). }
    assert (FeedPipeline.store_articles c' fid fetched 0 = (c', 0%nat)) as Hstore
        by (apply store_articles_known; exact Hall).
    rewrite (fetch_and_store_proceeds _ _ c' now' feed_url max_articles t fetched e
               Hfetch Htest).
    rewrite Hres. cbn [fst snd]. rewrite Hstore.
    cbn [fst snd FeedPipeline.fr_articles_found FeedPipeline.fr_articles_new].
    split; [reflexivity|]. split; [reflexivity|]. split; [reflexivity|].
    split; [reflexivity|].
    cbn [Store.feeds Store.update_feed_last_fetched Store.update_feed
         Store.with_feeds].
    rewrite (map_map _ _ (Store.feeds c')). apply map_ext. intros g.
    now destruct (Store.f_id g =? fid).
Qed.

(** X15 on the empty store and a feed with two entries. *)
Lemma fetch_and_store_twice_witness :
  FeedPipeline.fr_articles_new
    (snd (FeedPipeline.fetch_and_store_feed (fun _ => None)
            (fun _ => inl FeedManager.bozo_feed)
            (fst (FeedPipeline.fetch_and_store_feed (fun _ => None)
                    (fun _ => inl FeedManager.bozo_feed) Store.init_db 100
                    "https://example.com/feed" 50))
            200 "https://example.com/feed" 50))
  = 0%nat.
Proof.
  destruct (fetch_and_store_twice (fun _ => None)
              (fun _ => inl FeedManager.bozo_feed) Store.init_db 100 200
              "https://example.com/feed" 50 store_well_formed_init)
    as (H & _).
  exact H.
Defined.

Lemma update_feed_keeps_other (c : Store.conn) (i : Z)
      (h : Store.feed -> Store.feed) (g : Store.feed) :
  In g (Store.feeds c) -> Store.f_id g <> i ->
  In g (Store.feeds (Store.update_feed c i h)).
Proof.
  intros Hin Hne. cbn. apply in_map_iff. exists g. split; [|exact Hin].
  now destruct (Z.eqb_spec (Store.f_id g) i).
Qed.

(** X16.  When [fetch_and_store_feed] does not stop on a failed fetch, the
    feed of the url is stored afterwards with the time of this fetch.  A
    feed that was stored keeps its id and its activation flag, and its
    title unless that was missing or empty and the fetch brought one; a
    feed that was not stored is created active, with the fetched title.
    The feeds of other urls are not touched. *)
Theorem fetch_and_store_feed_row
        (datetime_of_struct_time : list Z -> option Z)
        (parse : string -> FeedManager.parsed_feed + string)
        (c : Store.conn) (now : Z) (feed_url : string) (max_articles : Z) :
  Store.well_formed c ->
  let ff := FeedManager.fetch_feed datetime_of_struct_time parse feed_url
              max_articles in
  let t := fst (fst ff) in
  (PyStr.truthy_opt (snd ff)
   && match snd (fst ff) with [] => true | _ => false end)%bool = false ->
  let c' := fst (FeedPipeline.fetch_and_store_feed datetime_of_struct_time parse
                   c now feed_url max_articles) in
  exists f,
    Store.get_feed_by_url c' feed_url = Some f /\
    Store.f_last_fetched f = Some now /\
    (forall f0, Store.get_feed_by_url c feed_url = Some f0 ->
                Store.f_id f = Store.f_id f0 /\
                Store.f_active f = Store.f_active f0 /\
                Store.f_title f
                = if PyStr.truthy_opt (Store.f_title f0) then Store.f_title f0
                  else if PyStr.truthy_opt t then t else Store.f_title f0) /\
    (Store.get_feed_by_url c feed_url = None ->
     f = Store.mk_feed (Store.feed_seq c + 1) feed_url t (Some now) true) /\
    (forall g, In g (Store.feeds c) -> Store.f_url g <> feed_url ->
               In g (Store.feeds c')).
Proof.
  intros Hwf. cbv zeta.
  destruct (FeedManager.fetch_feed datetime_of_struct_time parse feed_url
                                   max_articles) as [[t fetched] e] eqn:Hfetch.
  cbn [fst snd]. intros Htest.
  rewrite (fetch_and_store_proceeds _ _ c now feed_url max_articles t fetched e
             Hfetch Htest).
  cbn [fst].
  set (c1 := fst (FeedPipeline.resolve_feed c feed_url t)).
  set (fid := snd (FeedPipeline.resolve_feed c feed_url t)).
  destruct (store_articles_spec fid fetched c1 0)
    as (added & _ & _ & (Hf2 & _) & _).
  cbv zeta in Hf2.
  set (c2 := fst (FeedPipeline.store_articles c1 fid fetched 0)) in *.
  assert (forall f1, Store.get_feed_by_url c1 feed_url = Some f1 ->
                     Store.f_id f1 = fid ->
                     Store.get_feed_by_url
                       (Store.update_feed_last_fetched c2 fid now) feed_url
                     = Some (Store.mk_feed (Store.f_id f1) (Store.f_url f1)
                                           (Store.f_title f1) (Some now)
                                           (Store.f_active f1))) as Hlast.
  { intros f1 Hg Hi. unfold Store.update_feed_last_fetched.
    rewrite get_feed_by_url_update by reflexivity.
    unfold Store.get_feed_by_url in *. rewrite Hf2, Hg. cbn.
    now rewrite Hi, Z.eqb_refl. }
  assert (forall g, In g (Store.feeds c1) -> Store.f_id g <> fid ->
                    In g (Store.feeds (Store.update_feed_last_fetched c2 fid now)))
    as Hkeep.
  { intros g Hg Hne. apply update_feed_keeps_other; [|exact Hne]. now rewrite Hf2. }
  unfold c1, fid in *. clear c1 fid. unfold FeedPipeline.resolve_feed in *.
  destruct (Store.get_feed_by_url c feed_url) as [f0|] eqn:Hf; cbn [fst snd] in *.
  - destruct (get_feed_by_url_Some c feed_url f0 Hf) as [Hin0 Hu0].
    assert (forall g, In g (Store.feeds c) -> Store.f_url g <> feed_url ->
                      Store.f_id g <> Store.f_id f0) as Hother.
    { intros g Hg Hu He. apply Hu. rewrite <- Hu0. f_equal.
      apply (NoDup_map_In_eq Store.f_id (Store.feeds c)); [apply Hwf|assumption..]. }
    destruct (PyStr.truthy_opt t) eqn:Ht;
      destruct (PyStr.truthy_opt (Store.f_title f0)) eqn:Ht0; cbn [andb negb] in *.
    + eexists. split; [apply (Hlast f0 Hf eq_refl)|]. cbn.
      split; [reflexivity|]. split; [intros f [= <-]; now rewrite Ht0|].
      split; [discriminate|]. intros g Hg Hu. apply Hkeep; auto.
    + assert (Store.get_feed_by_url
                (Store.update_feed_title c (Store.f_id f0) (default "" t)) feed_url
              = Some (Store.mk_feed (Store.f_id f0) (Store.f_url f0)
                                    (Some (default "" t))
                                    (Store.f_last_fetched f0) (Store.f_active f0)))
        as Hg1.
      { unfold Store.update_feed_title.
        rewrite get_feed_by_url_update by reflexivity. rewrite Hf. cbn.
        now rewrite Z.eqb_refl. }
      eexists. split; [apply (Hlast _ Hg1 eq_refl)|]. cbn.
      split; [reflexivity|]. split.
      { intros f [= <-]. rewrite Ht0. repeat split. now destruct t. }
      split; [discriminate|]. intros g Hg Hu. apply Hkeep; [|auto].
      apply update_feed_keeps_other; auto.
    + eexists. split; [apply (Hlast f0 Hf eq_refl)|]. cbn.
      split; [reflexivity|]. split; [intros f [= <-]; now rewrite Ht0|].
      split; [discriminate|]. intros g Hg Hu. apply Hkeep; auto.
    + eexists. split; [apply (Hlast f0 Hf eq_refl)|]. cbn.
      split; [reflexivity|]. split; [intros f [= <-]; now rewrite Ht0|].
      split; [discriminate|]. intros g Hg Hu. apply Hkeep; auto.
  - rewrite (add_feed_fresh c feed_url t Hf) in *. cbn [fst snd] in *.
    assert (Store.get_feed_by_url
              (Store.mk_conn
                 (Store.feeds c
                  ++ [Store.mk_feed (Store.feed_seq c + 1) feed_url t None true])
                 (Store.feed_seq c + 1) (Store.arts c) (Store.history c)
                 (Store.history_seq c)) feed_url
            = Some (Store.mk_feed (Store.feed_seq c + 1) feed_url t None true))
      as Hg1.
    { unfold Store.get_feed_by_url. cbn [Store.feeds].
      rewrite find_app_r by exact Hf. cbn. now rewrite String.eqb_refl. }
    eexists. split; [apply (Hlast _ Hg1 eq_refl)|]. cbn.
    split; [reflexivity|]. split; [discriminate|]. split; [reflexivity|].
    intros g Hg Hu. apply Hkeep.
    + cbn. apply in_or_app. now left.
    + destruct Hwf as (_ & _ & Hrg & _). rewrite Forall_forall in Hrg.
      specialize (Hrg g (proj2 (list_elem_of_In _ _) Hg)). lia.
Qed.

(** X16 on the empty store and a feed with two entries. *)
Lemma fetch_and_store_feed_row_witness :
  exists f,
    Store.get_feed_by_url
      (fst (FeedPipeline.fetch_and_store_feed (fun _ => None)
              (fun _ => inl FeedManager.bozo_feed) Store.init_db 100
              "https://example.com/feed" 50))
      "https://example.com/feed" = Some f /\
    Store.f_last_fetched f = Some 100.
Proof.
  destruct (fetch_and_store_feed_row (fun _ => None)
              (fun _ => inl FeedManager.bozo_feed) Store.init_db 100
              "https://example.com/feed" 50 store_well_formed_init eq_refl)
    as (f & Hget & Hlast & _).
  exists f. split; [exact Hget | exact Hlast].
Defined.

(** ** Importing a feeds file *)

Section ImportFacts.
Import Database Store FeedManager FeedPipeline.

Lemma find_app_None {A} (p : A -> bool) (l l' : list A) :
  find p (l ++ l') = None -> find p l = None.
Proof.
  induction l as [|x l IH]; cbn; [reflexivity|].
  destruct (p x); [discriminate | exact IH].
Qed.

Lemma import_urls_spec (urls : list string) :
  forall (c : conn) (k : nat),
    let r := import_urls c urls k in
    exists added,
      feeds (fst r) = feeds c ++ added /\
      snd r = (k + length added)%nat /\
      feed_seq (fst r) = feed_seq c + Z.of_nat (length added) /\
      (arts (fst r) = arts c /\ history (fst r) = history c /\
       history_seq (fst r) = history_seq c) /\
      Forall (imported c urls) added /\
      NoDup (map f_url added) /\
      Forall (fun u => is_Some (get_feed_by_url (fst r) u)) urls.
Proof.
  induction urls as [|u rest IH]; intros c k; cbv zeta.
  - exists []. cbn. rewrite app_nil_r, Z.add_0_r, Nat.add_0_r.
    repeat split; constructor.
  - cbn [import_urls].
    destruct (get_feed_by_url c u) as [f|] eqn:Hf.
    + destruct (IH c k) as (added & Hfeeds & Hn & Hseq & Hrest & Hadd & Hnd & Hall).
      exists added. repeat split; try assumption; try apply Hrest.
      * eapply Forall_impl; [exact Hadd|].
        intros g (Hin & Hg). split; [now right | exact Hg].
      * constructor; [|exact Hall].
        exists f. unfold get_feed_by_url in *. rewrite Hfeeds.
        now apply find_app_l.
    + rewrite (add_feed_fresh c u None Hf). cbn [fst].
      set (new := mk_feed (feed_seq c + 1) u None None true).
      set (c1 := mk_conn (feeds c ++ [new]) (feed_seq c + 1) (arts c)
                         (history c) (history_seq c)).
      destruct (IH c1 (Datatypes.S k))
        as (added & Hfeeds & Hn & Hseq & Hrest & Hadd & Hnd & Hall).
      assert (get_feed_by_url c1 u = Some new) as Hnew.
      { unfold get_feed_by_url. cbn [feeds c1]. rewrite find_app_r by exact Hf.
        cbn. now rewrite String.eqb_refl. }
      exists (new :: added). repeat split; try apply Hrest.
      * rewrite Hfeeds. cbn [feeds c1]. now rewrite <- app_assoc.
      * rewrite Hn. cbn [length]. lia.
      * rewrite Hseq. cbn [feed_seq c1 length]. lia.
      * constructor.
        { repeat split; [now left | exact Hf]. }
        eapply Forall_impl; [exact Hadd|].
        intros g (Hin & Hg & Hg'). split; [now right|]. split; [|exact Hg'].
        unfold get_feed_by_url in *. cbn [feeds c1] in Hg.
        now apply find_app_None in Hg.
      * cbn [map f_url new]. apply NoDup_cons. split; [|exact Hnd].
        intros Hu%list_elem_of_In%in_map_iff. destruct Hu as (g & Hgu & Hg).
        rewrite Forall_forall in Hadd.
        destruct (Hadd g (proj2 (list_elem_of_In _ _) Hg)) as (_ & Hnone & _).
        rewrite Hgu, Hnew in Hnone. discriminate.
      * constructor; [|exact Hall].
        exists new. unfold get_feed_by_url in *. rewrite Hfeeds.
        now apply find_app_l.
Qed.

Lemma import_urls_known (urls : list string) (c : conn) (k : nat) :
  Forall (fun u => is_Some (get_feed_by_url c u)) urls ->
  import_urls c urls k = (c, k).
Proof.
  induction 1 as [|u rest [f Hf] _ IH]; cbn [import_urls]; [reflexivity|].
  now rewrite Hf.
Qed.

Lemma import_urls_well_formed (urls : list string) :
  forall (c : conn) (k : nat),
    Store.well_formed c -> Store.well_formed (fst (import_urls c urls k)).
Proof.
  induction urls as [|u rest IH]; intros c k Hwf; cbn [import_urls];
    [exact Hwf|].
  destruct (get_feed_by_url c u) as [f|] eqn:Hf; [now apply IH|].
  apply IH. now apply add_feed_well_formed.
Qed.

End ImportFacts.

(** X17.  [import_feeds_from_file] appends one feed for every distinct url
    of the file that is not stored yet (no title, never fetched, active),
    returns their number, leaves the stored feeds, the articles and the
    history as they are, and keeps the store well-formed; afterwards every
    url of the file is stored, so that importing the same file again adds
    nothing and returns 0.  A file that does not exist imports nothing. *)
Theorem import_feeds_from_file_spec (strip : string -> string)
        (c : Store.conn) (feeds_file : option (list string)) :
  let urls := FeedPipeline.parse_feeds_file strip feeds_file in
  let r := FeedPipeline.import_feeds_from_file strip c feeds_file in
  (exists added,
      Store.feeds (fst r) = Store.feeds c ++ added /\
      snd r = length added /\
      NoDup (map Store.f_url added) /\
      Forall (FeedPipeline.imported c urls) added /\
      (forall u, In u (map Store.f_url added)
                 <-> In u urls /\ Store.get_feed_by_url c u = None)) /\
  Store.arts (fst r) = Store.arts c /\
  Store.history (fst r) = Store.history c /\
  Forall (fun u => is_Some (Store.get_feed_by_url (fst r) u)) urls /\
  FeedPipeline.import_feeds_from_file strip (fst r) feeds_file = (fst r, 0%nat) /\
  (Store.well_formed c -> Store.well_formed (fst r)) /\
  (feeds_file = None -> r = (c, 0%nat)).
Proof.
  cbv zeta. unfold FeedPipeline.import_feeds_from_file.
  set (urls := FeedPipeline.parse_feeds_file strip feeds_file).
  destruct (import_urls_spec urls c 0)
    as (added & Hfeeds & Hn & _ & (Harts & Hhist & _) & Hadd & Hnd & Hall).
  cbv zeta in *.
  split; [|split; [exact Harts|split; [exact Hhist|split; [exact Hall|split;
    [|split]]]]].
  - exists added. split; [exact Hfeeds|]. split; [exact Hn|].
    split; [exact Hnd|]. split; [exact Hadd|].
    intros u. split.
    + intros (g & <- & Hg)%in_map_iff. rewrite Forall_forall in Hadd.
      destruct (Hadd g (proj2 (list_elem_of_In _ _) Hg)) as (Hin & Hnone & _).
      now split.
    + intros [Hin Hnone]. rewrite Forall_forall in Hall.
      destruct (Hall u (proj2 (list_elem_of_In _ _) Hin)) as [g Hg].
      apply get_feed_by_url_Some in Hg as [Hg <-].
      rewrite Hfeeds in Hg. apply in_app_or in Hg as [Hg|Hg].
      * exfalso. apply (get_feed_by_url_None _ _ Hnone). now apply in_map.
      * now apply in_map.
  - now apply import_urls_known.
  - apply import_urls_well_formed.
  - intros ->. reflexivity.
Qed.

(** X17 on the empty store and a file that names one url twice, with a
    comment and an empty line. *)
Lemma import_feeds_from_file_spec_witness :
  snd (FeedPipeline.import_feeds_from_file (fun s => s) Store.init_db
         (Some ["https://example.com/feed"; "# a comment"; "";
                "https://example.com/feed"])) = 1%nat /\
  Store.well_formed
    (fst (FeedPipeline.import_feeds_from_file (fun s => s) Store.init_db
            (Some ["https://example.com/feed"; "# a comment"; "";
                   "https://example.com/feed"]))).
Proof.
  split; [reflexivity|].
  destruct (import_feeds_from_file_spec (fun s => s) Store.init_db
              (Some ["https://example.com/feed"; "# a comment"; "";
                     "https://example.com/feed"]))
    as (_ & _ & _ & _ & _ & Hwf & _).
  apply Hwf, store_well_formed_init.
Defined.

(** ** Fetching every active feed *)

Section AllFeedsFacts.
Import Database Store FeedManager FeedPipeline.
Variable datetime_of_struct_time : list Z -> option Z.
Variable parse : string -> parsed_feed + string.

Local Abbreviation fetch_and_store_feed' :=
  (FeedPipeline.fetch_and_store_feed datetime_of_struct_time parse).

Lemma update_feed_identity (c : conn) (i : Z) (g : feed -> feed) :
  (forall f, feed_identity (g f) = feed_identity f) ->
  map feed_identity (feeds (update_feed c i g)) = map feed_identity (feeds c).
Proof.
  intros Hg. cbn. rewrite map_map. apply map_ext. intros f.
  destruct (f_id f =? i); [apply Hg | reflexivity].
Qed.

Lemma get_feed_by_url_is_Some (c : conn) (u : string) :
  is_Some (get_feed_by_url c u) <-> In u (map f_url (feeds c)).
Proof.
  split.
  - intros [f Hf]. apply get_feed_by_url_Some in Hf as [Hin <-].
    now apply in_map.
  - intros Hin. destruct (get_feed_by_url c u) as [f|] eqn:Hf; [eauto|].
    now apply get_feed_by_url_None in Hf.
Qed.

Lemma identity_urls (c c' : conn) :
  map feed_identity (feeds c') = map feed_identity (feeds c) ->
  map f_url (feeds c') = map f_url (feeds c).
Proof.
  intros H.
  change f_url with (fun f => snd (fst (feed_identity f))).
  rewrite <- !(map_map feed_identity (fun k => snd (fst k))). now rewrite H.
Qed.

Lemma resolve_feed_arts (c : conn) (url : string) (t : option string) :
  arts (fst (resolve_feed c url t)) = arts c.
Proof.
  unfold resolve_feed. destruct (get_feed_by_url c url) as [f|] eqn:Hf.
  - cbn [fst]. now destruct (_ && _)%bool.
  - now rewrite (add_feed_fresh c url t Hf).
Qed.

Lemma fetch_and_store_step (c : conn) (now : Z) (url : string) (max : Z) :
  let r := fetch_and_store_feed' c now url max in
  fr_feed_url (snd r) = url /\
  (exists added, articles (arts (fst r)) = articles (arts c) ++ added /\
                 fr_articles_new (snd r) = length added) /\
  (is_Some (get_feed_by_url c url) ->
   map feed_identity (feeds (fst r)) = map feed_identity (feeds c)).
Proof.
  cbv zeta.
  destruct (FeedManager.fetch_feed datetime_of_struct_time parse url max)
    as [[t fetched] e] eqn:Hfetch.
  destruct (PyStr.truthy_opt e && match fetched with [] => true | _ => false end)%bool
    eqn:Htest.
  - apply andb_true_iff in Htest as [He Hnil].
    destruct fetched; [|discriminate].
    rewrite (fetch_and_store_failure _ _ c now url max t e Hfetch He).
    cbn [fst snd fr_feed_url fr_articles_new].
    split; [reflexivity|]. split; [|reflexivity].
    exists []. now rewrite app_nil_r.
  - rewrite (fetch_and_store_proceeds _ _ c now url max t fetched e Hfetch Htest).
    cbn [fst snd fr_feed_url fr_articles_new].
    pose proof (resolve_feed_arts c url t) as Harts1.
    set (c1 := fst (resolve_feed c url t)) in *.
    set (fid := snd (resolve_feed c url t)).
    destruct (store_articles_spec fid fetched c1 0)
      as (added & Hn & Hc & (Hf2 & _) & _).
    cbv zeta in *.
    split; [reflexivity|]. split.
    + exists added. split; [|exact Hn].
      unfold update_feed_last_fetched. cbn [arts update_feed with_feeds].
      now rewrite Hc, Harts1.
    + intros [f0 Hf0]. unfold update_feed_last_fetched.
      rewrite update_feed_identity by reflexivity. rewrite Hf2.
      unfold c1, resolve_feed. rewrite Hf0. cbn [fst].
      destruct (PyStr.truthy_opt t && negb (PyStr.truthy_opt (f_title f0)))%bool;
        [|reflexivity].
      unfold update_feed_title. now rewrite update_feed_identity.
Qed.

Lemma fetch_each_spec (clock : nat -> Z) (max : Z) (l : list feed) :
  forall (c : conn) (k : nat),
    Forall (fun f => is_Some (get_feed_by_url c (f_url f))) l ->
    let r := fetch_each datetime_of_struct_time parse c clock k l max in
    map fr_feed_url (snd r) = map f_url l /\
    map feed_identity (feeds (fst r)) = map feed_identity (feeds c) /\
    exists added, articles (arts (fst r)) = articles (arts c) ++ added /\
                  list_sum (map fr_articles_new (snd r)) = length added.
Proof.
  induction l as [|f rest IH]; intros c k Hall; cbv zeta.
  - cbn. split; [reflexivity|]. split; [reflexivity|].
    exists []. now rewrite app_nil_r.
  - apply Forall_cons in Hall as [Hf Hrest]. cbn [fetch_each].
    destruct (fetch_and_store_step c (clock k) (f_url f) max)
      as (Hurl & (added1 & Ha1 & Hn1) & Hid1).
    cbv zeta in *. specialize (Hid1 Hf).
    destruct (fetch_and_store_feed' c (clock k) (f_url f) max) as [c1 res].
    cbn [fst snd] in *.
    assert (Forall (fun g => is_Some (get_feed_by_url c1 (f_url g))) rest) as Hrest1.
    { eapply Forall_impl; [exact Hrest|]. intros g Hg.
      apply get_feed_by_url_is_Some. rewrite (identity_urls c c1 Hid1).
      now apply get_feed_by_url_is_Some. }
    destruct (IH c1 (Datatypes.S k) Hrest1) as (Hurls & Hid2 & added2 & Ha2 & Hn2).
    cbv zeta in *.
    destruct (fetch_each datetime_of_struct_time parse c1 clock (Datatypes.S k)
                         rest max) as [c2 results].
    cbn [fst snd map] in *.
    split; [now rewrite Hurl, Hurls|]. split; [now rewrite Hid2|].
    exists (added1 ++ added2). split.
    + now rewrite Ha2, Ha1, <- app_assoc.
    + rewrite length_app. unfold list_sum in *. cbn [fold_right]. lia.
Qed.

End AllFeedsFacts.

(** X18.  [fetch_all_feeds], consumed to its end on a well-formed store,
    gives one result for each feed that is active once the file is
    imported, in the order of the table; a url of the file that was not
    stored is therefore fetched in the same call, and a deactivated feed is
    not, whether the file names it or not.  The fetches create no feed and
    change no id, url or activation flag; the articles table grows at its
    end by as many rows as the [articles_new] of the results add up to. *)
Theorem fetch_all_feeds_spec
        (datetime_of_struct_time : list Z -> option Z)
        (parse : string -> FeedManager.parsed_feed + string)
        (strip : string -> string)
        (c : Store.conn) (clock : nat -> Z)
        (feeds_file : option (option (list string))) (max_articles : Z) :
  Store.well_formed c ->
  let c1 := match feeds_file with
            | Some file => fst (FeedPipeline.import_feeds_from_file strip c file)
            | None => c
            end in
  let r := FeedPipeline.fetch_all_feeds datetime_of_struct_time parse strip
             c clock feeds_file max_articles in
  map FeedPipeline.fr_feed_url (snd r)
  = map Store.f_url (Store.get_all_feeds c1 true) /\
  map FeedPipeline.feed_identity (Store.feeds (fst r))
  = map FeedPipeline.feed_identity (Store.feeds c1) /\
  (exists added,
      Database.articles (Store.arts (fst r))
      = Database.articles (Store.arts c) ++ added /\
      list_sum (map FeedPipeline.fr_articles_new (snd r)) = length added) /\
  (forall file u,
      feeds_file = Some file ->
      In u (FeedPipeline.parse_feeds_file strip file) ->
      Store.get_feed_by_url c u = None ->
      In u (map FeedPipeline.fr_feed_url (snd r))) /\
  (forall f, In f (Store.feeds c) -> Store.f_active f = false ->
             ~ In (Store.f_url f) (map FeedPipeline.fr_feed_url (snd r))).
Proof.
  intros Hwf. cbv zeta. unfold FeedPipeline.fetch_all_feeds.
  unfold FeedPipeline.import_feeds_from_file.
  set (c1 := match feeds_file with
             | Some file =>
                 fst (FeedPipeline.import_urls
                        c (FeedPipeline.parse_feeds_file strip file) 0)
             | None => c
             end).
  assert (exists urls added,
             Store.feeds c1 = Store.feeds c ++ added /\
             Store.arts c1 = Store.arts c /\
             Forall (FeedPipeline.imported c urls) added /\
             Forall (fun u => is_Some (Store.get_feed_by_url c1 u)) urls /\
             (forall file, feeds_file = Some file ->
                           urls = FeedPipeline.parse_feeds_file strip file))
    as (urls & added0 & Hfeeds & Harts & Hadd & Hall & Hurls).
  { unfold c1. destruct feeds_file as [file|].
    - destruct (import_urls_spec (FeedPipeline.parse_feeds_file strip file) c 0)
        as (added & H1 & _ & _ & (H2 & _) & H3 & _ & H4).
      exists (FeedPipeline.parse_feeds_file strip file), added.
      repeat split; try assumption. now intros ? [= <-].
    - exists [], []. rewrite app_nil_r. repeat split; try constructor.
      discriminate. }
  destruct (fetch_each_spec datetime_of_struct_time parse clock max_articles
              (Store.get_all_feeds c1 true) c1 0)
    as (Hres & Hid & added & Ha & Hn).
  { apply Forall_forall. intros f Hf%list_elem_of_In.
    apply get_feed_by_url_is_Some, in_map.
    cbn in Hf. now apply filter_In in Hf as [Hf _]. }
  cbv zeta in *.
  split; [exact Hres|]. split; [exact Hid|]. split.
  { exists added. split; [|exact Hn]. now rewrite Ha, Harts. }
  rewrite Hres. cbn [Store.get_all_feeds]. rewrite Hfeeds. split.
  - intros file u Hfile Hin Hnone. rewrite <- (Hurls file Hfile) in Hin.
    rewrite Forall_forall in Hall.
    destruct (Hall u (proj2 (list_elem_of_In _ _) Hin)) as [g Hg].
    apply get_feed_by_url_Some in Hg as [Hg <-]. apply in_map.
    rewrite Hfeeds in Hg. apply filter_In. split; [exact Hg|].
    apply in_app_or in Hg as [Hg|Hg].
    + exfalso. apply (get_feed_by_url_None _ _ Hnone). now apply in_map.
    + rewrite Forall_forall in Hadd.
      now destruct (Hadd g (proj2 (list_elem_of_In _ _) Hg)) as (_ & _ & _ & _ & ?).
  - intros f Hf Hoff (g & Hu & Hg)%in_map_iff.
    apply filter_In in Hg as [Hg Hon]. apply in_app_or in Hg as [Hg|Hg].
    + assert (g = f) as ->; [|congruence].
      apply (NoDup_map_In_eq Store.f_url (Store.feeds c)); [apply Hwf|assumption..].
    + rewrite Forall_forall in Hadd.
      destruct (Hadd g (proj2 (list_elem_of_In _ _) Hg)) as (_ & Hnone & _).
      apply (get_feed_by_url_None _ _ Hnone). rewrite Hu. now apply in_map.
Qed.

(** X18 on a store whose only feed is deactivated, with a file that names
    it: nothing is fetched. *)
Lemma fetch_all_feeds_spec_witness :
  snd (FeedPipeline.fetch_all_feeds (fun _ => None)
         (fun _ => inl FeedManager.bozo_feed) (fun s => s)
         (Store.deactivate_feed
            (fst (Store.add_feed Store.init_db "https://example.com/feed" None)) 1)
         (fun k => Z.of_nat k) (Some (Some ["https://example.com/feed"])) 50)
  = [].
Proof.
  destruct (fetch_all_feeds_spec (fun _ => None)
              (fun _ => inl FeedManager.bozo_feed) (fun s => s)
              (Store.deactivate_feed
                 (fst (Store.add_feed Store.init_db "https://example.com/feed"
                                      None)) 1)
              (fun k => Z.of_nat k) (Some (Some ["https://example.com/feed"])) 50)
    as (H & _).
  - apply update_feed_well_formed; try reflexivity.
    apply add_feed_well_formed, store_well_formed_init.
  - cbv zeta in H. apply map_eq_nil in H. exact H.
Defined.

(** ** The breakdown of the costs *)

Section BreakdownFacts.
Import CostTracker Breakdown.

Lemma fold_add_call_by_operation (l : list APICall) :
  forall acc,
    by_operation (fold_left add_call l acc)
    = add_each operation l (by_operation acc).
Proof.
  induction l as [|c l IH]; intros acc; cbn [fold_left add_each]; [reflexivity|].
  now rewrite IH.
Qed.

Lemma fold_add_call_by_model (l : list APICall) :
  forall acc,
    by_model (fold_left add_call l acc) = add_each model l (by_model acc).
Proof.
  induction l as [|c l IH]; intros acc; cbn [fold_left add_each]; [reflexivity|].
  now rewrite IH.
Qed.

Lemma add_each_lookup (key : APICall -> string) (k : string) (l : list APICall) :
  forall d,
    add_each key l d !! k
    = match calls_with key k l with
      | [] => d !! k
      | l' => Some (fold_left PrimFloat.add (map cost_usd l')
                              (default 0%float (d !! k)))
      end.
Proof.
  induction l as [|c l IH]; intros d; [reflexivity|].
  change (add_each key (c :: l) d)
    with (add_each key l (dict_add d (key c) (cost_usd c))).
  rewrite IH. unfold calls_with. cbn [List.filter].
  destruct (String.eqb_spec (key c) k) as [He|Hne].
  - unfold dict_add. rewrite He, lookup_insert_eq. cbn [default map fold_left].
    now destruct (List.filter _ l).
  - unfold dict_add. now rewrite lookup_insert_ne.
Qed.

Lemma summary_loop_app (fromisoformat : string -> option Z)
      (l l' : list APICall) (since : option Z) :
  forall acc,
    summary_loop fromisoformat (l ++ l') since acc
    = match summary_loop fromisoformat l since acc with
      | inl s => summary_loop fromisoformat l' since s
      | inr e => inr e
      end.
Proof.
  induction l as [|c l IH]; intros acc; [reflexivity|].
  cbn [app summary_loop]. destruct since as [s|]; [|apply IH].
  destruct (fromisoformat (timestamp c)) as [t|]; [|reflexivity].
  destruct (t <? s); apply IH.
Qed.



End BreakdownFacts.

(** X19.  In the summary, [by_operation] has an entry for exactly the
    operations of the included calls, and the entry is the sum of the costs
    of the included calls of that operation, accumulated from [0.0] in the
    order of recording; the same holds of [by_model] and the models. *)
Theorem get_summary_breakdown (fromisoformat : string -> option Z)
        (calls : list CostTracker.APICall) (since : option Z) :
  (since <> None ->
   Forall (fun c => is_Some (fromisoformat (CostTracker.timestamp c))) calls) ->
  exists summary,
    let inc := List.filter (CostTracker.included fromisoformat since) calls in
    CostTracker.get_summary fromisoformat calls since = inl summary /\
    forall k,
      CostTracker.by_operation summary !! k
      = Breakdown.share CostTracker.operation k inc /\
      CostTracker.by_model summary !! k
      = Breakdown.share CostTracker.model k inc.
Proof.
  intros Hparse. eexists. cbv zeta.
  split; [apply (summary_loop_fold fromisoformat calls since Hparse)|].
  intros k. rewrite fold_add_call_by_operation, fold_add_call_by_model.
  rewrite !add_each_lookup. unfold Breakdown.share.
  cbn [CostTracker.empty_summary CostTracker.by_operation CostTracker.by_model].
  rewrite lookup_empty. split.
  - now destruct (Breakdown.calls_with CostTracker.operation k _).
  - now destruct (Breakdown.calls_with CostTracker.model k _).
Qed.

(** X19 on the ledger of [test_get_summary]: one model with both costs,
    one entry for each of the two operations, none for a third. *)
Lemma get_summary_breakdown_witness :
  exists summary,
    CostTracker.get_summary CostTracker.unary_fromisoformat
                            CostTracker.two_calls None = inl summary /\
    CostTracker.by_model summary !! "gpt-4o-mini"
    = Some (CostTracker.float_sum [CostTracker.call_cost "gpt-4o-mini" 1000 500;
                                   CostTracker.call_cost "gpt-4o-mini" 2000 1000]) /\
    CostTracker.by_operation summary !! "op2"
    = Some (CostTracker.float_sum [CostTracker.call_cost "gpt-4o-mini" 2000 1000]) /\
    CostTracker.by_operation summary !! "op3" = None.
Proof.
  destruct (get_summary_breakdown CostTracker.unary_fromisoformat
              CostTracker.two_calls None) as (summary & Hs & Hk).
  - intros H. now contradiction H.
  - exists summary. split; [exact Hs|].
    split; [apply (Hk "gpt-4o-mini")|].
    split; [apply (Hk "op2") | apply (Hk "op3")].
Defined.


(** X21.  Recording a call and summing up again: when the new timestamp
    reads back as the instant of the call, the summary over the same
    period gains exactly this call if the period includes that instant,
    one more call, its tokens, and the cost [record_call] returned added
    to the total; otherwise the summary is the same. *)
Theorem record_call_then_summary (isoformat : Z -> string)
        (fromisoformat : string -> option Z)
        (calls : list CostTracker.APICall) (since : option Z) (now : Z)
        (operation model : string) (input_tokens output_tokens : Z)
        (summary : CostTracker.CostSummary) :
  fromisoformat (isoformat now) = Some now ->
  CostTracker.get_summary fromisoformat calls since = inl summary ->
  let r := CostTracker.record_call isoformat calls now operation model
                                   input_tokens output_tokens in
  exists summary',
    CostTracker.get_summary fromisoformat (fst r) since = inl summary' /\
    (match since with Some s => now < s | None => False end ->
     summary' = summary) /\
    (match since with Some s => s <= now | None => True end ->
     CostTracker.total_calls summary' = CostTracker.total_calls summary + 1 /\
     CostTracker.total_input_tokens summary'
     = CostTracker.total_input_tokens summary + input_tokens /\
     CostTracker.total_output_tokens summary'
     = CostTracker.total_output_tokens summary + output_tokens /\
     CostTracker.total_cost_usd summary'
     = PrimFloat.add (CostTracker.total_cost_usd summary) (snd r) /\
     CostTracker.by_operation summary'
     = CostTracker.dict_add (CostTracker.by_operation summary) operation (snd r) /\
     CostTracker.by_model summary'
     = CostTracker.dict_add (CostTracker.by_model summary) model (snd r)).
Proof.
  intros Hround Hsum. cbv zeta. unfold CostTracker.record_call. cbn [fst snd].
  unfold CostTracker.get_summary in *. rewrite summary_loop_app, Hsum.
  cbn [CostTracker.summary_loop CostTracker.timestamp].
  destruct since as [s|].
  - rewrite Hround. destruct (Z.ltb_spec now s) as [Hlt|Hge].
    + exists summary. split; [reflexivity|]. split; [reflexivity | lia].
    + eexists. split; [reflexivity|]. split; [lia|].
      intros _. repeat split.
  - eexists. split; [reflexivity|]. split; [contradiction|].
    intros _. repeat split.
Qed.

(** X21 on the ledger of [test_get_summary] and a third call at the
    instant 9, summed up from the instant 6 on. *)
Lemma record_call_then_summary_witness :
  exists summary',
    CostTracker.get_summary CostTracker.unary_fromisoformat
      (fst (CostTracker.record_call CostTracker.unary_isoformat
              CostTracker.two_calls 9 "op3" "gpt-4o" 10 20))
      (Some 6) = inl summary' /\
    CostTracker.total_calls summary' = 2.
Proof.
  edestruct (record_call_then_summary CostTracker.unary_isoformat
               CostTracker.unary_fromisoformat CostTracker.two_calls (Some 6) 9
               "op3" "gpt-4o" 10 20)
    as (summary' & Hs' & _ & Hin); [reflexivity | reflexivity |].
  exists summary'. split; [exact Hs'|].
  destruct Hin as (Hn & _); [cbn; lia|]. rewrite Hn. reflexivity.
Defined.

(** ** Marking articles as read *)

Section ReadingFacts.
Import Database Store Reading.

Lemma was_read_after (c : conn) (i : Z) (action : string) (a : article) :
  was_read (fst (add_reading_history c i action None)) a
  = (was_read c a || ((i =? id a) && String.eqb action "read"))%bool.
Proof.
  unfold was_read. cbn [add_reading_history fst history].
  rewrite existsb_app. cbn [existsb h_article_id h_action].
  now rewrite orb_false_r.
Qed.

Lemma unread_In (c : conn) (a : article) :
  In a (get_unread_articles c (-1))
  <-> In a (articles (arts c)) /\ was_read c a = false.
Proof.
  unfold get_unread_articles. rewrite sql_limit_all by (left; lia).
  rewrite <- !list_elem_of_In, (order_by_pub_date_desc_perm _).
  rewrite !list_elem_of_In, filter_In. now rewrite negb_true_iff.
Qed.

End ReadingFacts.

(** X22.  The [mark-read] command adds a history row exactly when the
    action is one of the four valid ones and the article is stored, and
    changes nothing otherwise.  With the action ['read'] the article, and
    no other, leaves the unread articles; with any other action the unread
    articles stay as they are.  The command never leaves a history row of
    an article that is not stored. *)
Theorem mark_read_spec (c : Store.conn) (article_id : Z) (action : string) :
  let r := Reading.mark_read c article_id action in
  (snd r = true
   <-> In action Reading.valid_actions
       /\ is_Some (Store.get_article c article_id)) /\
  (snd r = false -> fst r = c) /\
  (snd r = true ->
   Store.feeds (fst r) = Store.feeds c /\ Store.arts (fst r) = Store.arts c /\
   Store.history (fst r)
   = Store.history c
       ++ [Store.mk_reading (Store.history_seq c + 1) article_id action None]) /\
  (snd r = true -> action = "read" ->
   forall a, In a (Store.get_unread_articles (fst r) (-1))
             <-> In a (Store.get_unread_articles c (-1))
                 /\ Database.id a <> article_id) /\
  (action <> "read" ->
   forall limit, Store.get_unread_articles (fst r) limit
                 = Store.get_unread_articles c limit) /\
  (Store.references_ok c -> Store.references_ok (fst r)).
Proof.
  cbv zeta. unfold Reading.mark_read.
  destruct (existsb (String.eqb action) Reading.valid_actions) eqn:Hvalid;
    cbn [negb].
  - assert (In action Reading.valid_actions) as Hin.
    { apply existsb_exists in Hvalid as (x & Hx & He).
      apply String.eqb_eq in He. now subst x. }
    destruct (Store.get_article c article_id) as [a0|] eqn:Hget; cbn [fst snd].
    + split; [split; [eauto | reflexivity]|].
      split; [discriminate|]. split; [now intros _|].
      split; [|split].
      * intros _ -> a. rewrite !unread_In.
        change (Store.arts (fst (Store.add_reading_history c article_id "read" None)))
          with (Store.arts c).
        rewrite was_read_after. cbn [String.eqb Ascii.eqb Bool.eqb].
        rewrite andb_true_r, orb_false_iff, Z.eqb_neq. intuition congruence.
      * intros Hne limit. unfold Store.get_unread_articles.
        change (Store.arts (fst (Store.add_reading_history c article_id action None)))
          with (Store.arts c).
        do 2 f_equal.
        apply filter_ext. intros a. f_equal.
        rewrite (was_read_after c article_id action a).
        apply String.eqb_neq in Hne. now rewrite Hne, andb_false_r, orb_false_r.
      * intros [Ha Hh]. split; [exact Ha|].
        cbn [Store.history Store.add_reading_history fst].
        apply Forall_app. split; [exact Hh|].
        constructor; [|constructor]. cbn [Store.h_article_id].
        exists a0. exact Hget.
    + split; [split; [discriminate | intros [_ [? ?]]; discriminate]|].
      split; [reflexivity|]. split; [discriminate|].
      split; [discriminate|]. split; [reflexivity | tauto].
  - cbn [fst snd].
    split; [split; [discriminate|]|].
    { intros [Hin _]. exfalso.
      assert (existsb (String.eqb action) Reading.valid_actions = true) as H;
        [|congruence].
      apply existsb_exists. exists action. split; [exact Hin|].
      apply String.eqb_refl. }
    split; [reflexivity|]. split; [discriminate|].
    split; [discriminate|]. split; [reflexivity | tauto].
Qed.

(** X22 on the store of two articles: marking the second as read keeps
    every history row attached to a stored article. *)
Lemma mark_read_spec_witness :
  snd (Reading.mark_read Store.read_twice 2 "read") = true /\
  Store.references_ok (fst (Reading.mark_read Store.read_twice 2 "read")).
Proof.
  destruct (mark_read_spec Store.read_twice 2 "read")
    as (Hok & _ & _ & _ & _ & Href).
  split.
  - apply Hok. split; [right; now left | eexists; reflexivity].
  - apply Href. split; repeat constructor; eexists; reflexivity.
Defined.

(** ** The recent articles *)

Section RecentFacts.
Import Database Store.

Lemma filter_all {A} (p : A -> bool) (l : list A) :
  Forall (fun x => p x = true) l -> List.filter p l = l.
Proof.
  induction 1 as [|x l Hx _ IH]; cbn; [reflexivity|]. now rewrite Hx, IH.
Qed.

Lemma omap_joined (c : conn) (l : list article) :
  Forall (fun a => is_Some (get_feed c (feed_id a))) l ->
  map fst (omap (fun a => match get_feed c (feed_id a) with
                          | Some f => Some (a, f_title f)
                          | None => None
                          end) l) = l /\
  Forall (fun row => exists f, get_feed c (feed_id (fst row)) = Some f
                               /\ snd row = f_title f)
         (omap (fun a => match get_feed c (feed_id a) with
                         | Some f => Some (a, f_title f)
                         | None => None
                         end) l).
Proof.
  induction 1 as [|a l [f Hf] _ [IH1 IH2]]; [split; [reflexivity | constructor]|].
  cbn [omap list_omap]. rewrite Hf. cbn [map fst]. split; [now rewrite IH1|].
  constructor; [|exact IH2]. exists f. now split.
Qed.

End RecentFacts.

(** X23.  When every article belongs to a stored feed, the join of
    [get_recent_articles] drops no article: it returns the newest articles
    of the whole table, up to the limit, each with the title of its own
    feed. *)
Theorem get_recent_articles_spec (c : Store.conn) (limit : Z) :
  Store.references_ok c ->
  map fst (Store.get_recent_articles c limit)
  = Database.sql_limit limit
      (Database.order_by_pub_date_desc (Database.articles (Store.arts c))) /\
  Forall (fun row => exists f,
              Store.get_feed c (Database.feed_id (fst row)) = Some f
              /\ snd row = Store.f_title f)
         (Store.get_recent_articles c limit).
Proof.
  intros [Ha _]. unfold Store.get_recent_articles.
  rewrite filter_all.
  2:{ eapply Forall_impl; [exact Ha|]. intros a Hs. now apply bool_decide_eq_true. }
  apply omap_joined.
  assert (forall a, In a (Database.sql_limit limit
                            (Database.order_by_pub_date_desc
                               (Database.articles (Store.arts c)))) ->
                    In a (Database.articles (Store.arts c))) as Hsub.
  { intros a Hin%list_elem_of_In. apply list_elem_of_In.
    rewrite <- (order_by_pub_date_desc_perm _).
    now apply (sublist_subseteq _ _ (sql_limit_sublist _ _)) in Hin. }
  apply Forall_forall. intros a Hin%list_elem_of_In%Hsub.
  rewrite Forall_forall in Ha. apply Ha. now apply list_elem_of_In.
Qed.

(** X23 on the store of two articles. *)
Lemma get_recent_articles_spec_witness :
  length (Store.get_recent_articles Store.read_twice 50) = 2%nat.
Proof.
  destruct (get_recent_articles_spec Store.read_twice 50) as [H _].
  - split; repeat constructor; eexists; reflexivity.
  - rewrite <- (length_map fst), H. reflexivity.
Defined.
